(** * variant-image: mapping normalisation and storefront resolution

    A shallow embedding of
      - [app/models/variant-images.server.js] (settings and mapping
        normalisers, legacy migration, product summary, theme embed
        status),
      - the admin routes (dashboard loader, settings action, assign-images
        action and loader) and the assign-images page handlers (image
        toggle, select all),
      - the storefront filter script (filename identity, gallery filter,
        variant change detection, listeners),
      - the admin block extension (identifier and thumbnail helpers, image
        toggle),
    followed by the properties stated about them.

    JavaScript values are the JSON fragment plus [undefined].  Numbers are
    the safe integers ([Number.isSafeInteger]), which [String] prints digit
    by digit: the model has no fractions, no [NaN] and no infinities, and
    [VNum n] beyond the safe range stands for no number of the program.  An
    object is the list of its own enumerable properties in property order.
    A read with a computed key follows the prototype chain (the members of
    [Object.prototype] and of [Array.prototype] are ECMAScript 2023's), an
    assignment to [__proto__] reaches the accessor of [Object.prototype],
    and a thrown [TypeError] is an explicit result. *)

From Stdlib Require Import List String Ascii ZArith NArith Lia Bool Arith.
From Stdlib Require Import DecimalString.
Import ListNotations.

Set Warnings "-register-all".

Local Open Scope string_scope.
Local Open Scope list_scope.

(* ===================================================================== *)
(** ** JavaScript values and the built-ins the sources rely on *)
(* ===================================================================== *)

Module JS.

Inductive value : Type :=
| VUndefined
| VNull
| VBool (b : bool)
| VNum (n : Z)
| VStr (s : string)
| VArr (items : list value)
| VObj (props : list (string * value)).

(** Outcome of an expression that may throw. *)
Inductive result (A : Type) : Type :=
| Ok (a : A)
| TypeError.
Arguments Ok {A} a.
Arguments TypeError {A}.

Definition bind {A B} (r : result A) (k : A -> result B) : result B :=
  match r with
  | Ok a => k a
  | TypeError => TypeError
  end.

Notation "x <- r ;; k" := (bind r (fun x => k))
  (at level 61, r at next level, right associativity).

(** [ToBoolean]. *)
Definition truthy (v : value) : bool :=
  match v with
  | VUndefined | VNull => false
  | VBool b => b
  | VNum n => negb (Z.eqb n 0)
  | VStr s => negb (String.eqb s "")
  | VArr _ | VObj _ => true
  end.

Definition nullish (v : value) : bool :=
  match v with
  | VUndefined | VNull => true
  | _ => false
  end.

(** [typeof v === "object"]: null, arrays and objects. *)
Definition typeof_object (v : value) : bool :=
  match v with
  | VNull | VArr _ | VObj _ => true
  | _ => false
  end.

Definition string_of_Z (n : Z) : string :=
  NilZero.string_of_int (Z.to_int n).

(** [String(v)]; a number is printed digit by digit, as JavaScript prints
    the safe integers. *)
Fixpoint ToString (v : value) : string :=
  match v with
  | VUndefined => "undefined"
  | VNull => "null"
  | VBool true => "true"
  | VBool false => "false"
  | VNum n => string_of_Z n
  | VStr s => s
  | VArr items =>
      (fix join (l : list value) : string :=
         match l with
         | [] => ""
         | x :: r =>
             let e := match x with
                      | VUndefined | VNull => ""
                      | _ => ToString x
                      end in
             match r with
             | [] => e
             | _ => (e ++ "," ++ join r)%string
             end
         end) items
  | VObj _ => "[object Object]"
  end.

(** *** Property keys and property order *)

Definition is_digit (c : ascii) : bool :=
  let n := nat_of_ascii c in (48 <=? n)%nat && (n <=? 57)%nat.

Fixpoint digits_to_N (s : string) (acc : N) : option N :=
  match s with
  | EmptyString => Some acc
  | String c s' =>
      if is_digit c
      then digits_to_N s' (acc * 10 + N.of_nat (nat_of_ascii c - 48))%N
      else None
  end.

(** A key is an array index when it is the canonical decimal form of an
    integer below 2^32 - 1. *)
Definition array_index (k : string) : option N :=
  match k with
  | EmptyString => None
  | String "0"%char EmptyString => Some 0%N
  | String "0"%char _ => None
  | _ => match digits_to_N k 0 with
         | Some n => if (n <? 4294967295)%N then Some n else None
         | None => None
         end
  end.

Definition obj (A : Type) : Type := list (string * A).

Fixpoint obj_get {A} (k : string) (o : obj A) : option A :=
  match o with
  | [] => None
  | (k', v) :: o' => if String.eqb k k' then Some v else obj_get k o'
  end.

Definition obj_has {A} (k : string) (o : obj A) : bool :=
  match obj_get k o with
  | Some _ => true
  | None => false
  end.

(** [o[k] ?? []] *)
Definition get_or_empty {A} (k : string) (o : obj (list A)) : list A :=
  match obj_get k o with
  | Some l => l
  | None => []
  end.

Definition obj_keys {A} (o : obj A) : list string := map fst o.
Definition obj_values {A} (o : obj A) : list A := map snd o.

Fixpoint obj_replace {A} (k : string) (v : A) (o : obj A) : obj A :=
  match o with
  | [] => []
  | (k', v') :: o' =>
      if String.eqb k k' then (k', v) :: o' else (k', v') :: obj_replace k v o'
  end.

(** Does a new key [k] come before the existing key [k'] in property order?
    Array indices come first, in ascending order; other names follow in
    creation order. *)
Definition key_before (k k' : string) : bool :=
  match array_index k, array_index k' with
  | Some n, Some n' => (n <? n')%N
  | Some _, None => true
  | None, _ => false
  end.

Fixpoint obj_insert {A} (k : string) (v : A) (o : obj A) : obj A :=
  match o with
  | [] => [(k, v)]
  | (k', v') :: o' =>
      if key_before k k' then (k, v) :: o else (k', v') :: obj_insert k v o'
  end.

(** The object [o] with [v] as its own property [k]: what a computed key
    [[k]: v] of an object literal defines, and what an assignment
    [o[k] = v] does to a property the object has of its own.  (An
    assignment to a name the object does not have is [obj_assign] below.) *)
Definition obj_set {A} (k : string) (v : A) (o : obj A) : obj A :=
  if obj_has k o then obj_replace k v o else obj_insert k v o.

(** *** Property reads *)

Definition char_string (c : ascii) : string := String c EmptyString.

(** [v[k]] for a [v] that is neither null nor undefined. *)
Definition prop (v : value) (k : string) : value :=
  match v with
  | VObj o =>
      match obj_get k o with
      | Some x => x
      | None => VUndefined
      end
  | VArr items =>
      match array_index k with
      | Some i => nth (N.to_nat i) items VUndefined
      | None =>
          if String.eqb k "length" then VNum (Z.of_nat (List.length items))
          else VUndefined
      end
  | VStr s =>
      match array_index k with
      | Some i =>
          match String.get (N.to_nat i) s with
          | Some c => VStr (char_string c)
          | None => VUndefined
          end
      | None =>
          if String.eqb k "length" then VNum (Z.of_nat (String.length s))
          else VUndefined
      end
  | _ => VUndefined
  end.

(** [v.k]: throws on null and undefined. *)
Definition get (v : value) (k : string) : result value :=
  if nullish v then TypeError else Ok (prop v k).

(** [v?.k]. *)
Definition get_opt (v : value) (k : string) : value :=
  if nullish v then VUndefined else prop v k.

(** [a ?? b]. *)
Definition coalesce (a b : value) : value :=
  if nullish a then b else a.

(** [a === b] on primitives; two distinct objects are never identical. *)
Definition strict_eq (a b : value) : bool :=
  match a, b with
  | VUndefined, VUndefined => true
  | VNull, VNull => true
  | VBool x, VBool y => Bool.eqb x y
  | VNum x, VNum y => Z.eqb x y
  | VStr x, VStr y => String.eqb x y
  | _, _ => false
  end.

(** *** [Set] of strings, in insertion order *)

Definition Set_has (x : string) (s : list string) : bool :=
  existsb (String.eqb x) s.

Definition Set_add (s : list string) (x : string) : list string :=
  if Set_has x s then s else s ++ [x].

(** [l.includes(x)] on an array of strings. *)
Definition includes (x : string) (l : list string) : bool :=
  existsb (String.eqb x) l.

(** [new Set(l)], read back with the spread operator. *)
Definition Set_of (l : list string) : list string :=
  fold_left Set_add l [].

(** *** Texts *)

(** [[...s]]: the characters of a text. *)
Definition chars (s : string) : list string :=
  map char_string (list_ascii_of_string s).

(** [s.includes(needle)] *)
Fixpoint str_includes (needle s : string) : bool :=
  String.prefix needle s
  || match s with
     | EmptyString => false
     | String _ r => str_includes needle r
     end.

(** [Number.isSafeInteger(n)]: the integers that [String] prints digit by
    digit. *)
Definition isSafeInteger (n : Z) : bool :=
  (Z.abs n <=? 9007199254740991)%Z.

(** The values that [ToString] prints as JavaScript does: every number in
    them that gets printed is a safe integer. *)
Fixpoint printable (v : value) : bool :=
  match v with
  | VNum n => isSafeInteger n
  | VArr items =>
      (fix all (l : list value) : bool :=
         match l with
         | [] => true
         | x :: r => printable x && all r
         end) items
  | _ => true
  end.

(** *** [String.prototype.split] with a one-character separator *)

(** [s.split(sep).pop()]: the text after the last separator, or the whole
    string when there is none. *)
Fixpoint split_pop_from (sep : ascii) (s : string) (current : string)
    : string :=
  match s with
  | EmptyString => current
  | String c s' =>
      if Ascii.eqb c sep then split_pop_from sep s' ""
      else split_pop_from sep s' (current ++ String c EmptyString)%string
  end.

Definition split_pop (sep : ascii) (s : string) : string :=
  split_pop_from sep s "".

(** [s.split(sep)[0]]: the text before the first separator. *)
Fixpoint split_first (sep : ascii) (s : string) : string :=
  match s with
  | EmptyString => ""
  | String c s' =>
      if Ascii.eqb c sep then "" else String c (split_first sep s')
  end.

(** *** [Map] with string keys, in insertion order *)

Definition Map_get {A} (k : string) (m : obj A) : option A := obj_get k m.

Definition Map_set {A} (k : string) (v : A) (m : obj A) : obj A :=
  if obj_has k m then obj_replace k v m else m ++ [(k, v)].

(** *** Inherited properties *)

(** The names of the members of [Object.prototype].  A read [o[k]] on an
    object without a property [k] of its own finds them: functions all of
    them, except [__proto__], an accessor that answers the prototype
    itself. *)
Definition Object_prototype : list string :=
  ["constructor"; "__defineGetter__"; "__defineSetter__"; "hasOwnProperty";
   "__lookupGetter__"; "__lookupSetter__"; "isPrototypeOf";
   "propertyIsEnumerable"; "toString"; "valueOf"; "__proto__";
   "toLocaleString"].

(** The names of the methods of [Array.prototype] (ECMAScript 2023). *)
Definition Array_prototype : list string :=
  ["at"; "concat"; "constructor"; "copyWithin"; "entries"; "every"; "fill";
   "filter"; "find"; "findIndex"; "findLast"; "findLastIndex"; "flat";
   "flatMap"; "forEach"; "includes"; "indexOf"; "join"; "keys";
   "lastIndexOf"; "map"; "pop"; "push"; "reduce"; "reduceRight"; "reverse";
   "shift"; "slice"; "some"; "sort"; "splice"; "toLocaleString";
   "toReversed"; "toSorted"; "toSpliced"; "toString"; "unshift"; "values";
   "with"].

(** What a read [o[k]] with a computed key finds: a JSON value (the
    object's own property, an element of an array), a built-in (a function
    or a prototype object reached through the prototype chain), or
    nothing, that is [undefined]. *)
Inductive found (A : Type) : Type :=
| Found (a : A)
| Builtin
| Nothing.
Arguments Found {A} a.
Arguments Builtin {A}.
Arguments Nothing {A}.

(** [o[k]] on an object whose prototype is [Object.prototype]. *)
Definition lookup {A} (k : string) (o : obj A) : found A :=
  match obj_get k o with
  | Some a => Found a
  | None => if includes k Object_prototype then Builtin else Nothing
  end.

(** [v[k]] on an object or an array.  [Array.prototype], which an array
    answers for [__proto__], is itself an empty array.  For a primitive
    [v] only the properties of its own are read. *)
Definition lookup_value (v : value) (k : string) : found value :=
  match v with
  | VObj o => lookup k o
  | VArr items =>
      if String.eqb k "__proto__" then Found (VArr [])
      else if includes k Array_prototype || includes k Object_prototype
      then Builtin
      else match prop v k with
           | VUndefined => Nothing
           | x => Found x
           end
  | _ => match prop v k with
         | VUndefined => Nothing
         | x => Found x
         end
  end.

(** [v[k]] with a computed key: throws on null and undefined. *)
Definition get_computed (v : value) (k : string) : result (found value) :=
  if nullish v then TypeError else Ok (lookup_value v k).

(** A built-in is truthy. *)
Definition found_truthy (f : found value) : bool :=
  match f with
  | Found v => truthy v
  | Builtin => true
  | Nothing => false
  end.

(** [o[k] = v] on an object whose prototype chain ends in
    [Object.prototype]: an assignment to [__proto__] reaches the accessor
    and gives the object no property, unless it has one of that name of its
    own (as an object made by [JSON.parse], by spreading or with a computed
    key can have). *)
Definition obj_assign {A} (k : string) (v : A) (o : obj A) : obj A :=
  if String.eqb k "__proto__" && negb (obj_has k o) then o
  else obj_set k v o.

End JS.

Import JS.

(* ===================================================================== *)
(** ** app/models/variant-images.server.js *)
(* ===================================================================== *)

Module Server.

Record Settings : Type := mkSettings {
  enabled : bool;
  allowSharedImages : bool;
  hideUnassignedImages : bool
}.

Definition DEFAULT_SETTINGS : Settings :=
  {| enabled := true; allowSharedImages := true; hideUnassignedImages := false |}.

Record ProductOption : Type := mkOption {
  name : string;
  values : list string
}.

Record SelectedOption : Type := mkSelected {
  so_name : string;
  so_value : string
}.

Record Variant : Type := mkVariant {
  id : string;
  selectedOptions : list SelectedOption
}.

Record ProductMapping : Type := mkMapping {
  mode : string;
  optionName : string;
  mapping : obj (list string)
}.

Section Normalizers.

(** [JSON.parse]; [None] stands for a [SyntaxError]. *)
Variable JSON_parse : string -> option value.

(** [toNumericId] of [app/utils/ids], a module that is not part of the
    sources at hand: it is a parameter of the normalisers. *)
Variable toNumericId : value -> string.

Definition safeParseJson (v fallback : value) : value :=
  match v with
  | VUndefined | VNull => fallback
  | VStr EmptyString => fallback
  | VArr _ | VObj _ => v
  | _ =>
      match JSON_parse (ToString v) with
      | Some r => r
      | None => fallback
      end
  end.

Definition boolean_or (v : value) (default : bool) : bool :=
  match v with
  | VBool b => b
  | _ => default
  end.

Definition normalizeSettings (rawSettings : value) : result Settings :=
  let input := safeParseJson rawSettings (VObj []) in
  e <- get input "enabled" ;;
  a <- get input "allowSharedImages" ;;
  h <- get input "hideUnassignedImages" ;;
  Ok {| enabled := boolean_or e (enabled DEFAULT_SETTINGS);
        allowSharedImages := boolean_or a (allowSharedImages DEFAULT_SETTINGS);
        hideUnassignedImages :=
          boolean_or h (hideUnassignedImages DEFAULT_SETTINGS) |}.

(** The [{mapping: {...}}] wrapper is accepted as well as a direct map. *)
Definition unwrap_source (parsed : value) : value :=
  if truthy parsed && typeof_object parsed && truthy (prop parsed "mapping")
  then prop parsed "mapping"
  else parsed.

(** An entry is an array of identifiers or an object with an [imageIds]
    array; any other shape contributes nothing. *)
Definition candidateImages (v : value) : list value :=
  match v with
  | VArr items => items
  | _ =>
      match get_opt v "imageIds" with
      | VArr items => items
      | _ => []
      end
  end.

Definition nonempty (s : string) : bool := negb (String.eqb s "").

(** [ids.length ? new Set(ids.map(toNumericId)) : null] *)
Definition validIdSet (ids : list string) : option (list string) :=
  match ids with
  | [] => None
  | _ => Some (Set_of (map (fun i => toNumericId (VStr i)) ids))
  end.

Definition allowed_by (valid : option (list string)) (x : string) : bool :=
  match valid with
  | Some s => Set_has x s
  | None => true
  end.

(** [[...new Set(c.map(toNumericId).filter(Boolean))].filter(valid)] *)
Definition cleanImageIds (validImageSet : option (list string))
    (candidates : list value) : list string :=
  filter (allowed_by validImageSet)
         (Set_of (filter nonempty (map toNumericId candidates))).

(** One round of the loop of [normalizeMapping].  The assignment
    [normalized[variantId] = imageIds] gives the result no entry for the
    name [__proto__] (it makes the list its prototype); what is done with
    the result, [Object.entries], sees its entries only. *)
Definition normalizeMapping_step (validVariantSet validImageSet : option (list string))
    (normalized : obj (list string)) (entry : string * value)
    : obj (list string) :=
  let (rawVariantId, value) := entry in
  let variantId := toNumericId (VStr rawVariantId) in
  if negb (nonempty variantId) then normalized
  else if negb (allowed_by validVariantSet variantId) then normalized
  else
    match cleanImageIds validImageSet (candidateImages value) with
    | [] => normalized
    | imageIds => obj_assign variantId imageIds normalized
    end.

Definition normalizeMapping (rawMapping : value)
    (validVariantIds validImageIds : list string) : obj (list string) :=
  let parsed := safeParseJson rawMapping (VObj []) in
  match unwrap_source parsed with
  | VObj source =>
      fold_left
        (normalizeMapping_step (validIdSet validVariantIds)
                               (validIdSet validImageIds))
        source []
  | _ => []
  end.

(** [values.length ? new Set(values) : null] *)
Definition validValueSet (validOptionValues : list string)
    : option (list string) :=
  match validOptionValues with
  | [] => None
  | _ => Some (Set_of validOptionValues)
  end.

(** One round of the loop of [normalizeOptionMapping].  As above, the
    assignment gives the result no entry for the name [__proto__]; what is
    done with the result, [JSON.stringify], sees its entries only. *)
Definition normalizeOptionMapping_step
    (validValuesSet validImageSet : option (list string))
    (normalized : obj (list string)) (entry : string * value)
    : obj (list string) :=
  let (optionValue, value) := entry in
  if negb (nonempty optionValue) then normalized
  else if negb (allowed_by validValuesSet optionValue) then normalized
  else
    match cleanImageIds validImageSet (candidateImages value) with
    | [] => normalized
    | imageIds => obj_assign optionValue imageIds normalized
    end.

Definition normalizeOptionMapping (rawMapping : value)
    (validOptionValues validImageIds : list string) : obj (list string) :=
  let parsed := safeParseJson rawMapping (VObj []) in
  match unwrap_source parsed with
  | VObj source =>
      fold_left
        (normalizeOptionMapping_step (validValueSet validOptionValues)
                                     (validIdSet validImageIds))
        source []
  | _ => []
  end.

(** [optionsList[0]?.name ?? "Option"] *)
Definition fallbackOptionName (optionsList : list ProductOption) : string :=
  match optionsList with
  | o :: _ => name o
  | [] => "Option"
  end.

Definition has_option_named (optionsList : list ProductOption) (v : value)
    : bool :=
  existsb (fun option => strict_eq (VStr (name option)) v) optionsList.

(** [optionsList.find(o => o.name === optionName)?.values ?? []] *)
Definition optionValuesOf (optionsList : list ProductOption)
    (optionName : string) : list string :=
  match find (fun option => String.eqb (name option) optionName) optionsList with
  | Some option => values option
  | None => []
  end.

(** The [Map] from numeric variant id to the variant's value of the target
    option ([None] is [null]). *)
Definition optionValueByVariant (optionName : string)
    (variants : list Variant) : obj (option string) :=
  fold_left
    (fun m variant =>
       let selected :=
         find (fun opt => String.eqb (so_name opt) optionName)
              (selectedOptions variant) in
       Map_set (toNumericId (VStr (id variant)))
               (option_map so_value selected) m)
    variants [].

(** One round of the migration loop.  [optionMap[optionValue] ?? []] is
    spread into an array, which throws on what is not iterable: on the
    built-in that the read finds when [optionValue] names a member of
    [Object.prototype]. *)
Definition migrate_step (byVariant : obj (option string))
    (optionMap : obj (list string)) (entry : string * list string)
    : result (obj (list string)) :=
  let (variantId, imageList) := entry in
  match Map_get variantId byVariant with
  | Some (Some optionValue) =>
      if negb (nonempty optionValue) then Ok optionMap
      else
        match lookup optionValue optionMap with
        | Found current =>
            Ok (obj_assign optionValue (Set_of (current ++ imageList))
                           optionMap)
        | Nothing =>
            Ok (obj_assign optionValue (Set_of ([] ++ imageList)) optionMap)
        | Builtin => TypeError
        end
  | _ => Ok optionMap
  end.

(** The migration loop over the filtered legacy map. *)
Definition migrate (byVariant : obj (option string))
    (legacyVariantMap : obj (list string)) (optionMap : obj (list string))
    : result (obj (list string)) :=
  fold_left
    (fun acc entry => optionMap <- acc ;; migrate_step byVariant optionMap entry)
    legacyVariantMap (Ok optionMap).

Definition is_option_mode (parsed : value) : bool :=
  truthy parsed && typeof_object parsed
  && strict_eq (prop parsed "mode") (VStr "option").

Definition normalizeProductMapping (rawValue : value)
    (productOptions : list ProductOption) (variants : list Variant)
    (imageIds : list string) : result ProductMapping :=
  let parsed := safeParseJson rawValue (VObj []) in
  let optionsList := productOptions in
  let fallback := fallbackOptionName optionsList in
  if is_option_mode parsed then
    let optionName :=
      match prop parsed "optionName" with
      | VStr s =>
          if has_option_named optionsList (VStr s) then s else fallback
      | _ => fallback
      end in
    let optionValues := optionValuesOf optionsList optionName in
    Ok {| mode := "option";
          optionName := optionName;
          mapping :=
            normalizeOptionMapping
              (coalesce (prop parsed "mapping") (VObj []))
              optionValues imageIds |}
  else
    let legacyVariantMap :=
      normalizeMapping parsed (map id variants) imageIds in
    let optionName := fallback in
    optionMap <- migrate (optionValueByVariant optionName variants)
                         legacyVariantMap [] ;;
    Ok {| mode := "option";
          optionName := optionName;
          mapping := optionMap |}.

End Normalizers.

(** A normalised mapping, as the JSON value it is written back as. *)
Definition value_of_table (m : obj (list string)) : value :=
  VObj (map (fun e => (fst e, VArr (map VStr (snd e)))) m).

Definition value_of_mapping (m : ProductMapping) : value :=
  VObj [("mode", VStr (mode m));
        ("optionName", VStr (optionName m));
        ("mapping", value_of_table (mapping m))].

End Server.

(* ===================================================================== *)
(** ** The admin block extension's identifier helper *)
(* ===================================================================== *)

Module Ids.

(** [toNumericId] as the admin block extension defines it:
    [if (!gid) return ""; return String(gid).split("/").pop();]
    The server imports a helper of the same name from [app/utils/ids], which
    is not among the sources at hand; the normalisers take that helper as a
    parameter, and this one is what they are instantiated with below. *)
Definition toNumericId (gid : value) : string :=
  if negb (truthy gid) then ""
  else split_pop "/"%char (ToString gid).

End Ids.

(* ===================================================================== *)
(** ** The assign-images page: handlers that edit the mapping *)
(* ===================================================================== *)

Module AssignImages.

Definition without (imageId : string) (l : list string) : list string :=
  filter (fun id => negb (String.eqb id imageId)) l.

(** The mapping state of the page, an object: the properties it has of its
    own, and its prototype, which is [Object.prototype] ([None]) unless
    "Select all" has put the array of the product's image identifiers in
    its place. *)
Record MappingState : Type := mkMappingState {
  entries : obj (list string);
  prototype : option (list string)
}.

(** The state an object literal or the loader's answer makes. *)
Definition plain (m : obj (list string)) : MappingState :=
  {| entries := m; prototype := None |}.

(** What a read [mapping[k]] finds: an array of identifiers, a text (an
    element of the array that is the prototype), something that is neither
    (a function, [Object.prototype], a number), or nothing. *)
Inductive reading : Type :=
| Identifiers (l : list string)
| Text (s : string)
| NoArray
| Undefined.

(** [mapping[k]]: the state's own property, or what its prototype chain
    answers.  [__proto__] is an accessor of [Object.prototype] that answers
    the prototype of the state. *)
Definition read (k : string) (mapping : MappingState) : reading :=
  match obj_get k (entries mapping) with
  | Some l => Identifiers l
  | None =>
      match prototype mapping with
      | None => if includes k Object_prototype then NoArray else Undefined
      | Some ids =>
          if String.eqb k "__proto__" then Identifiers ids
          else
            match array_index k with
            | Some i =>
                match nth_error ids (N.to_nat i) with
                | Some id => Text id
                | None => Undefined
                end
            | None =>
                if String.eqb k "length"
                   || includes k Array_prototype
                   || includes k Object_prototype
                then NoArray
                else Undefined
            end
      end
  end.

(** The click handler of an image tile.  [activeOptionValue] is [None] when
    the state holds [null]; [prev] is the mapping state.  What
    [prev[activeOptionValue] ?? []] is decides the click: on an array of
    identifiers the image is taken out or appended; on a text, [includes]
    looks for the identifier inside it, [filter] does not exist and the
    spread lists its characters; on what is neither, [current.includes] is
    no function and the call throws.  The new state is an object literal:
    the entries of [prev] with the active value's list, defined with a
    computed key.  The loop assigns to the keys the new state has of its
    own. *)
Definition toggleImage (allowSharedImages : bool)
    (activeOptionValue : option string) (imageId : string)
    (prev : MappingState) : result MappingState :=
  match activeOptionValue with
  | None => Ok prev
  | Some active =>
      if String.eqb active "" then Ok prev
      else
        selection <-
          match read active prev with
          | Identifiers current =>
              let isSelected := includes imageId current in
              Ok (isSelected,
                  if isSelected then without imageId current
                  else current ++ [imageId])
          | Undefined => Ok (false, [] ++ [imageId])
          | Text current =>
              if str_includes imageId current then TypeError
              else Ok (false, chars current ++ [imageId])
          | NoArray => TypeError
          end ;;
        let (isSelected, nextValueImages) := selection in
        let next := obj_set active nextValueImages (entries prev) in
        if negb allowSharedImages && negb isSelected then
          Ok (plain
                (fold_left
                   (fun next key =>
                      if String.eqb key active then next
                      else obj_set key
                             (without imageId (get_or_empty key next)) next)
                   (obj_keys next) next))
        else Ok (plain next)
  end.

(** The "Select all" action; [allIds] is
    [product.images.map(image => toNumericId(image.id))].  With sharing off
    the new state is a copy of the entries, and the list is stored by an
    assignment, which for the name [__proto__] makes the list the prototype
    of the state and gives it no entry, unless it has one of that name
    already; with sharing on the list is stored with a computed key. *)
Definition selectAll (allowSharedImages : bool)
    (activeOptionValue : option string) (allIds : list string)
    (mapping : MappingState) : MappingState :=
  match activeOptionValue with
  | None => mapping
  | Some active =>
      if String.eqb active "" then mapping
      else if negb allowSharedImages then
        let next :=
          fold_left
            (fun next key =>
               if negb (String.eqb key active)
               then obj_set key
                      (filter (fun id => negb (includes id allIds))
                              (get_or_empty key next))
                      next
               else next)
            (obj_keys (entries mapping)) (entries mapping) in
        if String.eqb active "__proto__" && negb (obj_has active next)
        then {| entries := next; prototype := Some allIds |}
        else plain (obj_set active allIds next)
      else plain (obj_set active allIds (entries mapping))
  end.

(** *** The page around the handlers *)

(** [activeOptionImages.includes(imageId)], which the page evaluates for
    every tile while it renders, [activeOptionImages] being
    [activeOptionValue ? mapping[activeOptionValue] ?? [] : []]. *)
Definition tileSelected (mapping : MappingState)
    (activeOptionValue : option string) (imageId : string) : result bool :=
  match activeOptionValue with
  | None => Ok false
  | Some active =>
      if String.eqb active "" then Ok false
      else
        match read active mapping with
        | Identifiers activeOptionImages =>
            Ok (includes imageId activeOptionImages)
        | Undefined => Ok false
        | Text activeOptionImages =>
            Ok (str_includes imageId activeOptionImages)
        | NoArray => TypeError
        end
  end.

(** The part of the page's state that the handlers read and write. *)
Record Page : Type := mkPage {
  page_mapping : MappingState;
  page_active : option string
}.

(** Does the page render with a tile for each of the images [shown]?  It
    does not when the evaluation of a tile throws. *)
Definition renders (shown : list string) (page : Page) : bool :=
  forallb
    (fun imageId =>
       match tileSelected (page_mapping page) (page_active page) imageId with
       | Ok _ => true
       | TypeError => false
       end)
    shown.

(** What the merchant does to the page, and the loader when its answer
    arrives. *)
Inductive Action : Type :=
| act_assign (value : string)
| act_close
| act_click (imageId : string)
| act_select_all
| act_reset
| act_change_option
| act_reload (loaded : obj (list string)).

(** One action on a page that is on display; [None] when it leaves no
    page (the handler throws, or the rendering that follows) or when there
    is no such tile.  [allIds] are the identifiers of the product's
    images.  "Assign images" sets the active value, empties the search and
    shows all images, so that a tile is rendered for each of them.  After
    the other actions the tiles depend on the search; the page is taken to
    go on, also where a rendering stops it. *)
Definition act (allowSharedImages : bool) (allIds : list string)
    (page : Page) (a : Action) : option Page :=
  match a with
  | act_assign value =>
      let next :=
        {| page_mapping := page_mapping page; page_active := Some value |} in
      if renders allIds next then Some next else None
  | act_close =>
      Some {| page_mapping := page_mapping page; page_active := None |}
  | act_click imageId =>
      if includes imageId allIds then
        match toggleImage allowSharedImages (page_active page) imageId
                          (page_mapping page) with
        | Ok next =>
            Some {| page_mapping := next; page_active := page_active page |}
        | TypeError => None
        end
      else None
  | act_select_all =>
      Some {| page_mapping :=
                selectAll allowSharedImages (page_active page) allIds
                          (page_mapping page);
              page_active := page_active page |}
  | act_reset =>
      Some {| page_mapping := plain []; page_active := page_active page |}
  | act_change_option =>
      Some {| page_mapping := plain []; page_active := None |}
  | act_reload loaded =>
      Some {| page_mapping := plain loaded; page_active := None |}
  end.

Fixpoint run (allowSharedImages : bool) (allIds : list string)
    (page : Page) (actions : list Action) : option Page :=
  match actions with
  | [] => Some page
  | a :: rest =>
      match act allowSharedImages allIds page a with
      | Some next => run allowSharedImages allIds next rest
      | None => None
      end
  end.

End AssignImages.

(* ===================================================================== *)
(** ** The storefront filter script *)
(* ===================================================================== *)

Module Storefront.

(** *** Filename identity *)

(** [\d*] *)
Fixpoint skip_digits (s : string) : string :=
  match s with
  | String c r => if is_digit c then skip_digits r else s
  | EmptyString => s
  end.

(** [[^.]+] up to the end of the input. *)
Fixpoint no_dot (s : string) : bool :=
  match s with
  | EmptyString => true
  | String c r => negb (Ascii.eqb c "."%char) && no_dot r
  end.

(** Does the whole of [s] match [_\d*x\d*\.([^.]+)]?  The answer carries
    the captured extension. *)
Definition match_size_suffix (s : string) : option string :=
  match s with
  | String "_"%char r =>
      match skip_digits r with
      | String "x"%char r2 =>
          match skip_digits r2 with
          | String "."%char ext =>
              if negb (String.eqb ext "") && no_dot ext then Some ext
              else None
          | _ => None
          end
      | _ => None
      end
  | _ => None
  end.

(** [name.replace(/_\d*x\d*\.([^.]+)$/, ".$1")]: the leftmost position from
    which the pattern matches up to the end is rewritten. *)
Fixpoint replace_size_suffix (name : string) : string :=
  match match_size_suffix name with
  | Some ext => String "."%char ext
  | None =>
      match name with
      | EmptyString => ""
      | String c r => String c (replace_size_suffix r)
      end
  end.

Definition baseFilename (url : string) : string :=
  if String.eqb url "" then ""
  else
    let path := split_first "?"%char url in
    let name := split_pop "/"%char path in
    replace_size_suffix name.

(** [baseFilename] on an arbitrary value: a truthy value that is not a
    string has no [split] method. *)
Definition baseFilename_of (url : value) : result string :=
  if negb (truthy url) then Ok ""
  else
    match url with
    | VStr s => Ok (baseFilename s)
    | _ => TypeError
    end.

(** *** The page *)

Record Img : Type := mkImg {
  attr_src : option string;
  currentSrc : string
}.

Record Element : Type := mkElement {
  img : option Img;
  inner_control : option nat;
  style_display : option string;
  aria_hidden : option string;
  classList : list string
}.

(** The document: a store of elements addressed by node, the answer of
    [querySelectorAll] for each selector (in document order), and the clicks
    the script has dispatched (what the theme does on a click is its own
    business).  None of the selectors the script uses reads what
    [setVisible] writes, so the answers do not change during a pass. *)
Record Document : Type := mkDocument {
  nodes : nat -> Element;
  querySelectorAll : string -> list nat;
  clicks : list nat
}.

Definition GALLERY_SELECTORS : list string :=
  [".product__media-list .product__media-item";
   ".product__media-list > li";
   ".product-single__photos .product-single__photo-wrapper";
   ".slideshow__slide";
   ".product-photos .product-photo-container";
   "[data-media-id]";
   ".product-gallery li";
   ".product-images li"].

Definition THUMBNAIL_SELECTORS : list string :=
  [".thumbnail-list .thumbnail-list__item";
   ".product__media-list--thumbnail-preview li";
   ".product-thumbnails li";
   ".product-single__thumbnails li"].

Fixpoint first_nonempty (doc : Document) (selectors : list string)
    : list nat :=
  match selectors with
  | [] => []
  | sel :: rest =>
      match querySelectorAll doc sel with
      | [] => first_nonempty doc rest
      | items => items
      end
  end.

Definition findGalleryItems (doc : Document) : list nat :=
  first_nonempty doc GALLERY_SELECTORS.

Definition findThumbItems (doc : Document) : list nat :=
  flat_map (querySelectorAll doc) THUMBNAIL_SELECTORS.

(** [img.getAttribute("src") || img.currentSrc || ""] *)
Definition getImgSrc (el : Element) : string :=
  match img el with
  | Some i =>
      match attr_src i with
      | Some s => if String.eqb s "" then currentSrc i else s
      | None => currentSrc i
      end
  | None => ""
  end.

Definition hidden_class : string := "vi--hidden".

Definition show (el : Element) : Element :=
  {| img := img el;
     inner_control := inner_control el;
     style_display := None;
     aria_hidden := None;
     classList :=
       filter (fun c => negb (String.eqb c hidden_class)) (classList el) |}.

Definition hide (el : Element) : Element :=
  {| img := img el;
     inner_control := inner_control el;
     style_display := Some "none";
     aria_hidden := Some "true";
     classList :=
       if includes hidden_class (classList el) then classList el
       else classList el ++ [hidden_class] |}.

Definition update (n : nat) (e : Element) (store : nat -> Element)
    : nat -> Element :=
  fun m => if Nat.eqb m n then e else store m.

Definition setVisible (el : nat) (visible : bool) (doc : Document)
    : Document :=
  {| nodes :=
       update el (if visible then show (nodes doc el) else hide (nodes doc el))
              (nodes doc);
     querySelectorAll := querySelectorAll doc;
     clicks := clicks doc |}.

Definition click (el : nat) (doc : Document) : Document :=
  {| nodes := nodes doc;
     querySelectorAll := querySelectorAll doc;
     clicks := clicks doc ++ [el] |}.

Definition showNone (doc : Document) : Document :=
  let doc1 :=
    fold_left (fun d el => setVisible el false d) (findGalleryItems doc) doc in
  fold_left (fun d el => setVisible el false d) (findThumbItems doc1) doc1.

Definition activateFirstVisible (firstVisible : nat) (doc : Document)
    : Document :=
  match querySelectorAll doc ".product__media-item[aria-current='true']" with
  | selectedAttrItem :: _ =>
      if includes hidden_class (classList (nodes doc selectedAttrItem)) then
        let doc1 := click firstVisible doc in
        match inner_control (nodes doc1 firstVisible) with
        | Some control => click control doc1
        | None => doc1
        end
      else doc
  | [] => doc
  end.

(** *** Generic reads on the embedded configuration *)

Definition chars_of (s : string) : list value :=
  map (fun c => VStr (char_string c)) (list_ascii_of_string s).

Definition index_keys (n : nat) : list string :=
  map (fun i => string_of_Z (Z.of_nat i)) (seq 0 n).

(** [Object.entries(v)] for a [v] that is neither null nor undefined. *)
Definition Object_entries (v : value) : list (string * value) :=
  match v with
  | VObj o => o
  | VArr items => combine (index_keys (List.length items)) items
  | VStr s => combine (index_keys (String.length s)) (chars_of s)
  | _ => []
  end.

Definition Object_values (v : value) : list value :=
  map snd (Object_entries v).

(** [l.flat()] *)
Definition flat (l : list value) : list value :=
  flat_map (fun v => match v with VArr items => items | _ => [v] end) l.

(** The elements [new Set(v)] is filled with; a truthy value that is not
    iterable makes the constructor throw. *)
Definition iterate (v : value) : result (list value) :=
  match v with
  | VArr items => Ok items
  | VStr s => Ok (chars_of s)
  | VUndefined | VNull => Ok []
  | _ => TypeError
  end.

(** [new Set(x)] for what a computed read found: a built-in is not
    iterable. *)
Definition iterate_found (x : found value) : result (list value) :=
  match x with
  | Found v => iterate v
  | Builtin => TypeError
  | Nothing => Ok []
  end.

(** [set.has(x)] for a string [x]. *)
Definition has_string (x : string) (set : list value) : bool :=
  existsb (fun v => strict_eq v (VStr x)) set.

(** [l.indexOf(x)], counting from [i]. *)
Fixpoint indexOf_from (x : value) (l : list value) (i : nat) : option nat :=
  match l with
  | [] => None
  | y :: r => if strict_eq y x then Some i else indexOf_from x r (S i)
  end.

Definition indexOf (x : value) (l : list value) : option nat :=
  indexOf_from x l 0.

(** *** The variables the script's functions close over *)

Record Env : Type := mkEnv {
  mappingMode : string;
  mappedOptionName : value;
  mappingTable : value;
  optionNames : value;
  variantOptions : value;
  initialVariantId : value;
  hideUnassignedImages : value;
  filenameToId : obj string
}.

(** The key the table is read with.  [variantOptions?.[variantKey]] is a
    computed read too, but what it can find on the prototype chain (a
    function, a prototype object) has no element [optionIndex], so that
    the key is [__unknown__] then, as it is when the read finds nothing. *)
Definition resolveMappingKey (env : Env) (variantKey : string) : value :=
  match optionNames env with
  | VArr names =>
      if String.eqb (mappingMode env) "option"
         && truthy (mappedOptionName env)
      then
        match indexOf (mappedOptionName env) names with
        | Some optionIndex =>
            let selectedOptionsForVariant :=
              get_opt (variantOptions env) variantKey in
            let selected :=
              get_opt selectedOptionsForVariant
                      (string_of_Z (Z.of_nat optionIndex)) in
            if truthy selected then selected else VStr "__unknown__"
        | None => VStr variantKey
        end
      else VStr variantKey
  | _ => VStr variantKey
  end.

(** [filenameToId[filename]].  The table is filled by assignments of
    texts, which never give it a property [__proto__] of its own: that name
    reads the prototype, like every other member of [Object.prototype]
    that the table does not shadow. *)
Definition imgId_of (env : Env) (filename : string) : found string :=
  if String.eqb filename "__proto__" then Builtin
  else lookup filename (filenameToId env).

(** The visibility decision for one gallery item or thumbnail.  A built-in
    found for the file name is truthy and a member of no set, the sets
    being filled from the payload. *)
Definition isVisible (env : Env) (allowedSet allAssignedImageIds : list value)
    (el : Element) : bool :=
  let src := getImgSrc el in
  let filename := baseFilename src in
  match imgId_of env filename with
  | Found imgId =>
      let known := negb (String.eqb imgId "") in
      if known && has_string imgId allowedSet then true
      else known
           && negb (truthy (hideUnassignedImages env))
           && negb (has_string imgId allAssignedImageIds)
  | Builtin => negb (truthy (hideUnassignedImages env))
  | Nothing => false
  end.

Definition filter_items (env : Env) (allowedSet allAssignedImageIds : list value)
    (acc : Document * option nat) (item : nat) : Document * option nat :=
  let (doc, firstVisible) := acc in
  let visible := isVisible env allowedSet allAssignedImageIds (nodes doc item) in
  (setVisible item visible doc,
   match firstVisible with
   | Some _ => firstVisible
   | None => if visible then Some item else None
   end).

Definition filter_thumbs (env : Env) (allowedSet allAssignedImageIds : list value)
    (doc : Document) (thumb : nat) : Document :=
  setVisible thumb
    (isVisible env allowedSet allAssignedImageIds (nodes doc thumb)) doc.

(** One recomputation pass.  Whatever can throw does so before the first
    element is touched, so [TypeError] leaves the document as it was.
    [mappingTable] is an object or an array (the script leaves otherwise),
    and [mappingTable[mappingKey]] reads its prototype chain too. *)
Definition filterGallery (env : Env) (variantId : string) (doc : Document)
    : result Document :=
  if String.eqb variantId "" then Ok doc
  else
    let variantKey := variantId in
    let mappingKey := resolveMappingKey env variantKey in
    allowedIds <- get_computed (mappingTable env) (ToString mappingKey) ;;
    let allAssignedImageIds := flat (Object_values (mappingTable env)) in
    if negb (found_truthy allowedIds) then Ok (showNone doc)
    else
      allowedSet <- iterate_found allowedIds ;;
      match findGalleryItems doc with
      | [] => Ok doc
      | galleryItems =>
          let (doc1, firstVisible) :=
            fold_left (filter_items env allowedSet allAssignedImageIds)
                      galleryItems (doc, None) in
          let doc2 :=
            fold_left (filter_thumbs env allowedSet allAssignedImageIds)
                      (findThumbItems doc1) doc1 in
          Ok (match firstVisible with
              | Some first => activateFirstVisible first doc2
              | None => doc2
              end)
      end.

(** *** The script itself *)

Inductive Handler : Type :=
| h_init
| h_variant_changed
| h_idInput_observer
| h_idInput_change
| h_body_observer
| h_popstate
| h_section_load.

Inductive Registration : Type :=
| Listener (event : string) (handler : Handler)
| Observer (target : string) (handler : Handler)
| Timeout (handler : Handler) (delay : nat).

Record Window : Type := mkWindow {
  initialized : bool;
  dataEl : option string;
  readyState_loading : bool;
  document : Document;
  registrations : list Registration;
  url_variant : option string;
  cart_form_id : option string;
  analytics_variant : value;
  id_input : option string;
  location_href : string
}.

Definition set_initialized (w : Window) : Window :=
  {| initialized := true;
     dataEl := dataEl w;
     readyState_loading := readyState_loading w;
     document := document w;
     registrations := registrations w;
     url_variant := url_variant w;
     cart_form_id := cart_form_id w;
     analytics_variant := analytics_variant w;
     id_input := id_input w;
     location_href := location_href w |}.

Definition register (r : Registration) (w : Window) : Window :=
  {| initialized := initialized w;
     dataEl := dataEl w;
     readyState_loading := readyState_loading w;
     document := document w;
     registrations := registrations w ++ [r];
     url_variant := url_variant w;
     cart_form_id := cart_form_id w;
     analytics_variant := analytics_variant w;
     id_input := id_input w;
     location_href := location_href w |}.

Definition with_document (doc : Document) (w : Window) : Window :=
  {| initialized := initialized w;
     dataEl := dataEl w;
     readyState_loading := readyState_loading w;
     document := doc;
     registrations := registrations w;
     url_variant := url_variant w;
     cart_form_id := cart_form_id w;
     analytics_variant := analytics_variant w;
     id_input := id_input w;
     location_href := location_href w |}.

(** How a run of the script's top level ends. *)
Inductive Boot : Type :=
| Exited
| Threw
| Booted (env : Env).

Definition is_string (v : value) : bool :=
  match v with
  | VStr _ => true
  | _ => false
  end.

(** [filenameToId[baseFilename(src)] = imgNumId] over the image table.  An
    assignment of a text to [__proto__] is without effect: the entry the
    result has for that file name is one the script's table does not have,
    and [imgId_of] reads past it. *)
Fixpoint build_filenameToId (entries : list (string * value))
    (table : obj string) : result (obj string) :=
  match entries with
  | [] => Ok table
  | (imgNumId, src) :: rest =>
      filename <- baseFilename_of src ;;
      build_filenameToId rest (obj_set filename imgNumId table)
  end.

Section Script.

Variable JSON_parse : string -> option value.

Definition boot (w : Window) : Window :=
  if readyState_loading w
  then register (Listener "DOMContentLoaded" h_init) w
  else register (Timeout h_init 50) w.

(** The body of the script up to the point where it schedules [init]. *)
Definition script (w : Window) : Window * Boot :=
  if initialized w then (w, Exited)
  else
    let w := set_initialized w in
    match dataEl w with
    | None => (w, Exited)
    | Some textContent =>
        match JSON_parse textContent with
        | None => (w, Exited)
        | Some config =>
            if nullish config then (w, Threw)
            else
              let mapping := prop config "mapping" in
              let imageUrls := prop config "imageUrls" in
              let settings := prop config "settings" in
              if negb (truthy mapping) || negb (truthy imageUrls)
              then (w, Exited)
              else
                let parsed_mapping :=
                  match mapping with
                  | VStr text => JSON_parse text
                  | _ => Some mapping
                  end in
                match parsed_mapping with
                | None => (w, Exited)
                | Some mapping =>
                    let settings :=
                      match settings with
                      | VStr text =>
                          match JSON_parse text with
                          | Some parsed => parsed
                          | None => VNull
                          end
                      | _ => settings
                      end in
                    let enabled :=
                      coalesce (get_opt settings "enabled") (VBool true) in
                    let hideUnassigned :=
                      coalesce (get_opt settings "hideUnassignedImages")
                               (VBool false) in
                    if negb (truthy enabled) then (w, Exited)
                    else
                      let optionMode :=
                        truthy mapping && typeof_object mapping
                        && strict_eq (prop mapping "mode") (VStr "option") in
                      let mappingMode :=
                        if optionMode then "option" else "variant" in
                      let mappedOptionName :=
                        if optionMode then
                          if truthy (prop mapping "optionName")
                          then prop mapping "optionName" else VNull
                        else VNull in
                      let mappingTable :=
                        if optionMode then
                          if truthy (prop mapping "mapping")
                          then prop mapping "mapping" else VObj []
                        else mapping in
                      if negb (truthy mappingTable)
                         || negb (typeof_object mappingTable)
                      then (w, Exited)
                      else
                        match build_filenameToId (Object_entries imageUrls) []
                        with
                        | TypeError => (w, Threw)
                        | Ok table =>
                            (boot w,
                             Booted
                               {| mappingMode := mappingMode;
                                  mappedOptionName := mappedOptionName;
                                  mappingTable := mappingTable;
                                  optionNames := prop config "optionNames";
                                  variantOptions := prop config "variantOptions";
                                  initialVariantId :=
                                    prop config "initialVariantId";
                                  hideUnassignedImages := hideUnassigned;
                                  filenameToId := table |})
                        end
                end
        end
    end.

End Script.

(** *** Variant change detection *)

(** [null] is [None]. *)
Definition getCurrentVariantId (w : Window) : option string :=
  let from_analytics :=
    if truthy (analytics_variant w)
    then Some (ToString (analytics_variant w)) else None in
  let from_form :=
    match cart_form_id w with
    | Some v => if String.eqb v "" then from_analytics else Some v
    | None => from_analytics
    end in
  match url_variant w with
  | Some param => if String.eqb param "" then from_form else Some param
  | None => from_form
  end.

Record ScriptState : Type := mkState {
  lastVariantId : option string;
  lastUrl : string
}.

Definition handleVariantChange (env : Env) (variantId : string)
    (st : ScriptState) (doc : Document) : ScriptState * result Document :=
  if String.eqb variantId "" then (st, Ok doc)
  else
    match lastVariantId st with
    | Some last =>
        if String.eqb variantId last then (st, Ok doc)
        else ({| lastVariantId := Some variantId; lastUrl := lastUrl st |},
              filterGallery env variantId doc)
    | None =>
        ({| lastVariantId := Some variantId; lastUrl := lastUrl st |},
         filterGallery env variantId doc)
    end.

(** [init]: the initial pass, then the listeners.  A pass that throws does
    so before it touches the document, and [init] stops there. *)
Definition init (env : Env) (w : Window) : result (ScriptState * Window) :=
  let initial :=
    if truthy (initialVariantId env)
    then Some (ToString (initialVariantId env))
    else getCurrentVariantId w in
  let st0 := {| lastVariantId := None; lastUrl := location_href w |} in
  let (st, outcome) :=
    match initial with
    | Some variantId => handleVariantChange env variantId st0 (document w)
    | None => (st0, Ok (document w))
    end in
  doc <- outcome ;;
  let w1 := register (Listener "variant:changed" h_variant_changed)
                     (with_document doc w) in
  let w2 :=
    match id_input w1 with
    | Some _ =>
        register (Listener "change" h_idInput_change)
                 (register (Observer "input[name=id]" h_idInput_observer) w1)
    | None => w1
    end in
  Ok (st,
      register (Listener "shopify:section:load" h_section_load)
        (register (Listener "popstate" h_popstate)
           (register (Observer "body" h_body_observer) w2))).

Inductive Event : Type :=
| ev_variant_changed (detail : value)
| ev_idInput
| ev_body_mutation
| ev_popstate
| ev_section_load.

(** A handler that throws keeps what it had written until then. *)
Definition settle (r : ScriptState * result Document) (w : Window)
    : ScriptState * Window :=
  match snd r with
  | Ok doc => (fst r, with_document doc w)
  | TypeError => (fst r, w)
  end.

Definition handle (env : Env) (ev : Event) (st : ScriptState) (w : Window)
    : ScriptState * Window :=
  match ev with
  | ev_variant_changed detail =>
      let variant_id := get_opt (get_opt detail "variant") "id" in
      if truthy variant_id
      then settle (handleVariantChange env (ToString variant_id) st
                                       (document w)) w
      else (st, w)
  | ev_idInput =>
      match id_input w with
      | Some v => settle (handleVariantChange env v st (document w)) w
      | None => (st, w)
      end
  | ev_body_mutation =>
      if String.eqb (location_href w) (lastUrl st) then (st, w)
      else
        let st1 := {| lastVariantId := lastVariantId st;
                      lastUrl := location_href w |} in
        match getCurrentVariantId w with
        | Some vid => settle (handleVariantChange env vid st1 (document w)) w
        | None => (st1, w)
        end
  | ev_popstate =>
      match getCurrentVariantId w with
      | Some vid => settle (handleVariantChange env vid st (document w)) w
      | None => (st, w)
      end
  | ev_section_load =>
      match getCurrentVariantId w with
      | Some vid => settle (st, filterGallery env vid (document w)) w
      | None => (st, w)
      end
  end.

End Storefront.

(* ===================================================================== *)
(** ** Vocabulary of the statements *)
(* ===================================================================== *)

Module Props.

Import Storefront.

(** What every entry of a normalised option mapping satisfies, for the
    identifier normalisation [toNumericId]. *)
Definition entry_ok (toNumericId : value -> string) (vals imgs : list string)
    (e : string * list string) : Prop :=
  fst e <> ""
  /\ (vals <> [] -> In (fst e) vals)
  /\ snd e <> []
  /\ NoDup (snd e)
  /\ forall i, In i (snd e) ->
       i <> "" /\ (imgs <> [] -> exists g, In g imgs /\ toNumericId (VStr g) = i).

(** Keys in property order: no key comes before one listed ahead of it. *)
Fixpoint ordered (keys : list string) : Prop :=
  match keys with
  | [] => True
  | k :: rest =>
      (forall k', In k' rest -> key_before k' k = false) /\ ordered rest
  end.

(** An entry that the option-mapping normaliser, with the sets [vset] of
    valid values and [iset] of valid images, hands back unchanged. *)
Definition stable_entry (toNumericId : value -> string)
    (vset iset : option (list string)) (e : string * list string) : Prop :=
  Server.nonempty (fst e) = true
  /\ Server.allowed_by vset (fst e) = true
  /\ snd e <> []
  /\ NoDup (snd e)
  /\ forall i, In i (snd e) ->
       Server.nonempty i = true
       /\ Server.allowed_by iset i = true
       /\ toNumericId (VStr i) = i.

(** An entry of the filtered legacy map: a non-empty list of identifiers
    that the filter hands back unchanged. *)
Definition legacy_ok (toNumericId : value -> string)
    (iset : option (list string)) (e : string * list string) : Prop :=
  snd e <> []
  /\ forall i, In i (snd e) ->
       Server.nonempty i = true
       /\ Server.allowed_by iset i = true
       /\ toNumericId (VStr i) = i.

(** Every variant's value of the first option is a declared value of that
    option (or the option declares none). *)
Definition consistent_product (options : list Server.ProductOption)
    (variants : list Server.Variant) : Prop :=
  forall variant selected,
    In variant variants ->
    find (fun opt =>
            String.eqb (Server.so_name opt) (Server.fallbackOptionName options))
         (Server.selectedOptions variant) = Some selected ->
    Server.allowed_by
      (Server.validValueSet
         (Server.optionValuesOf options (Server.fallbackOptionName options)))
      (Server.so_value selected) = true.

(** The character [c] does not occur in [s]. *)
Fixpoint no_char (c : ascii) (s : string) : bool :=
  match s with
  | EmptyString => true
  | String a r => negb (Ascii.eqb a c) && no_char c r
  end.

Fixpoint all_digits (s : string) : bool :=
  match s with
  | EmptyString => true
  | String a r => is_digit a && all_digits r
  end.

(** An element as [setVisible(el, false)] leaves it. *)
Definition is_hidden (el : Element) : Prop :=
  style_display el = Some "none"
  /\ aria_hidden el = Some "true"
  /\ In hidden_class (classList el).

(** An element as [setVisible(el, true)] leaves it. *)
Definition is_shown (el : Element) : Prop :=
  style_display el = None
  /\ aria_hidden el = None
  /\ ~ In hidden_class (classList el).

(** The embedded settings, an object or the text of one, carry
    [enabled: false]. *)
Definition settings_disabled (JSON_parse : string -> option value)
    (config : value) : Prop :=
  exists settings,
    (prop config "settings" = VObj settings
     \/ exists text, prop config "settings" = VStr text
                     /\ JSON_parse text = Some (VObj settings))
    /\ obj_get "enabled" settings = Some (VBool false).

(** No identifier is in the lists of two distinct entries. *)
Definition unshared (m : obj (list string)) : Prop :=
  forall k1 k2 l1 l2 x,
    k1 <> k2 -> obj_get k1 m = Some l1 -> obj_get k2 m = Some l2 ->
    In x l1 -> ~ In x l2.

(** No image identifier is listed under two distinct option values: the
    lists are what the state answers with, its own entries and, for
    [__proto__], an array that has become its prototype. *)
Definition exclusive (mapping : AssignImages.MappingState) : Prop :=
  forall k1 k2 l1 l2 x,
    k1 <> k2 ->
    AssignImages.read k1 mapping = AssignImages.Identifiers l1 ->
    AssignImages.read k2 mapping = AssignImages.Identifiers l2 ->
    In x l1 -> ~ In x l2.

(** What holds of the mapping state of a page on display: with images, it
    has the prototype it was made with and no entry [__proto__], and the
    active value is not [__proto__]; without, its prototype is at most
    replaced by the empty list. *)
Definition well_kept (allIds : list string) (page : AssignImages.Page)
    : Prop :=
  let mapping := AssignImages.page_mapping page in
  (allIds <> [] ->
   AssignImages.prototype mapping = None
   /\ obj_get "__proto__" (AssignImages.entries mapping) = None
   /\ AssignImages.page_active page <> Some "__proto__")
  /\ (allIds = [] ->
      AssignImages.prototype mapping = None
      \/ AssignImages.prototype mapping = Some []).

(** The list a click works on: what it spreads [prev[active] ?? []] into,
    when it gets that far. *)
Definition current_list (imageId : string) (r : AssignImages.reading)
    : option (list string) :=
  match r with
  | AssignImages.Identifiers l => Some l
  | AssignImages.Undefined => Some []
  | AssignImages.Text s =>
      if str_includes imageId s then None else Some (chars s)
  | AssignImages.NoArray => None
  end.

(** The name [k] reads a built-in on an object with the entries [o]: it
    names a member of [Object.prototype] and [o] has no entry for it. *)
Definition reads_builtin {A} (k : string) (o : obj A) : Prop :=
  includes k Object_prototype = true /\ obj_get k o = None.

(** What a round of the migration loop that does not throw leaves. *)
Definition merged (byVariant : obj (option string))
    (optionMap : obj (list string)) (entry : string * list string)
    : obj (list string) :=
  let (variantId, imageList) := entry in
  match Map_get variantId byVariant with
  | Some (Some optionValue) =>
      if negb (Server.nonempty optionValue) then optionMap
      else
        obj_set optionValue
                (Set_of (get_or_empty optionValue optionMap ++ imageList))
                optionMap
  | _ => optionMap
  end.

(** The entries a tile click that does not throw leaves, for a non-empty
    active value that stands for the list [current]. *)
Definition toggled (allowSharedImages : bool) (active imageId : string)
    (current : list string) (prev : obj (list string)) : obj (list string) :=
  let isSelected := includes imageId current in
  let nextValueImages :=
    if isSelected then AssignImages.without imageId current
    else current ++ [imageId] in
  let next := obj_set active nextValueImages prev in
  if negb allowSharedImages && negb isSelected then
    fold_left
      (fun next key =>
         if String.eqb key active then next
         else obj_set key
                (AssignImages.without imageId (get_or_empty key next)) next)
      (obj_keys next) next
  else next.

End Props.

(* ===================================================================== *)
(** ** Sample products and pages *)
(* ===================================================================== *)

Module Samples.

Import Server.

(** A parser that knows the literal texts only. *)
Definition parse_literal (text : string) : option value :=
  if String.eqb text "null" then Some VNull
  else if String.eqb text "true" then Some (VBool true)
  else if String.eqb text "false" then Some (VBool false)
  else None.

(** Persisted legacy value [{"1111":["2222"]}]. *)
Definition legacy_raw : value := VObj [("1111", VArr [VStr "2222"])].

Definition color_options : list ProductOption :=
  [mkOption "Color" ["Black"; "Red"]].

Definition one_black_variant : list Variant :=
  [mkVariant "1111" [mkSelected "Color" "Black"]].

(** Two variants of the same colour, each with its own legacy image. *)
Definition two_black_variants : list Variant :=
  [mkVariant "gid://shopify/ProductVariant/1"
             [mkSelected "Color" "Black"; mkSelected "Size" "S"];
   mkVariant "gid://shopify/ProductVariant/2"
             [mkSelected "Color" "Black"; mkSelected "Size" "M"]].

Definition two_black_raw : value :=
  VObj [("1", VArr [VStr "10"]); ("2", VArr [VStr "20"])].

Definition two_images : list string :=
  ["gid://shopify/ProductImage/10"; "gid://shopify/ProductImage/20"].

(** A product whose first option has a value spelled [mapping]. *)
Definition layer_options : list ProductOption :=
  [mkOption "Layer" ["mapping"; "overlay"]].

Definition one_mapping_variant : list Variant :=
  [mkVariant "1111" [mkSelected "Layer" "mapping"]].

(** A page with two gallery items and one thumbnail: node 0 shows image 1
    (mapped to Black), node 1 shows image 9 (mapped to nothing), node 2 is
    the thumbnail of image 9. *)
Definition plain_element (src : string) : Storefront.Element :=
  {| Storefront.img :=
       Some {| Storefront.attr_src := Some src; Storefront.currentSrc := "" |};
     Storefront.inner_control := None;
     Storefront.style_display := None;
     Storefront.aria_hidden := None;
     Storefront.classList := ["product__media-item"] |}.

Definition gallery_page : Storefront.Document :=
  {| Storefront.nodes := fun n =>
       match n with
       | 0 => plain_element "https://cdn.example/files/shirt_800x.jpg?v=1"
       | 1 => plain_element "https://cdn.example/files/banner_800x.jpg?v=1"
       | _ => plain_element "https://cdn.example/files/banner_80x80.jpg"
       end;
     Storefront.querySelectorAll := fun sel =>
       if String.eqb sel ".product__media-list .product__media-item"
       then [0; 1]
       else if String.eqb sel ".thumbnail-list .thumbnail-list__item"
       then [2]
       else [];
     Storefront.clicks := [] |}.

(** The same elements on a theme whose gallery none of the selectors
    recognises: only the thumbnail strip is found. *)
Definition thumbnails_only_page : Storefront.Document :=
  {| Storefront.nodes := Storefront.nodes gallery_page;
     Storefront.querySelectorAll := fun sel =>
       if String.eqb sel ".thumbnail-list .thumbnail-list__item"
       then [2]
       else [];
     Storefront.clicks := [] |}.

(** Colour is the mapped option; variant 41 is Black, variant 42 is Red, and
    only Black has images. *)
Definition color_env : Storefront.Env :=
  {| Storefront.mappingMode := "option";
     Storefront.mappedOptionName := VStr "Color";
     Storefront.mappingTable := value_of_table [("Black", ["1"])];
     Storefront.optionNames := VArr [VStr "Color"];
     Storefront.variantOptions :=
       VObj [("41", VArr [VStr "Black"]); ("42", VArr [VStr "Red"])];
     Storefront.initialVariantId := VStr "41";
     Storefront.hideUnassignedImages := VBool false;
     Storefront.filenameToId := [("shirt.jpg", "1"); ("banner.jpg", "9")] |}.

(** The bootstrap payload of a shop that switched the filter off. *)
Definition disabled_config : value :=
  VObj [("mapping",
         VObj [("mode", VStr "option"); ("optionName", VStr "Color");
               ("mapping", value_of_table [("Black", ["1"])])]);
        ("imageUrls",
         VObj [("1", VStr "https://cdn.example/files/shirt.jpg")]);
        ("initialVariantId", VStr "41");
        ("settings",
         VObj [("enabled", VBool false);
               ("allowSharedImages", VBool true);
               ("hideUnassignedImages", VBool false)]);
        ("optionNames", VArr [VStr "Color"]);
        ("variantOptions", VObj [("41", VArr [VStr "Black"])])].

Definition fresh_window : Storefront.Window :=
  {| Storefront.initialized := false;
     Storefront.dataEl := Some "payload";
     Storefront.readyState_loading := false;
     Storefront.document := gallery_page;
     Storefront.registrations := [];
     Storefront.url_variant := None;
     Storefront.cart_form_id := Some "41";
     Storefront.analytics_variant := VUndefined;
     Storefront.id_input := Some "41";
     Storefront.location_href := "https://shop.example/products/shirt" |}.

(** A parser that knows one payload. *)
Definition parse_payload (config : value) (text : string) : option value :=
  if String.eqb text "payload" then Some config else None.

End Samples.

(* ===================================================================== *)
(** ** The routes: what is loaded, saved and summarised *)
(* ===================================================================== *)

Module Routes.

Import Server.

Record Image : Type := mkImage {
  image_id : string;
  image_url : string
}.

(** A product as the catalog returns it; [metafield_value] is
    [product.metafield?.value]. *)
Record Product : Type := mkProduct {
  product_id : string;
  product_options : list ProductOption;
  product_images : list Image;
  product_variants : list Variant;
  metafield_value : value
}.

(** What an action answers; [Saved] carries the value handed to
    [saveProductMapping], [Threw] is an exception that leaves the action. *)
Inductive Response : Type :=
| BadRequest (error : string)
| NotFound (error : string)
| Threw
| Saved (saved : ProductMapping).

(** How a handler that calls the Admin API ends. *)
Inductive ending (A : Type) : Type :=
| Done (a : A)
| Throws.
Arguments Done {A} a.
Arguments Throws {A}.

Record Summary : Type := mkSummary {
  mediaCount : nat;
  variantsCount : nat;
  configuredVariants : nat;
  assignedImagesCount : nat;
  isConfigured : bool
}.

(** [new Set(l).size] for arbitrary values: primitives are compared by
    value, objects by identity. *)
Definition Set_add_value (s : list value) (x : value) : list value :=
  if existsb (fun y => strict_eq y x) s then s else s ++ [x].

Definition Set_of_values (l : list value) : list value :=
  fold_left Set_add_value l [].

Section Routes.

Variable JSON_parse : string -> option value.
Variable toNumericId : value -> string.

(** The mapping fields of what [getProductForAssignment] returns for a
    product the catalog knows. *)
Definition getProductForAssignment (product : Product)
    : result ProductMapping :=
  normalizeProductMapping JSON_parse toNumericId
    (metafield_value product) (product_options product)
    (product_variants product) (map image_id (product_images product)).

(** [typeof optionName === "string" && options.some(...) ? optionName
     : options[0]?.name]; [None] is [undefined]. *)
Definition resolveOptionName (optionName : option string)
    (options : list ProductOption) : option string :=
  let first := option_map name (hd_error options) in
  match optionName with
  | Some n =>
      if existsb (fun opt => String.eqb (name opt) n) options
      then Some n else first
  | None => first
  end.

(** The action of the assign-images route.  The form fields are strings or
    [null]; [fetch] is the catalog lookup behind [getProductForAssignment],
    which normalises the stored mapping of the product it finds and throws
    when that throws. *)
Definition assign_action (fetch : string -> option Product)
    (intent productId optionName rawMapping : option string) : Response :=
  match productId with
  | None => BadRequest "Missing product id"
  | Some pid =>
      if String.eqb pid "" then BadRequest "Missing product id"
      else
        match fetch pid with
        | None => NotFound "Product not found"
        | Some product =>
            match getProductForAssignment product with
            | TypeError => Threw
            | Ok _ =>
                match resolveOptionName optionName (product_options product)
                with
                | None => BadRequest "Product has no options"
                | Some resolvedOptionName =>
                    if String.eqb resolvedOptionName ""
                    then BadRequest "Product has no options"
                    else
                      let optionValues :=
                        optionValuesOf (product_options product)
                                       resolvedOptionName in
                      let is_reset :=
                        match intent with
                        | Some i => String.eqb i "reset"
                        | None => false
                        end in
                      let mapping :=
                        if is_reset then []
                        else normalizeOptionMapping JSON_parse toNumericId
                               (match rawMapping with
                                | Some text => VStr text
                                | None => VNull
                                end)
                               optionValues
                               (map image_id (product_images product)) in
                      Saved {| mode := "option";
                               optionName := resolvedOptionName;
                               mapping := mapping |}
                end
            end
        end
  end.

(** [formData.get(field) === "true"] *)
Definition is_true_field (field : option string) : bool :=
  match field with
  | Some text => String.eqb text "true"
  | None => false
  end.

(** [saveShopSettings].  [metafieldsSet] is the mutation as the function
    meets it: for the sanitised settings it is handed (which it stores as
    JSON text) it answers the [userErrors] of the response, or [None] when
    [adminGraphql] throws or the response carries no data. *)
Definition saveShopSettings (metafieldsSet : Settings -> option (list string))
    (settings : value) : ending Settings :=
  match normalizeSettings JSON_parse settings with
  | TypeError => Throws
  | Ok sanitized =>
      match metafieldsSet sanitized with
      | Some [] => Done sanitized
      | Some (_ :: _) => Throws
      | None => Throws
      end
  end.

(** The action of the settings route.  [authenticated] is false when
    [authenticate.admin] or [request.formData] throws; [shop] is the shop
    identifier [getShopSettings] answers, [None] when its first query
    throws ([getShopSettings] catches what its second query throws);
    [metafieldsSet] takes the owner first. *)
Definition settings_action (authenticated : bool) (shop : option value)
    (metafieldsSet : value -> Settings -> option (list string))
    (enabled allowSharedImages hideUnassignedImages : option string)
    : ending Settings :=
  if negb authenticated then Throws
  else
    match shop with
    | None => Throws
    | Some shopId =>
        saveShopSettings (metafieldsSet shopId)
          (VObj [("enabled", VBool (is_true_field enabled));
                 ("allowSharedImages",
                  VBool (is_true_field allowSharedImages));
                 ("hideUnassignedImages",
                  VBool (is_true_field hideUnassignedImages))])
    end.

(** The counters of [summarizeProduct]. *)
Definition summarizeProduct (metafield : value) (images : list Image)
    (variants : list Variant) : Summary :=
  let parsed := safeParseJson JSON_parse metafield (VObj []) in
  let mappingTable :=
    if is_option_mode parsed
    then safeParseJson JSON_parse (prop parsed "mapping") (VObj [])
    else safeParseJson JSON_parse parsed (VObj []) in
  let usable := truthy mappingTable && typeof_object mappingTable in
  let configured :=
    if usable then List.length (Storefront.Object_entries mappingTable)
    else 0 in
  let assignedImageIds :=
    Set_of_values
      (if usable
       then Storefront.flat (Storefront.Object_values mappingTable)
       else []) in
  {| mediaCount := List.length images;
     variantsCount := List.length variants;
     configuredVariants := configured;
     assignedImagesCount := List.length assignedImageIds;
     isConfigured := (0 <? configured)%nat |}.

End Routes.

(** A stored settings record, as the JSON value it is written as. *)
Definition value_of_settings (s : Settings) : value :=
  VObj [("enabled", VBool (enabled s));
        ("allowSharedImages", VBool (allowSharedImages s));
        ("hideUnassignedImages", VBool (hideUnassignedImages s))].

End Routes.

(* ===================================================================== *)
(** ** The admin block extension *)
(* ===================================================================== *)

Module AdminBlock.

Definition thumbUrl (url : string) : string :=
  if String.eqb url "" then url
  else (split_first "?"%char url ++ "?width=80&height=80&crop=center")%string.

(** [delete o[k]] *)
Fixpoint obj_delete {A} (k : string) (o : obj A) : obj A :=
  match o with
  | [] => []
  | (k', v) :: o' =>
      if String.eqb k k' then o' else (k', v) :: obj_delete k o'
  end.

(** The extension's own toggle, on its variant-keyed mapping
    [{ variantNumId: [imgNumId, ...] }]. *)
Definition toggleImage (selectedVariantNumId : option string)
    (imgNumId : string) (prev : obj (list string)) : obj (list string) :=
  match selectedVariantNumId with
  | None => prev
  | Some selected =>
      if String.eqb selected "" then prev
      else
        let current := get_or_empty selected prev in
        let updated :=
          if includes imgNumId current
          then filter (fun id => negb (String.eqb id imgNumId)) current
          else current ++ [imgNumId] in
        let next := obj_set selected updated prev in
        match obj_get selected next with
        | Some [] => obj_delete selected next
        | _ => next
        end
  end.

End AdminBlock.

(* ===================================================================== *)
(** ** Shapes of normalised data *)
(* ===================================================================== *)

Module Shapes.

Section Shapes.

Variable toNumericId : value -> string.

(** What a list of image identifiers looks like once filtered against the
    images [imgs]. *)
Definition clean_list (imgs : list string) (ids : list string) : Prop :=
  ids <> []
  /\ NoDup ids
  /\ forall i, In i ids ->
       i <> ""
       /\ (imgs <> [] -> exists g, In g imgs /\ toNumericId (VStr g) = i).

(** An entry of the filtered legacy map. *)
Definition legacy_entry (variantIds imgs : list string)
    (e : string * list string) : Prop :=
  fst e <> ""
  /\ (variantIds <> [] ->
      exists g, In g variantIds /\ toNumericId (VStr g) = fst e)
  /\ clean_list imgs (snd e).

(** An entry of a normalised product mapping. *)
Definition mapping_entry (imgs : list string) (e : string * list string)
    : Prop :=
  fst e <> "" /\ clean_list imgs (snd e).

End Shapes.

End Shapes.

(* ===================================================================== *)
(** ** What a pass decides *)
(* ===================================================================== *)

Module Decisions.

Import Storefront.

(** The element as one [setVisible] call of a pass leaves it. *)
Definition settled (env : Env) (allowedSet assigned : list value)
    (el : Element) : Element :=
  if isVisible env allowedSet assigned el then show el else hide el.

(** The elements a pass works on. *)
Definition touched (doc : Document) : list nat :=
  findGalleryItems doc ++ findThumbItems doc.

(** The element shows a known image that the selected value lists, or,
    when unassigned images are not to be hidden, that no value lists.  A
    file name that reads a member of [Object.prototype] from the filename
    table ([__proto__] always, another member's name when the table has no
    entry for it) counts as an image that no value lists. *)
Definition to_be_shown (env : Env) (table : obj (list string))
    (allowed : list string) (el : Element) : Prop :=
  let filename := baseFilename (getImgSrc el) in
  (exists imgId,
     filename <> "__proto__"
     /\ obj_get filename (filenameToId env) = Some imgId
     /\ imgId <> ""
     /\ (In imgId allowed
         \/ (truthy (hideUnassignedImages env) = false
             /\ forall key ids, In (key, ids) table -> ~ In imgId ids)))
  \/ (truthy (hideUnassignedImages env) = false
      /\ includes filename Object_prototype = true
      /\ (filename = "__proto__"
          \/ obj_get filename (filenameToId env) = None)).

(** The document the filtering branch of [filterGallery] ends with. *)
Definition filtered (env : Env) (allowedSet assigned : list value)
    (doc : Document) : Document :=
  let (doc1, firstVisible) :=
    fold_left (filter_items env allowedSet assigned)
              (findGalleryItems doc) (doc, None) in
  let doc2 :=
    fold_left (filter_thumbs env allowedSet assigned)
              (findThumbItems doc1) doc1 in
  match firstVisible with
  | Some first => activateFirstVisible first doc2
  | None => doc2
  end.

(** The key under which the script files a catalog URL. *)
Definition key_of (src : value) : string :=
  match baseFilename_of src with
  | Ok filename => filename
  | TypeError => ""
  end.

End Decisions.

(* ===================================================================== *)
(** ** The theme embed status and the dashboard *)
(* ===================================================================== *)

Module Embed.

Import Server.

Record EmbedStatus : Type := mkStatus {
  known : bool;
  enabled : bool;
  themeName : value
}.

Section Embed.

Variable JSON_parse : string -> option value.

(** The regular-expression replacement of [stripJsonComments] on a text:
    the text without its leading comment, and without the byte order mark
    and the white space around that comment. *)
Variable replace_leading_comment : string -> string.

Definition stripJsonComments (text : value) : value :=
  match text with
  | VStr s => VStr (replace_leading_comment s)
  | _ => text
  end.

(** The callback of [Object.values(blocks).some]. *)
Definition is_embed_block (block : value) : bool :=
  if negb (truthy block) || negb (typeof_object block) then false
  else if strict_eq (prop block "disabled") (VBool true) then false
  else
    let type :=
      ToString (if truthy (prop block "type") then prop block "type"
                else VStr "") in
    str_includes "/variant-images-embed/" type.

Definition isVariantImagesEmbedEnabledFromSettingsData (rawContent : value)
    : bool :=
  let cleaned := stripJsonComments rawContent in
  let parsed := safeParseJson JSON_parse cleaned VNull in
  let blocks := get_opt (get_opt parsed "current") "blocks" in
  if negb (truthy blocks) || negb (typeof_object blocks) then false
  else existsb is_embed_block (Storefront.Object_values blocks).

(** [data] is what [adminGraphql] returned, [None] when it threw. *)
Definition getThemeEmbedStatus (data : option value) : EmbedStatus :=
  match data with
  | None => {| known := false; enabled := false; themeName := VNull |}
  | Some data =>
      let mainTheme := get_opt (get_opt (get_opt data "themes") "nodes") "0" in
      let content :=
        get_opt
          (get_opt (get_opt (get_opt (get_opt mainTheme "files") "nodes") "0")
                   "body")
          "content" in
      {| known := Storefront.is_string content;
         enabled := isVariantImagesEmbedEnabledFromSettingsData content;
         themeName := coalesce (get_opt mainTheme "name") VNull |}
  end.

End Embed.

End Embed.

Module Dashboard.

Import Routes.

Record SetupStep : Type := mkStep {
  step_key : string;
  complete : bool
}.

Record Overview : Type := mkOverview {
  completedSteps : nat;
  totalSteps : nat;
  setupSteps : list SetupStep;
  configuredProducts : list Summary;
  unconfiguredProducts : list Summary
}.

(** The loader of the dashboard, from the embed status and the product
    summaries it has fetched. *)
Definition loader (embedStatus : Embed.EmbedStatus) (products : list Summary)
    : Overview :=
  let multiVariantProducts :=
    filter (fun product => (1 <? variantsCount product)%nat) products in
  let configured := filter isConfigured multiVariantProducts in
  let unconfigured :=
    filter (fun product => negb (isConfigured product)) multiVariantProducts in
  let steps :=
    [ {| step_key := "theme"; complete := Embed.enabled embedStatus |};
      {| step_key := "mapping";
         complete := (0 <? List.length configured)%nat |};
      {| step_key := "settings"; complete := true |} ] in
  {| completedSteps := List.length (filter complete steps);
     totalSteps := List.length steps;
     setupSteps := steps;
     configuredProducts := firstn 8 configured;
     unconfiguredProducts := firstn 12 unconfigured |}.

End Dashboard.

(* ===================================================================== *)
(** ** More sample data *)
(* ===================================================================== *)

Module MoreSamples.

Import Server.

(** A product with one option, two variants and two images, nothing stored
    yet. *)
Definition shirt_variants : list Variant :=
  [mkVariant "gid://shopify/ProductVariant/41" [mkSelected "Color" "Black"];
   mkVariant "gid://shopify/ProductVariant/42" [mkSelected "Color" "Red"]].

Definition shirt_images : list Routes.Image :=
  [Routes.mkImage "gid://shopify/ProductImage/1"
                  "https://cdn.example/files/shirt.jpg";
   Routes.mkImage "gid://shopify/ProductImage/9"
                  "https://cdn.example/files/banner.jpg"].

Definition shirt (stored : value) : Routes.Product :=
  Routes.mkProduct "gid://shopify/Product/7" Samples.color_options
                   shirt_images shirt_variants stored.

(** The mapping of the assign page for that product. *)
Definition shirt_mapping : ProductMapping :=
  {| mode := "option"; optionName := "Color";
     mapping := [("Black", ["1"])] |}.

(** A parser that knows the JSON text of one value. *)
Definition parse_one (text : string) (v : value) (s : string)
    : option value :=
  if String.eqb s text then Some v else None.

(** What the assign page submits for it: a catalog identifier, a repeated
    image, an image and a value the product does not have. *)
Definition submitted_mapping : value :=
  VObj [("Black",
         VArr [VStr "gid://shopify/ProductImage/1"; VStr "1"; VStr "77"]);
        ("Blue", VArr [VStr "9"])].

(** The catalog with that one product, nothing stored yet. *)
Definition shirt_catalog (pid : string) : option Routes.Product :=
  if String.eqb pid "gid://shopify/Product/7" then Some (shirt VNull)
  else None.

(** The bootstrap payload of a shop that has the filter on. *)
Definition enabled_config : value :=
  VObj [("mapping", value_of_mapping shirt_mapping);
        ("imageUrls",
         VObj [("1", VStr "https://cdn.example/files/shirt.jpg")]);
        ("initialVariantId", VStr "41");
        ("settings",
         Routes.value_of_settings
           {| enabled := true; allowSharedImages := true;
              hideUnassignedImages := false |});
        ("optionNames", VArr [VStr "Color"]);
        ("variantOptions", VObj [("41", VArr [VStr "Black"])])].

(** The image table of a payload, one URL with a size suffix and a
    query. *)
Definition shirt_urls : list (string * value) :=
  [("1", VStr "https://cdn.example/files/shirt_800x.jpg?v=1");
   ("9", VStr "https://cdn.example/files/banner.jpg")].

(** The settings data of a theme in which the embed is switched on. *)
Definition theme_blocks : list (string * value) :=
  [("1",
    VObj [("type", VStr "shopify://apps/vi/blocks/variant-images-embed/1");
          ("disabled", VBool false)])].

Definition theme_settings_data : value :=
  VObj [("current", VObj [("blocks", VObj theme_blocks)])].

Definition theme_response : value :=
  VObj [("themes",
         VObj [("nodes",
                VArr [VObj [("name", VStr "Dawn");
                            ("files",
                             VObj [("nodes",
                                    VArr [VObj [("body",
                                                 VObj [("content",
                                                        VStr "settings")])]])])]])])].

(** A product whose colours include one spelled like a member of
    [Object.prototype], and two variants of that colour. *)
Definition constructor_options : list ProductOption :=
  [mkOption "Color" ["constructor"; "Red"]].

Definition two_constructor_variants : list Variant :=
  [mkVariant "gid://shopify/ProductVariant/1"
             [mkSelected "Color" "constructor"; mkSelected "Size" "S"];
   mkVariant "gid://shopify/ProductVariant/2"
             [mkSelected "Color" "constructor"; mkSelected "Size" "M"]].

(** The storefront of that product: only Black has images, and variant 43
    has the colour [constructor]. *)
Definition constructor_env : Storefront.Env :=
  {| Storefront.mappingMode := "option";
     Storefront.mappedOptionName := VStr "Color";
     Storefront.mappingTable := value_of_table [("Black", ["1"])];
     Storefront.optionNames := VArr [VStr "Color"];
     Storefront.variantOptions :=
       VObj [("41", VArr [VStr "Black"]);
             ("43", VArr [VStr "constructor"])];
     Storefront.initialVariantId := VStr "41";
     Storefront.hideUnassignedImages := VBool false;
     Storefront.filenameToId := [("shirt.jpg", "1"); ("banner.jpg", "9")] |}.

(** An environment whose table holds a number where a list belongs. *)
Definition broken_env : Storefront.Env :=
  {| Storefront.mappingMode := "variant";
     Storefront.mappedOptionName := VNull;
     Storefront.mappingTable := VObj [("41", VNum 5)];
     Storefront.optionNames := VUndefined;
     Storefront.variantOptions := VUndefined;
     Storefront.initialVariantId := VStr "41";
     Storefront.hideUnassignedImages := VBool false;
     Storefront.filenameToId := [("shirt.jpg", "1")] |}.

End MoreSamples.

(* ===================================================================== *)
(** ** Facts about the built-ins *)
(* ===================================================================== *)

Module JSFacts.

Lemma includes_In (x : string) (l : list string) :
  includes x l = true <-> In x l.
Proof.
  unfold includes. rewrite existsb_exists. split.
  - intros [y [Hy He]]. apply String.eqb_eq in He. now subst.
  - intros H. exists x. split; [assumption | apply String.eqb_refl].
Qed.

Lemma Set_has_In (x : string) (s : list string) :
  Set_has x s = true <-> In x s.
Proof. exact (includes_In x s). Qed.

Lemma Set_has_false (x : string) (s : list string) :
  Set_has x s = false <-> ~ In x s.
Proof.
  rewrite <- Set_has_In. destruct (Set_has x s); split; congruence.
Qed.

Lemma fold_Set_add_In (l acc : list string) (x : string) :
  In x (fold_left Set_add l acc) <-> In x acc \/ In x l.
Proof.
  revert acc. induction l as [|y l IH]; intros acc; simpl.
  - tauto.
  - rewrite IH. unfold Set_add.
    destruct (Set_has y acc) eqn:E.
    + apply Set_has_In in E. split; [tauto|].
      intros [H|[H|H]]; subst; auto.
    + rewrite in_app_iff. simpl. tauto.
Qed.

Lemma fold_Set_add_NoDup (l acc : list string) :
  NoDup acc -> NoDup (fold_left Set_add l acc).
Proof.
  revert acc. induction l as [|y l IH]; intros acc Hacc; simpl; [assumption|].
  apply IH. unfold Set_add.
  destruct (Set_has y acc) eqn:E; [assumption|].
  apply Set_has_false in E.
  apply NoDup_app; [assumption | repeat constructor; simpl; tauto |].
  intros z Hz [Hy|[]]. subst. contradiction.
Qed.

Lemma Set_of_In (l : list string) (x : string) : In x (Set_of l) <-> In x l.
Proof. unfold Set_of. rewrite fold_Set_add_In. simpl. tauto. Qed.

Lemma Set_of_NoDup (l : list string) : NoDup (Set_of l).
Proof. apply fold_Set_add_NoDup. constructor. Qed.

Lemma fold_Set_add_fresh (l acc : list string) :
  NoDup (acc ++ l) -> fold_left Set_add l acc = acc ++ l.
Proof.
  revert acc. induction l as [|y l IH]; intros acc H; simpl.
  - now rewrite app_nil_r.
  - assert (Hy : Set_has y acc = false).
    { apply Set_has_false. intro Hin.
      apply NoDup_remove_2 in H. apply H. apply in_or_app. now left. }
    unfold Set_add at 2. rewrite Hy.
    replace (acc ++ y :: l) with ((acc ++ [y]) ++ l) in *
      by (now rewrite <- app_assoc).
    now apply IH.
Qed.

Lemma Set_of_NoDup_id (l : list string) : NoDup l -> Set_of l = l.
Proof. intros H. unfold Set_of. now rewrite fold_Set_add_fresh. Qed.

Lemma Set_of_nil_inv (l : list string) : Set_of l = [] -> l = [].
Proof.
  destruct l as [|x l]; [reflexivity|]. intros H.
  assert (Hin : In x (Set_of (x :: l))) by (apply Set_of_In; now left).
  rewrite H in Hin. destruct Hin.
Qed.

(** *** Objects *)

Section Objects.

Context {A : Type}.
Implicit Types (o : obj A) (k : string) (v : A).

Lemma obj_get_In k v o : obj_get k o = Some v -> In (k, v) o.
Proof.
  induction o as [|[k' v'] o IH]; simpl; [discriminate|].
  destruct (String.eqb k k') eqn:E.
  - apply String.eqb_eq in E. intros [= ->]. subst. now left.
  - intros H. right. auto.
Qed.

Lemma obj_get_None k o : obj_get k o = None <-> ~ In k (obj_keys o).
Proof.
  induction o as [|[k' v'] o IH]; simpl; [tauto|].
  destruct (String.eqb k k') eqn:E.
  - apply String.eqb_eq in E. subst. split; [discriminate | tauto].
  - apply String.eqb_neq in E. rewrite IH. split; intros H; [|tauto].
    intros [H1|H1]; [congruence | contradiction].
Qed.

Lemma obj_has_keys k o : obj_has k o = true <-> In k (obj_keys o).
Proof.
  unfold obj_has. destruct (obj_get k o) eqn:E.
  - split; [|reflexivity]. intros _.
    apply obj_get_In in E. apply (in_map fst) in E. exact E.
  - apply obj_get_None in E. split; [discriminate | contradiction].
Qed.

Lemma In_obj_get k v o :
  NoDup (obj_keys o) -> In (k, v) o -> obj_get k o = Some v.
Proof.
  induction o as [|[k' v'] o IH]; simpl; [tauto|].
  intros Hnd [H|H].
  - injection H as -> ->. now rewrite String.eqb_refl.
  - inversion Hnd as [|? ? Hnot Hnd']; subst.
    destruct (String.eqb k k') eqn:E.
    + apply String.eqb_eq in E. subst. exfalso. apply Hnot.
      apply (in_map fst) in H. exact H.
    + auto.
Qed.

Lemma obj_keys_replace k v o : obj_keys (obj_replace k v o) = obj_keys o.
Proof.
  induction o as [|[k' v'] o IH]; simpl; [reflexivity|].
  destruct (String.eqb k k'); simpl; [reflexivity | now rewrite IH].
Qed.

Lemma obj_get_replace k v o k' :
  obj_has k o = true ->
  obj_get k' (obj_replace k v o) = if String.eqb k' k then Some v else obj_get k' o.
Proof.
  unfold obj_has.
  induction o as [|[k0 v0] o IH]; simpl; [discriminate|].
  destruct (String.eqb k k0) eqn:E; simpl.
  - apply String.eqb_eq in E. subst k0. intros _.
    destruct (String.eqb k' k); reflexivity.
  - intros H. destruct (String.eqb k' k0) eqn:E0.
    + apply String.eqb_eq in E0. subst k0.
      rewrite String.eqb_sym in E. now rewrite E.
    + auto.
Qed.

Lemma In_obj_replace k v o k' v' :
  In (k', v') (obj_replace k v o) -> (k' = k /\ v' = v) \/ In (k', v') o.
Proof.
  induction o as [|[k0 v0] o IH]; simpl; [tauto|].
  destruct (String.eqb k k0) eqn:E; simpl.
  - apply String.eqb_eq in E. subst k0.
    intros [H|H]; [injection H as <- <-; now left | tauto].
  - intros [H|H]; [tauto|]. apply IH in H. tauto.
Qed.

Lemma In_obj_insert k v o k' v' :
  In (k', v') (obj_insert k v o) <-> (k' = k /\ v' = v) \/ In (k', v') o.
Proof.
  induction o as [|[k0 v0] o IH]; simpl.
  - split; [intros [H|[]]; injection H as <- <-; tauto|].
    intros [[-> ->]|[]]. now left.
  - destruct (key_before k k0); simpl.
    + split; [intros [H|H]; [injection H as <- <-|]; tauto|].
      intros [[-> ->]|H]; tauto.
    + rewrite IH. tauto.
Qed.

Lemma obj_keys_insert k v o k' :
  In k' (obj_keys (obj_insert k v o)) <-> k' = k \/ In k' (obj_keys o).
Proof.
  induction o as [|[k0 v0] o IH]; simpl.
  - split; [intros [H|[]]; subst; tauto | intros [->|[]]; now left].
  - destruct (key_before k k0); simpl.
    + split; [intros [H|H]; subst; tauto | intros [->|H]; tauto].
    + rewrite IH. split; intros H; repeat destruct H as [H|H]; subst; tauto.
Qed.

Lemma obj_keys_insert_NoDup k v o :
  ~ In k (obj_keys o) -> NoDup (obj_keys o) ->
  NoDup (obj_keys (obj_insert k v o)).
Proof.
  induction o as [|[k0 v0] o IH]; simpl; intros Hk Hnd.
  - repeat constructor. simpl. tauto.
  - destruct (key_before k k0); simpl.
    + constructor; simpl; assumption.
    + inversion Hnd as [|? ? Hnot Hnd']; subst. constructor.
      * rewrite obj_keys_insert. intros [->|H]; tauto.
      * apply IH; tauto.
Qed.

Lemma obj_get_insert k v o k' :
  obj_has k o = false ->
  obj_get k' (obj_insert k v o) = if String.eqb k' k then Some v else obj_get k' o.
Proof.
  unfold obj_has.
  induction o as [|[k0 v0] o IH]; simpl.
  - intros _. destruct (String.eqb k' k); reflexivity.
  - destruct (String.eqb k k0) eqn:E; [discriminate|]. intros H.
    destruct (key_before k k0); simpl.
    + destruct (String.eqb k' k); reflexivity.
    + destruct (String.eqb k' k0) eqn:E0.
      * apply String.eqb_eq in E0. subst k0.
        rewrite String.eqb_sym in E. now rewrite E.
      * auto.
Qed.

Lemma obj_get_set k v o k' :
  obj_get k' (obj_set k v o) = if String.eqb k' k then Some v else obj_get k' o.
Proof.
  unfold obj_set. destruct (obj_has k o) eqn:E.
  - now apply obj_get_replace.
  - now apply obj_get_insert.
Qed.

Lemma In_obj_set k v o k' v' :
  In (k', v') (obj_set k v o) -> (k' = k /\ v' = v) \/ In (k', v') o.
Proof.
  unfold obj_set. destruct (obj_has k o).
  - apply In_obj_replace.
  - apply In_obj_insert.
Qed.

Lemma obj_keys_set k v o k' :
  In k' (obj_keys (obj_set k v o)) <-> k' = k \/ In k' (obj_keys o).
Proof.
  unfold obj_set. destruct (obj_has k o) eqn:E.
  - rewrite obj_keys_replace. apply obj_has_keys in E.
    split; [tauto | intros [->|H]; assumption].
  - apply obj_keys_insert.
Qed.

Lemma obj_keys_set_NoDup k v o :
  NoDup (obj_keys o) -> NoDup (obj_keys (obj_set k v o)).
Proof.
  intros Hnd. unfold obj_set. destruct (obj_has k o) eqn:E.
  - now rewrite obj_keys_replace.
  - apply obj_keys_insert_NoDup; [|assumption].
    rewrite <- obj_has_keys. congruence.
Qed.

(** An invariant of the entries survives an assignment that respects it. *)
Lemma Forall_obj_set (P : string * A -> Prop) k v o :
  P (k, v) -> Forall P o -> Forall P (obj_set k v o).
Proof.
  intros Hk Ho. apply Forall_forall. intros [k' v'] Hin.
  apply In_obj_set in Hin. destruct Hin as [[-> ->]|Hin]; [assumption|].
  rewrite Forall_forall in Ho. now apply Ho.
Qed.

Lemma obj_get_map {B} (f : A -> B) k o :
  obj_get k (map (fun e => (fst e, f (snd e))) o) = option_map f (obj_get k o).
Proof.
  induction o as [|[k' v'] o IH]; simpl; [reflexivity|].
  destruct (String.eqb k k'); [reflexivity | exact IH].
Qed.

(** *** Property order *)

Lemma ordered_app_l (l1 l2 : list string) :
  Props.ordered (l1 ++ l2) -> Props.ordered l1.
Proof.
  induction l1 as [|k l1 IH]; simpl; [tauto|].
  intros [Hk Hrest]. split; [|auto].
  intros k' Hin. apply Hk. apply in_or_app. now left.
Qed.

Lemma ordered_last (l : list string) (k : string) :
  Props.ordered (l ++ [k]) -> forall k', In k' l -> key_before k k' = false.
Proof.
  induction l as [|k0 l IH]; simpl; [tauto|].
  intros [Hk Hrest] k' [<-|Hin].
  - apply Hk. apply in_or_app. right. now left.
  - now apply IH.
Qed.

Lemma obj_insert_append k v o :
  (forall k', In k' (obj_keys o) -> key_before k k' = false) ->
  obj_insert k v o = o ++ [(k, v)].
Proof.
  induction o as [|[k0 v0] o IH]; simpl; intros H; [reflexivity|].
  rewrite (H k0) by now left. rewrite IH; [reflexivity|].
  intros k' Hin. apply H. now right.
Qed.

Lemma key_before_asym (a b : string) :
  key_before a b = true -> key_before b a = false.
Proof.
  unfold key_before.
  destruct (array_index a) as [n|], (array_index b) as [m|];
    try discriminate; try reflexivity.
  rewrite N.ltb_lt, N.ltb_ge. lia.
Qed.

Lemma key_before_trans (a b c : string) :
  key_before a b = true -> key_before b c = true -> key_before a c = true.
Proof.
  unfold key_before.
  destruct (array_index a) as [n|], (array_index b) as [m|],
    (array_index c) as [q|]; try discriminate; try reflexivity.
  rewrite !N.ltb_lt. lia.
Qed.

Lemma ordered_insert k v o :
  Props.ordered (obj_keys o) -> Props.ordered (obj_keys (obj_insert k v o)).
Proof.
  induction o as [|[k0 v0] o IH]; simpl.
  - intros _. split; [intros k' []|exact I].
  - intros [Hk0 Hrest]. destruct (key_before k k0) eqn:E; simpl.
    + split; [|split; assumption].
      intros k' [<-|Hin].
      * now apply key_before_asym.
      * destruct (key_before k' k) eqn:E'; [|reflexivity].
        rewrite <- (Hk0 k' Hin). symmetry.
        now apply key_before_trans with k.
    + split; [|now apply IH].
      intros k' Hin. apply obj_keys_insert in Hin.
      destruct Hin as [->|Hin]; [assumption | now apply Hk0].
Qed.

Lemma ordered_set k v o :
  Props.ordered (obj_keys o) -> Props.ordered (obj_keys (obj_set k v o)).
Proof.
  intros H. unfold obj_set. destruct (obj_has k o).
  - now rewrite obj_keys_replace.
  - now apply ordered_insert.
Qed.

(** Assigning the entries of an object one after the other, in property
    order, builds that object. *)
Lemma obj_set_rebuild (done todo : obj A) :
  NoDup (obj_keys (done ++ todo)) ->
  Props.ordered (obj_keys (done ++ todo)) ->
  fold_left (fun acc e => obj_set (fst e) (snd e) acc) todo done
  = done ++ todo.
Proof.
  revert done. induction todo as [|[k v] todo IH]; intros done Hnd Hord;
    cbn [fold_left fst snd].
  - now rewrite app_nil_r.
  - replace (done ++ (k, v) :: todo) with ((done ++ [(k, v)]) ++ todo) in *
      by (now rewrite <- app_assoc).
    assert (Hset : obj_set k v done = done ++ [(k, v)]).
    { unfold obj_set, obj_keys in *. rewrite !map_app in Hnd, Hord.
      apply NoDup_app_remove_r in Hnd. apply ordered_app_l in Hord.
      simpl in Hnd, Hord.
      assert (Hfresh : ~ In k (map fst done)).
      { apply NoDup_remove_2 in Hnd. now rewrite app_nil_r in Hnd. }
      assert (Hhas : obj_has k done = false).
      { destruct (obj_has k done) eqn:E; [|reflexivity].
        apply obj_has_keys in E. contradiction. }
      rewrite Hhas. apply obj_insert_append. now apply ordered_last. }
    rewrite Hset. now apply IH.
Qed.

(** *** Assignments and inherited names *)

Lemma obj_assign_cases k v o :
  obj_assign k v o = obj_set k v o
  \/ (obj_assign k v o = o /\ k = "__proto__" /\ obj_has k o = false).
Proof.
  unfold obj_assign. destruct (String.eqb_spec k "__proto__") as [->|_];
    [|now left].
  destruct (obj_has "__proto__" o); simpl; [now left | now right].
Qed.

Lemma obj_assign_set k v o :
  k <> "__proto__" \/ obj_has k o = true ->
  obj_assign k v o = obj_set k v o.
Proof.
  intros H. destruct (obj_assign_cases k v o) as [E|[_ [Hk Hh]]];
    [assumption|].
  destruct H; congruence.
Qed.

Lemma Forall_obj_assign (P : string * A -> Prop) k v o :
  P (k, v) -> Forall P o -> Forall P (obj_assign k v o).
Proof.
  intros Hk Ho. destruct (obj_assign_cases k v o) as [->|[-> _]];
    [now apply Forall_obj_set | assumption].
Qed.

Lemma In_obj_assign k v o k' v' :
  In (k', v') (obj_assign k v o) -> (k' = k /\ v' = v) \/ In (k', v') o.
Proof.
  destruct (obj_assign_cases k v o) as [->|[-> _]];
    [apply In_obj_set | tauto].
Qed.

Lemma obj_keys_assign_NoDup k v o :
  NoDup (obj_keys o) -> NoDup (obj_keys (obj_assign k v o)).
Proof.
  destruct (obj_assign_cases k v o) as [->|[-> _]];
    [apply obj_keys_set_NoDup | tauto].
Qed.

Lemma ordered_assign k v o :
  Props.ordered (obj_keys o) -> Props.ordered (obj_keys (obj_assign k v o)).
Proof.
  destruct (obj_assign_cases k v o) as [->|[-> _]];
    [apply ordered_set | tauto].
Qed.

(** An object filled by assignments has no entry [__proto__]. *)
Lemma obj_assign_no_proto k v o :
  obj_has "__proto__" o = false ->
  obj_has "__proto__" (obj_assign k v o) = false.
Proof.
  intros H. unfold obj_assign.
  destruct (String.eqb_spec k "__proto__") as [->|Hk].
  - rewrite H. exact H.
  - cbn [andb]. unfold obj_has in *. rewrite obj_get_set.
    destruct (String.eqb_spec "__proto__" k); [congruence | exact H].
Qed.

Lemma lookup_Found k o a : lookup k o = Found a <-> obj_get k o = Some a.
Proof.
  unfold lookup. destruct (obj_get k o).
  - split; intros [= ->]; reflexivity.
  - destruct (includes k Object_prototype); split; discriminate.
Qed.

Lemma lookup_Builtin k o :
  lookup k o = Builtin <-> Props.reads_builtin k o.
Proof.
  unfold lookup, Props.reads_builtin. destruct (obj_get k o).
  - split; [discriminate | intros [_ H]; discriminate].
  - destruct (includes k Object_prototype); split;
      try discriminate; try tauto.
    intros [H _]. discriminate.
Qed.

Lemma lookup_Nothing k o :
  lookup k o = Nothing <->
  obj_get k o = None /\ includes k Object_prototype = false.
Proof.
  unfold lookup. destruct (obj_get k o).
  - split; [discriminate | intros [H _]; discriminate].
  - destruct (includes k Object_prototype); split;
      try discriminate; try tauto.
    intros [_ H]. discriminate.
Qed.

Lemma lookup_own_or_plain k o :
  includes k Object_prototype = false \/ obj_has k o = true ->
  lookup k o = match obj_get k o with
               | Some a => Found a
               | None => Nothing
               end.
Proof.
  unfold lookup, obj_has. destruct (obj_get k o); [reflexivity|].
  intros [->|H]; [reflexivity | discriminate].
Qed.

Lemma proto_is_inherited : includes "__proto__" Object_prototype = true.
Proof. reflexivity. Qed.

Lemma not_inherited_not_proto k :
  includes k Object_prototype = false -> k <> "__proto__".
Proof. intros H ->. discriminate. Qed.

End Objects.

(** A computed read finds a built-in, or what the read of the value's own
    properties finds; an array answers [__proto__] with an empty array. *)
Lemma lookup_value_cases (v : value) (k : string) :
  lookup_value v k = Builtin
  \/ lookup_value v k = Found (prop v k)
  \/ (prop v k = VUndefined
      /\ (lookup_value v k = Nothing \/ lookup_value v k = Found (VArr []))).
Proof.
  destruct v as [| | | | |items|o]; cbn [lookup_value].
  1-5: destruct (prop _ k); auto.
  - destruct (String.eqb_spec k "__proto__") as [->|_]; [now auto|].
    destruct (includes k Array_prototype || includes k Object_prototype);
      [now left|].
    destruct (prop (VArr items) k); auto.
  - unfold lookup. cbn [prop]. destruct (obj_get k o); [now auto|].
    destruct (includes k Object_prototype); auto.
Qed.

End JSFacts.

(* ===================================================================== *)
(** ** The normalisers *)
(* ===================================================================== *)

Module ServerFacts.

Import Server JSFacts.

Section Facts.

Variable JSON_parse : string -> option value.
Variable toNumericId : value -> string.

Local Abbreviation safeParseJson := (Server.safeParseJson JSON_parse).
Local Abbreviation normalizeSettings := (Server.normalizeSettings JSON_parse).
Local Abbreviation cleanImageIds := (Server.cleanImageIds toNumericId).
Local Abbreviation validIdSet := (Server.validIdSet toNumericId).
Local Abbreviation normalizeOptionMapping :=
  (Server.normalizeOptionMapping JSON_parse toNumericId).
Local Abbreviation normalizeMapping := (Server.normalizeMapping JSON_parse toNumericId).
Local Abbreviation normalizeProductMapping :=
  (Server.normalizeProductMapping JSON_parse toNumericId).

Lemma nonempty_true (s : string) : nonempty s = true <-> s <> "".
Proof.
  unfold nonempty. rewrite negb_true_iff. apply String.eqb_neq.
Qed.

(** Whenever the parsed input is neither null nor undefined, the settings
    normaliser answers, field by field. *)
Lemma normalizeSettings_fields (rawSettings : value) :
  nullish (safeParseJson rawSettings (VObj [])) = false ->
  normalizeSettings rawSettings =
  Ok {| enabled :=
          boolean_or (prop (safeParseJson rawSettings (VObj [])) "enabled") true;
        allowSharedImages :=
          boolean_or (prop (safeParseJson rawSettings (VObj []))
                           "allowSharedImages") true;
        hideUnassignedImages :=
          boolean_or (prop (safeParseJson rawSettings (VObj []))
                           "hideUnassignedImages") false |}.
Proof.
  intros H. unfold Server.normalizeSettings, get. rewrite H. reflexivity.
Qed.

(** Objects, absent values and texts that do not parse never make it throw. *)
Lemma normalizeSettings_object (o : obj value) :
  normalizeSettings (VObj o) =
  Ok {| enabled := boolean_or (prop (VObj o) "enabled") true;
        allowSharedImages := boolean_or (prop (VObj o) "allowSharedImages") true;
        hideUnassignedImages :=
          boolean_or (prop (VObj o) "hideUnassignedImages") false |}.
Proof. reflexivity. Qed.

Lemma normalizeSettings_default (rawSettings : value) :
  safeParseJson rawSettings (VObj []) = VObj [] ->
  normalizeSettings rawSettings = Ok DEFAULT_SETTINGS.
Proof.
  intros H. unfold Server.normalizeSettings. rewrite H. reflexivity.
Qed.

(** C7: a persisted settings text that is the JSON literal [null] parses to
    null, which [safeParseJson] hands back as it is; reading [enabled] from
    it throws, where a record of defaults is promised. *)
Theorem normalizeSettings_null_text_throws :
  JSON_parse "null" = Some VNull ->
  normalizeSettings (VStr "null") = TypeError.
Proof.
  intros H. unfold Server.normalizeSettings, Server.safeParseJson. simpl.
  rewrite H. reflexivity.
Qed.

(** *** Domain filtering *)

Lemma allowed_by_validValueSet (vals : list string) (k : string) :
  allowed_by (validValueSet vals) k = true -> vals <> [] -> In k vals.
Proof.
  destruct vals as [|v vals]; [congruence|].
  unfold validValueSet, allowed_by. intros H _.
  rewrite Set_has_In, Set_of_In in H. exact H.
Qed.

Lemma allowed_by_validIdSet (ids : list string) (x : string) :
  allowed_by (validIdSet ids) x = true -> ids <> [] ->
  exists g, In g ids /\ toNumericId (VStr g) = x.
Proof.
  destruct ids as [|i ids]; [congruence|].
  unfold Server.validIdSet, allowed_by. intros H _.
  rewrite Set_has_In, Set_of_In, in_map_iff in H. destruct H as [g [Hg Hin]]. eauto.
Qed.

Lemma cleanImageIds_NoDup (valid : option (list string)) (c : list value) :
  NoDup (cleanImageIds valid c).
Proof. apply NoDup_filter, Set_of_NoDup. Qed.

Lemma cleanImageIds_In (valid : option (list string)) (c : list value)
    (x : string) :
  In x (cleanImageIds valid c) <->
  allowed_by valid x = true /\ x <> "" /\ exists v, In v c /\ toNumericId v = x.
Proof.
  unfold Server.cleanImageIds.
  rewrite filter_In, Set_of_In, filter_In, nonempty_true, in_map_iff.
  split.
  - intros [[[v [Hv Hin]] Hne] Ha]. eauto.
  - intros [Ha [Hne [v [Hin Hv]]]]. eauto.
Qed.

Local Abbreviation entry_ok := (Props.entry_ok toNumericId).

Lemma normalizeOptionMapping_step_ok (vals imgs : list string)
    (normalized : obj (list string)) (entry : string * value) :
  Forall (entry_ok vals imgs) normalized ->
  Forall (entry_ok vals imgs)
    (normalizeOptionMapping_step toNumericId (validValueSet vals)
       (validIdSet imgs) normalized entry).
Proof.
  intros Hn. destruct entry as [k v]. unfold normalizeOptionMapping_step.
  destruct (nonempty k) eqn:Hk; simpl; [|assumption].
  destruct (allowed_by (validValueSet vals) k) eqn:Ha; simpl; [|assumption].
  destruct (cleanImageIds (validIdSet imgs) (candidateImages v))
    as [|i ids] eqn:Hc; [assumption|].
  apply Forall_obj_assign; [|assumption].
  repeat split; simpl.
  - now apply nonempty_true.
  - now apply allowed_by_validValueSet.
  - discriminate.
  - rewrite <- Hc. apply cleanImageIds_NoDup.
  - rewrite <- Hc in H. apply cleanImageIds_In in H. tauto.
  - rewrite <- Hc in H. apply cleanImageIds_In in H.
    destruct H as [Ha' _]. now apply allowed_by_validIdSet.
Qed.

Lemma fold_left_Forall {A B} (P : A -> Prop) (f : list A -> B -> list A)
    (l : list B) (acc : list A) :
  (forall a b, Forall P a -> Forall P (f a b)) ->
  Forall P acc -> Forall P (fold_left f l acc).
Proof.
  intros Hf. revert acc. induction l as [|b l IH]; simpl; auto.
Qed.

Lemma normalizeOptionMapping_entries (raw : value) (vals imgs : list string) :
  Forall (entry_ok vals imgs) (normalizeOptionMapping raw vals imgs).
Proof.
  unfold Server.normalizeOptionMapping.
  destruct (unwrap_source (safeParseJson raw (VObj []))); try constructor.
  apply fold_left_Forall; [|constructor].
  intros a b. apply normalizeOptionMapping_step_ok.
Qed.

(** C3, as the code has it: every key of the option-mapping normaliser's
    output is a non-empty string that belongs to the valid option-value
    domain whenever that domain is non-empty; every image ID of every entry
    is non-empty and is the numeric form of a valid image ID whenever the
    valid image-ID domain is non-empty; the image list of an entry is never
    empty and holds no duplicate.  (An empty domain switches that filter
    off.) *)
Theorem normalizeOptionMapping_domain (raw : value)
    (validOptionValues validImageIds : list string)
    (key : string) (ids : list string) :
  In (key, ids) (normalizeOptionMapping raw validOptionValues validImageIds) ->
  key <> ""
  /\ (validOptionValues <> [] -> In key validOptionValues)
  /\ ids <> []
  /\ NoDup ids
  /\ forall i, In i ids ->
       i <> ""
       /\ (validImageIds <> [] ->
           exists g, In g validImageIds /\ toNumericId (VStr g) = i).
Proof.
  intros Hin.
  pose proof (normalizeOptionMapping_entries raw validOptionValues validImageIds)
    as Hall.
  rewrite Forall_forall in Hall. exact (Hall _ Hin).
Qed.

(** *** Legacy migration *)

Lemma get_or_empty_set (k k' : string) (v : list string)
    (o : obj (list string)) :
  get_or_empty k' (obj_set k v o)
  = if String.eqb k' k then v else get_or_empty k' o.
Proof.
  unfold get_or_empty. rewrite obj_get_set.
  destruct (String.eqb k' k); reflexivity.
Qed.

Lemma obj_has_set (k k' : string) (v : list string) (o : obj (list string)) :
  obj_has k' (obj_set k v o) = (String.eqb k' k || obj_has k' o).
Proof.
  unfold obj_has. rewrite obj_get_set.
  destruct (String.eqb k' k); reflexivity.
Qed.

Section Migration.

Variable byVariant : obj (option string).
Variable ov : string.
Hypothesis ov_nonempty : ov <> "".

Local Abbreviation step := (Props.merged byVariant).

(** One legacy entry, in a round that does not throw, adds its images to
    the list of its option value and leaves the other lists alone. *)
Lemma migrate_step_images (acc : obj (list string)) (v : string)
    (lv : list string) (x : string) :
  In x (get_or_empty ov (step acc (v, lv)))
  <-> In x (get_or_empty ov acc)
      \/ (Map_get v byVariant = Some (Some ov) /\ In x lv).
Proof.
  unfold Props.merged.
  destruct (Map_get v byVariant) as [[w|]|] eqn:Hv;
    try (split; [tauto | intros [H|[H _]]; [assumption | discriminate]]).
  destruct (nonempty w) eqn:Hw; simpl.
  - rewrite get_or_empty_set. destruct (String.eqb ov w) eqn:E.
    + apply String.eqb_eq in E. subst w.
      rewrite Set_of_In, in_app_iff. tauto.
    + apply String.eqb_neq in E. split; [tauto|].
      intros [H|[H _]]; [assumption | congruence].
  - assert (w = "") by
      (destruct (String.eqb_spec w ""); [assumption|];
       apply nonempty_true in n; congruence).
    subst w. split; [tauto|].
    intros [H|[H _]]; [assumption | congruence].
Qed.

Lemma migrate_step_NoDup (acc : obj (list string)) (e : string * list string) :
  NoDup (get_or_empty ov acc) -> NoDup (get_or_empty ov (step acc e)).
Proof.
  destruct e as [v lv]. unfold Props.merged.
  destruct (Map_get v byVariant) as [[w|]|]; try tauto.
  destruct (nonempty w); simpl; [|tauto].
  rewrite get_or_empty_set. destruct (String.eqb ov w); [|tauto].
  intros _. apply Set_of_NoDup.
Qed.

Lemma migrate_step_has (acc : obj (list string)) (v : string)
    (lv : list string) :
  obj_has ov acc = true \/ Map_get v byVariant = Some (Some ov) ->
  obj_has ov (step acc (v, lv)) = true.
Proof.
  unfold Props.merged.
  destruct (Map_get v byVariant) as [[w|]|] eqn:Hv;
    try (intros [H|H]; [assumption | discriminate]).
  destruct (nonempty w) eqn:Hw; simpl.
  - rewrite obj_has_set. intros [H|H].
    + rewrite H. apply orb_true_r.
    + injection H as ->. now rewrite String.eqb_refl.
  - intros [H|H]; [assumption|]. injection H as ->.
    apply nonempty_true in ov_nonempty. congruence.
Qed.

Lemma migrate_fold_images (es : obj (list string)) (acc : obj (list string))
    (x : string) :
  In x (get_or_empty ov (fold_left step es acc))
  <-> In x (get_or_empty ov acc)
      \/ exists v lv,
           In (v, lv) es /\ Map_get v byVariant = Some (Some ov) /\ In x lv.
Proof.
  revert acc. induction es as [|[v lv] es IH]; intros acc; cbn [fold_left].
  - split; [tauto | intros [H|[v [lv [[] _]]]]; assumption].
  - rewrite IH, migrate_step_images. split.
    + intros [[H|[Hv Hx]]|[v' [lv' [Hin [Hv Hx]]]]].
      * now left.
      * right. exists v, lv. repeat split; [now left | assumption..].
      * right. exists v', lv'. repeat split; [now right | assumption..].
    + intros [H|[v' [lv' [[Heq|Hin] [Hv Hx]]]]].
      * now do 2 left.
      * injection Heq as <- <-. left. right. now split.
      * right. exists v', lv'. now repeat split.
Qed.

Lemma migrate_fold_NoDup (es : obj (list string)) (acc : obj (list string)) :
  NoDup (get_or_empty ov acc) ->
  NoDup (get_or_empty ov (fold_left step es acc)).
Proof.
  revert acc. induction es as [|e es IH]; intros acc H; cbn [fold_left];
    [assumption|].
  apply IH. now apply migrate_step_NoDup.
Qed.

Lemma migrate_fold_has (es : obj (list string)) (acc : obj (list string)) :
  obj_has ov acc = true
  \/ (exists v lv, In (v, lv) es /\ Map_get v byVariant = Some (Some ov)) ->
  obj_has ov (fold_left step es acc) = true.
Proof.
  revert acc. induction es as [|[v lv] es IH]; intros acc; cbn [fold_left].
  - intros [H|[v [lv [[] _]]]]. assumption.
  - intros [H|[v' [lv' [[Heq|Hin] Hv]]]]; apply IH.
    + left. apply migrate_step_has. now left.
    + injection Heq as <- <-. left. apply migrate_step_has. now right.
    + right. eauto.
Qed.

End Migration.

(** *** When the migration loop throws *)

Lemma inherited_nonempty (k : string) :
  includes k Object_prototype = true -> nonempty k = true.
Proof. intros H. destruct k; [discriminate | reflexivity]. Qed.

(** A round that does not throw is a round of [Props.merged]. *)
Lemma migrate_step_Ok (byVariant : obj (option string))
    (optionMap m : obj (list string)) (entry : string * list string) :
  migrate_step byVariant optionMap entry = Ok m ->
  m = Props.merged byVariant optionMap entry.
Proof.
  destruct entry as [v lv]. unfold migrate_step, Props.merged.
  destruct (Map_get v byVariant) as [[w|]|];
    try (intros [= <-]; reflexivity).
  destruct (negb (nonempty w)); [intros [= <-]; reflexivity|].
  destruct (lookup w optionMap) as [current| |] eqn:E.
  - apply lookup_Found in E. intros [= <-].
    rewrite obj_assign_set
      by (right; unfold obj_has; now rewrite E).
    unfold get_or_empty. now rewrite E.
  - discriminate.
  - apply lookup_Nothing in E. destruct E as [Hget Hplain].
    intros [= <-].
    rewrite obj_assign_set by (left; now apply not_inherited_not_proto).
    unfold get_or_empty. now rewrite Hget.
Qed.

(** A round throws exactly when the entry's variant carries a value that
    reads a built-in from the map built so far. *)
Lemma migrate_step_throws (byVariant : obj (option string))
    (optionMap : obj (list string)) (v : string) (lv : list string) :
  migrate_step byVariant optionMap (v, lv) = TypeError <->
  exists optionValue,
    Map_get v byVariant = Some (Some optionValue)
    /\ Props.reads_builtin optionValue optionMap.
Proof.
  unfold migrate_step.
  destruct (Map_get v byVariant) as [[w|]|];
    try (split; [discriminate | intros [x [H _]]; discriminate]).
  destruct (nonempty w) eqn:Hw; cbn [negb].
  - destruct (lookup w optionMap) as [current| |] eqn:E.
    + split; [discriminate|]. intros [x [[= <-] Hx]].
      apply lookup_Builtin in Hx. congruence.
    + split; [|reflexivity]. intros _. exists w. split; [reflexivity|].
      now apply lookup_Builtin.
    + split; [discriminate|]. intros [x [[= <-] Hx]].
      apply lookup_Builtin in Hx. congruence.
  - split; [discriminate|]. intros [x [[= <-] [Hx _]]].
    apply inherited_nonempty in Hx. congruence.
Qed.

Lemma migrate_cons (byVariant : obj (option string))
    (e : string * list string) (es acc : obj (list string)) :
  migrate byVariant (e :: es) acc
  = match migrate_step byVariant acc e with
    | Ok o => migrate byVariant es o
    | TypeError => TypeError
    end.
Proof.
  unfold migrate. cbn [fold_left bind].
  destruct (migrate_step byVariant acc e); [reflexivity|].
  induction es as [|e' es IH]; [reflexivity | exact IH].
Qed.

Lemma migrate_Ok (byVariant : obj (option string))
    (es acc m : obj (list string)) :
  migrate byVariant es acc = Ok m ->
  m = fold_left (Props.merged byVariant) es acc.
Proof.
  revert acc. induction es as [|e es IH]; intros acc.
  - intros [= <-]. reflexivity.
  - rewrite migrate_cons.
    destruct (migrate_step byVariant acc e) as [o|] eqn:E; [|discriminate].
    apply migrate_step_Ok in E. subst o. cbn [fold_left]. apply IH.
Qed.

(** The loop ends normally when no variant of the legacy map carries the
    name of a member of [Object.prototype]. *)
Lemma migrate_returns (byVariant : obj (option string))
    (es acc : obj (list string)) :
  (forall v lv optionValue,
     In (v, lv) es -> Map_get v byVariant = Some (Some optionValue) ->
     includes optionValue Object_prototype = false) ->
  exists m, migrate byVariant es acc = Ok m.
Proof.
  revert acc. induction es as [|[v lv] es IH]; intros acc Hplain.
  - now exists acc.
  - rewrite migrate_cons.
    destruct (migrate_step byVariant acc (v, lv)) as [o|] eqn:E.
    + apply IH. intros v' lv' w Hin. apply (Hplain v' lv' w). now right.
    + apply migrate_step_throws in E. destruct E as [w [Hw [Hin _]]].
      rewrite (Hplain v lv w) in Hin; [discriminate | now left | assumption].
Qed.

(** It throws when one does, the map having started without such a
    name. *)
Lemma migrate_throws (byVariant : obj (option string))
    (es acc : obj (list string)) :
  (forall k, In k (obj_keys acc) -> includes k Object_prototype = false) ->
  (exists v lv optionValue,
     In (v, lv) es /\ Map_get v byVariant = Some (Some optionValue)
     /\ includes optionValue Object_prototype = true) ->
  migrate byVariant es acc = TypeError.
Proof.
  revert acc. induction es as [|[v lv] es IH]; intros acc Hacc.
  - intros [v [lv [w [[] _]]]].
  - intros Hbad. rewrite migrate_cons.
    destruct (migrate_step byVariant acc (v, lv)) as [o|] eqn:E;
      [|reflexivity].
    assert (Hnot : ~ exists w, Map_get v byVariant = Some (Some w)
                               /\ Props.reads_builtin w acc).
    { intros H. apply (migrate_step_throws byVariant acc v lv) in H.
      congruence. }
    apply IH.
    + apply migrate_step_Ok in E. subst o. unfold Props.merged.
      destruct (Map_get v byVariant) as [[w|]|] eqn:Hw; try assumption.
      destruct (negb (nonempty w)); [assumption|].
      intros k Hk. apply obj_keys_set in Hk. destruct Hk as [->|Hk];
        [|now apply Hacc].
      destruct (includes w Object_prototype) eqn:Hi; [|reflexivity].
      exfalso. apply Hnot. exists w. split; [reflexivity|].
      split; [assumption|]. apply obj_get_None. intros Hin.
      apply Hacc in Hin. congruence.
    + destruct Hbad as [v' [lv' [w [[Heq|Hin] [Hw Hi]]]]]; [|eauto 6].
      injection Heq as <- <-. exfalso. apply Hnot. exists w.
      split; [assumption|]. split; [assumption|].
      apply obj_get_None. intros Hin. apply Hacc in Hin. congruence.
Qed.

(** A map filled by the loop has no entry [__proto__]. *)
Lemma migrate_no_proto (byVariant : obj (option string))
    (es acc m : obj (list string)) :
  obj_has "__proto__" acc = false ->
  migrate byVariant es acc = Ok m ->
  obj_has "__proto__" m = false.
Proof.
  revert acc. induction es as [|[v lv] es IH]; intros acc Hacc.
  - now intros [= <-].
  - rewrite migrate_cons.
    destruct (migrate_step byVariant acc (v, lv)) as [o|] eqn:E;
      [|discriminate].
    apply IH. revert E. unfold migrate_step.
    destruct (Map_get v byVariant) as [[w|]|]; try now intros [= <-].
    destruct (negb (nonempty w)); [now intros [= <-]|].
    destruct (lookup w acc); [| discriminate |]; intros [= <-];
      now apply obj_assign_no_proto.
Qed.

Lemma normalizeMapping_step_keys (vset iset : option (list string))
    (normalized : obj (list string)) (entry : string * value) :
  NoDup (obj_keys normalized) ->
  NoDup (obj_keys
           (normalizeMapping_step toNumericId vset iset normalized entry)).
Proof.
  intros H. destruct entry as [k v]. unfold normalizeMapping_step.
  destruct (negb (nonempty (toNumericId (VStr k)))); [assumption|].
  destruct (negb (allowed_by vset (toNumericId (VStr k)))); [assumption|].
  destruct (Server.cleanImageIds toNumericId iset (candidateImages v));
    [assumption|].
  now apply obj_keys_assign_NoDup.
Qed.

Lemma normalizeMapping_keys (raw : value) (variantIds imageIds : list string) :
  NoDup (obj_keys (normalizeMapping raw variantIds imageIds)).
Proof.
  unfold Server.normalizeMapping.
  destruct (unwrap_source (safeParseJson raw (VObj []))); try constructor.
  assert (Hfold : forall acc : obj (list string),
             NoDup (obj_keys acc) ->
             NoDup (obj_keys
                      (fold_left
                         (normalizeMapping_step toNumericId
                            (validIdSet variantIds) (validIdSet imageIds))
                         props acc))).
  { induction props as [|e es IH]; intros acc Hacc; cbn [fold_left];
      [assumption|].
    apply IH. now apply normalizeMapping_step_keys. }
  apply Hfold. constructor.
Qed.

(** What [normalizeProductMapping] computes in the legacy branch. *)
Lemma normalizeProductMapping_legacy (raw : value)
    (options : list ProductOption) (variants : list Variant)
    (imageIds : list string) :
  let parsed := safeParseJson raw (VObj []) in
  is_option_mode parsed = false ->
  normalizeProductMapping raw options variants imageIds
  = match migrate
            (optionValueByVariant toNumericId (fallbackOptionName options)
                                  variants)
            (normalizeMapping parsed (map id variants) imageIds) [] with
    | Ok optionMap =>
        Ok {| mode := "option"; optionName := fallbackOptionName options;
              mapping := optionMap |}
    | TypeError => TypeError
    end.
Proof.
  intros parsed Hmode. unfold Server.normalizeProductMapping.
  fold parsed. rewrite Hmode. reflexivity.
Qed.

(** The union law where the migration ends normally: when two variants
    carry the same value of the migration target option and each has an
    entry in the filtered legacy map, the migrated mapping has an entry for
    that value; its list has no duplicate, holds every image of both
    legacy lists, and, when no other mapped variant carries the value,
    nothing else. *)
Lemma legacy_migration_union_when_returned (raw : value)
    (options : list ProductOption)
    (variants : list Variant) (imageIds : list string)
    (v1 v2 : string) (l1 l2 : list string) (optionValue : string)
    (out : ProductMapping) :
  let parsed := safeParseJson raw (VObj []) in
  let legacy := normalizeMapping parsed (map id variants) imageIds in
  let byVariant :=
    optionValueByVariant toNumericId (fallbackOptionName options) variants in
  is_option_mode parsed = false ->
  normalizeProductMapping raw options variants imageIds = Ok out ->
  obj_get v1 legacy = Some l1 ->
  obj_get v2 legacy = Some l2 ->
  Map_get v1 byVariant = Some (Some optionValue) ->
  Map_get v2 byVariant = Some (Some optionValue) ->
  optionValue <> "" ->
  exists l,
    obj_get optionValue (mapping out) = Some l
    /\ NoDup l
    /\ (forall x, In x l1 \/ In x l2 -> In x l)
    /\ ((forall v lv, obj_get v legacy = Some lv ->
                      Map_get v byVariant = Some (Some optionValue) ->
                      v = v1 \/ v = v2) ->
        forall x, In x l -> In x l1 \/ In x l2).
Proof.
  intros parsed legacy byVariant Hmode Hout H1 H2 Hb1 Hb2 Hne.
  rewrite (normalizeProductMapping_legacy raw options variants imageIds Hmode)
    in Hout.
  fold parsed in Hout. fold legacy in Hout. fold byVariant in Hout.
  destruct (migrate byVariant legacy []) as [res|] eqn:Hres; [|discriminate].
  injection Hout as <-. cbn [mapping].
  apply migrate_Ok in Hres.
  assert (Hhas : obj_has optionValue res = true).
  { rewrite Hres. apply migrate_fold_has; [assumption|]. right.
    exists v1, l1. split; [now apply obj_get_In | assumption]. }
  assert (Himg := migrate_fold_images byVariant optionValue Hne legacy []).
  rewrite <- Hres in Himg.
  assert (Hnd : NoDup (get_or_empty optionValue res)).
  { rewrite Hres. apply migrate_fold_NoDup. constructor. }
  unfold obj_has in Hhas. unfold get_or_empty in Himg, Hnd.
  destruct (obj_get optionValue res) as [l|] eqn:Hl; [|discriminate].
  exists l. repeat split; [assumption | |].
  - intros x Hx. apply Himg. right.
    destruct Hx as [Hx|Hx].
    + exists v1, l1. auto using obj_get_In.
    + exists v2, l2. auto using obj_get_In.
  - intros Honly x Hx. apply Himg in Hx.
    destruct Hx as [[]|[v [lv [Hin [Hv Hx]]]]].
    assert (Hget : obj_get v legacy = Some lv).
    { apply In_obj_get; [apply normalizeMapping_keys | assumption]. }
    destruct (Honly v lv Hget Hv) as [->| ->].
    + left. congruence.
    + right. congruence.
Qed.

(** C5 at its failing inputs: when the value that two mapped variants
    share for the migration target option names a member of
    [Object.prototype] ([constructor], [toString], ...), the migration
    loop reads that member where it expects the list collected so far,
    and spreading it throws: the normalisation ends in a [TypeError]
    where the union of the two lists is promised. *)
Theorem legacy_migration_throws_on_inherited_name (raw : value)
    (options : list ProductOption)
    (variants : list Variant) (imageIds : list string)
    (v1 v2 : string) (l1 l2 : list string) (optionValue : string) :
  let parsed := safeParseJson raw (VObj []) in
  let legacy := normalizeMapping parsed (map id variants) imageIds in
  let byVariant :=
    optionValueByVariant toNumericId (fallbackOptionName options) variants in
  is_option_mode parsed = false ->
  obj_get v1 legacy = Some l1 ->
  obj_get v2 legacy = Some l2 ->
  Map_get v1 byVariant = Some (Some optionValue) ->
  Map_get v2 byVariant = Some (Some optionValue) ->
  includes optionValue Object_prototype = true ->
  normalizeProductMapping raw options variants imageIds = TypeError.
Proof.
  intros parsed legacy byVariant Hmode H1 _ Hb1 _ Hinh.
  rewrite (normalizeProductMapping_legacy raw options variants imageIds Hmode).
  fold parsed. fold legacy. fold byVariant.
  rewrite (migrate_throws byVariant legacy []); [reflexivity | intros k [] |].
  exists v1, l1, optionValue. split; [now apply obj_get_In | now split].
Qed.

(** *** The legacy scenario *)

(** C6: the persisted value [{"1111":["2222"]}] (as an object, or as a text
    that parses to it), one option [Color] with values [Black] and [Red],
    variant [1111] with [Color = Black] and valid image [2222] normalise to
    [{mode: "option", optionName: "Color", mapping: {Black: ["2222"]}}],
    for any identifier normalisation that leaves [1111] and [2222] as
    they are. *)
Theorem legacy_scenario_normalizes (raw : value) :
  toNumericId (VStr "1111") = "1111" ->
  toNumericId (VStr "2222") = "2222" ->
  safeParseJson raw (VObj []) = Samples.legacy_raw ->
  normalizeProductMapping raw Samples.color_options Samples.one_black_variant
                          ["2222"]
  = Ok {| mode := "option";
          optionName := "Color";
          mapping := [("Black", ["2222"])] |}.
Proof.
  intros H1 H2 Hraw.
  unfold Server.normalizeProductMapping. rewrite Hraw.
  unfold Samples.legacy_raw, Samples.color_options, Samples.one_black_variant.
  cbn -[String.eqb].
  unfold Server.normalizeMapping, Server.optionValueByVariant,
    Server.validIdSet, Set_of.
  unfold Server.cleanImageIds, Set_of. cbn -[String.eqb].
  repeat (first [rewrite H1 | rewrite H2]; cbn).
  reflexivity.
Qed.

(** C4 at a failing input: for a product whose first option has the value
    [mapping], the first normalisation of the legacy value
    [{"1111":["2222"]}] yields the entry [mapping: ["2222"]]; normalising
    that output again takes the entry for the [{mapping: ...}] wrapper,
    finds an array where it expects the map and returns no entry at all.
    This holds for any identifier normalisation that leaves [1111] and
    [2222] as they are. *)
Theorem normalizeProductMapping_loses_mapping_value :
  toNumericId (VStr "1111") = "1111" ->
  toNumericId (VStr "2222") = "2222" ->
  let normalize raw :=
    normalizeProductMapping raw Samples.layer_options
      Samples.one_mapping_variant ["2222"] in
  let once := {| mode := "option"; optionName := "Layer";
                 mapping := [("mapping", ["2222"])] |} in
  let twice := {| mode := "option"; optionName := "Layer"; mapping := [] |} in
  normalize Samples.legacy_raw = Ok once
  /\ normalize (value_of_mapping once) = Ok twice
  /\ twice <> once.
Proof.
  intros H1 H2 normalize once twice.
  split; [|split; [reflexivity | discriminate]].
  unfold once, normalize, Server.normalizeProductMapping.
  unfold Samples.legacy_raw, Samples.layer_options,
    Samples.one_mapping_variant.
  cbn -[String.eqb].
  unfold Server.normalizeMapping, Server.optionValueByVariant,
    Server.validIdSet, Set_of.
  unfold Server.cleanImageIds, Set_of. cbn -[String.eqb].
  repeat (first [rewrite H1 | rewrite H2]; cbn).
  reflexivity.
Qed.

(** *** Normalising a normalised mapping *)

Section Idempotence.

Hypothesis toNumericId_idempotent :
  forall v, toNumericId (VStr (toNumericId v)) = toNumericId v.

Variable vset iset : option (list string).

Local Abbreviation stable := (Props.stable_entry toNumericId vset iset).

Lemma fold_left_ind {A B} (P : A -> Prop) (f : A -> B -> A) (l : list B)
    (acc : A) :
  P acc -> (forall a b, In b l -> P a -> P (f a b)) ->
  P (fold_left f l acc).
Proof.
  revert acc. induction l as [|b l IH]; intros acc Hacc Hf; simpl;
    [assumption|].
  apply IH.
  - apply Hf; [now left | assumption].
  - intros a b' Hin. apply Hf. now right.
Qed.

Lemma filter_all {A} (p : A -> bool) (l : list A) :
  (forall x, In x l -> p x = true) -> filter p l = l.
Proof.
  induction l as [|x l IH]; simpl; intros H; [reflexivity|].
  rewrite (H x) by now left. rewrite IH; [reflexivity|].
  intros y Hy. apply H. now right.
Qed.

Lemma cleanImageIds_stable (ids : list string) :
  NoDup ids ->
  (forall i, In i ids ->
     nonempty i = true /\ allowed_by iset i = true
     /\ toNumericId (VStr i) = i) ->
  cleanImageIds iset (map VStr ids) = ids.
Proof.
  intros Hnd Hall. unfold Server.cleanImageIds.
  assert (Hmap : map toNumericId (map VStr ids) = ids).
  { rewrite map_map. rewrite <- (map_id ids) at 2.
    apply map_ext_in. intros i Hi. exact (proj2 (proj2 (Hall i Hi))). }
  rewrite Hmap.
  rewrite (filter_all nonempty ids)
    by (intros i Hi; exact (proj1 (Hall i Hi))).
  rewrite Set_of_NoDup_id by assumption.
  apply filter_all. intros i Hi. exact (proj1 (proj2 (Hall i Hi))).
Qed.

Lemma cleanImageIds_ids_stable (candidates : list value) (i : string) :
  In i (cleanImageIds iset candidates) ->
  nonempty i = true /\ allowed_by iset i = true /\ toNumericId (VStr i) = i.
Proof.
  intros H. apply cleanImageIds_In in H.
  destruct H as [Ha [Hne [v [_ Hv]]]]. repeat split.
  - now apply nonempty_true.
  - assumption.
  - rewrite <- Hv. apply toNumericId_idempotent.
Qed.

Lemma normalizeOptionMapping_step_stable
    (acc : obj (list string)) (k : string) (ids : list string) :
  stable (k, ids) ->
  normalizeOptionMapping_step toNumericId vset iset acc
    (k, VArr (map VStr ids))
  = obj_assign k ids acc.
Proof.
  intros [Hk [Ha [Hne [Hnd Hids]]]]. simpl in *.
  unfold normalizeOptionMapping_step. rewrite Hk, Ha. simpl.
  rewrite cleanImageIds_stable by assumption.
  destruct ids; [congruence | reflexivity].
Qed.

Lemma normalizeOptionMapping_step_keeps_stable
    (acc : obj (list string)) (entry : string * value) :
  Forall stable acc ->
  Forall stable (normalizeOptionMapping_step toNumericId vset iset acc entry).
Proof.
  intros Hacc. destruct entry as [k v]. unfold normalizeOptionMapping_step.
  destruct (nonempty k) eqn:Hk; simpl; [|assumption].
  destruct (allowed_by vset k) eqn:Ha; simpl; [|assumption].
  destruct (cleanImageIds iset (candidateImages v)) as [|i ids] eqn:Hc;
    [assumption|].
  apply Forall_obj_assign; [|assumption].
  repeat split; simpl; try assumption.
  - discriminate.
  - rewrite <- Hc. apply cleanImageIds_NoDup.
  - rewrite <- Hc in H. now apply cleanImageIds_ids_stable in H.
  - rewrite <- Hc in H. now apply cleanImageIds_ids_stable in H.
  - rewrite <- Hc in H. now apply cleanImageIds_ids_stable in H.
Qed.

Lemma normalizeOptionMapping_step_keys
    (acc : obj (list string)) (entry : string * value) :
  NoDup (obj_keys acc) /\ Props.ordered (obj_keys acc) ->
  NoDup (obj_keys
           (normalizeOptionMapping_step toNumericId vset iset acc entry))
  /\ Props.ordered
       (obj_keys (normalizeOptionMapping_step toNumericId vset iset acc entry)).
Proof.
  intros [Hnd Hord]. destruct entry as [k v].
  unfold normalizeOptionMapping_step.
  destruct (negb (nonempty k)); [now split|].
  destruct (negb (allowed_by vset k)); [now split|].
  destruct (cleanImageIds iset (candidateImages v)); [now split|].
  split; [now apply obj_keys_assign_NoDup | now apply ordered_assign].
Qed.

(** Reading a normalised table back entry by entry rebuilds it, a table
    filled by assignments having no entry [__proto__]. *)
Lemma refilter_table (table : obj (list string)) :
  Forall stable table ->
  NoDup (obj_keys table) -> Props.ordered (obj_keys table) ->
  ~ In "__proto__" (obj_keys table) ->
  fold_left (normalizeOptionMapping_step toNumericId vset iset)
            (map (fun e => (fst e, VArr (map VStr (snd e)))) table) []
  = table.
Proof.
  intros Hstable Hnd Hord Hproto.
  rewrite <- (obj_set_rebuild [] table Hnd Hord) at 2.
  generalize (@nil (string * list string)).
  induction table as [|[k ids] table IH]; intros acc; [reflexivity|].
  cbn [map fold_left fst snd].
  inversion Hstable as [|? ? Hk Hrest]; subst.
  rewrite normalizeOptionMapping_step_stable by assumption.
  rewrite obj_assign_set
    by (left; intros ->; apply Hproto; now left).
  apply IH.
  - assumption.
  - now inversion Hnd.
  - exact (proj2 Hord).
  - intros Hin. apply Hproto. now right.
Qed.

End Idempotence.

Section Renormalize.

Hypothesis toNumericId_idempotent :
  forall v, toNumericId (VStr (toNumericId v)) = toNumericId v.

Variable options : list ProductOption.
Variable variants : list Variant.
Variable imageIds : list string.

Local Abbreviation iset := (validIdSet imageIds).

(** A table without an entry spelled [mapping] whose entries are stable is a
    fixed point of the option-mapping normaliser. *)
Lemma normalizeOptionMapping_table (vals : list string)
    (table : obj (list string)) :
  obj_has "mapping" table = false ->
  obj_has "__proto__" table = false ->
  Forall (Props.stable_entry toNumericId (validValueSet vals) iset) table ->
  NoDup (obj_keys table) -> Props.ordered (obj_keys table) ->
  normalizeOptionMapping (value_of_table table) vals imageIds = table.
Proof.
  intros Hno Hproto Hstable Hnd Hord.
  unfold Server.normalizeOptionMapping, value_of_table.
  cbn [Server.safeParseJson]. unfold unwrap_source.
  cbn [truthy typeof_object prop andb].
  rewrite (obj_get_map (fun ids => VArr (map VStr ids))). unfold obj_has in Hno.
  destruct (obj_get "mapping" table); [discriminate|].
  cbn [option_map truthy].
  apply refilter_table; try assumption.
  rewrite <- obj_has_keys. congruence.
Qed.

Lemma normalizeOptionMapping_stable (raw : value) (vals : list string) :
  let out := normalizeOptionMapping raw vals imageIds in
  Forall (Props.stable_entry toNumericId (validValueSet vals) iset) out
  /\ NoDup (obj_keys out) /\ Props.ordered (obj_keys out).
Proof.
  unfold Server.normalizeOptionMapping.
  destruct (unwrap_source (safeParseJson raw (VObj [])));
    try (split; [constructor | split; [constructor | exact I]]).
  split.
  - apply fold_left_ind; [constructor|]. intros a b _.
    now apply normalizeOptionMapping_step_keeps_stable.
  - apply (fold_left_ind
             (fun a => NoDup (obj_keys a) /\ Props.ordered (obj_keys a))).
    + split; [constructor | exact I].
    + intros a b _. apply normalizeOptionMapping_step_keys.
Qed.

Lemma normalizeOptionMapping_no_proto (raw : value) (vals : list string) :
  obj_has "__proto__" (normalizeOptionMapping raw vals imageIds) = false.
Proof.
  unfold Server.normalizeOptionMapping.
  destruct (unwrap_source (safeParseJson raw (VObj []))); try reflexivity.
  apply fold_left_ind; [reflexivity|]. intros a [k v] _ Ha.
  unfold normalizeOptionMapping_step.
  destruct (negb (nonempty k)); [assumption|].
  destruct (negb (allowed_by (validValueSet vals) k)); [assumption|].
  destruct (cleanImageIds iset (candidateImages v)); [assumption|].
  now apply obj_assign_no_proto.
Qed.

(** **** The legacy branch *)

Local Abbreviation legacy_ok := (Props.legacy_ok toNumericId iset).

Lemma normalizeMapping_legacy_ok (raw : value) (variantIds : list string) :
  Forall legacy_ok (normalizeMapping raw variantIds imageIds).
Proof.
  unfold Server.normalizeMapping.
  destruct (unwrap_source (safeParseJson raw (VObj []))); try constructor.
  apply fold_left_ind; [constructor|]. intros a [k v] _ Ha.
  unfold normalizeMapping_step.
  destruct (negb (nonempty (toNumericId (VStr k)))); [assumption|].
  destruct (negb (allowed_by (validIdSet variantIds) (toNumericId (VStr k))));
    [assumption|].
  destruct (cleanImageIds iset (candidateImages v)) as [|i ids] eqn:Hc;
    [assumption|].
  apply Forall_obj_assign; [|assumption].
  split; cbn [snd]; [discriminate|].
  intros j Hj. rewrite <- Hc in Hj.
  now apply cleanImageIds_ids_stable in Hj.
Qed.

Lemma In_Map_set {A} (k k' : string) (v x : A) (m : obj A) :
  In (k', x) (Map_set k v m) -> (k' = k /\ x = v) \/ In (k', x) m.
Proof.
  unfold Map_set. destruct (obj_has k m).
  - apply In_obj_replace.
  - intros H. apply in_app_or in H. destruct H as [H|[H|[]]]; [now right|].
    injection H as <- <-. now left.
Qed.

Lemma optionValueByVariant_from_variant (optionName v optionValue : string) :
  Map_get v (optionValueByVariant toNumericId optionName variants)
  = Some (Some optionValue) ->
  exists variant selected,
    In variant variants
    /\ find (fun opt => String.eqb (so_name opt) optionName)
            (selectedOptions variant) = Some selected
    /\ so_value selected = optionValue.
Proof.
  intros H. apply obj_get_In in H. revert v optionValue H.
  unfold Server.optionValueByVariant.
  apply (fold_left_ind
           (fun m => forall v optionValue, In (v, Some optionValue) m ->
              exists variant selected,
                In variant variants
                /\ find (fun opt => String.eqb (so_name opt) optionName)
                        (selectedOptions variant) = Some selected
                /\ so_value selected = optionValue)).
  - intros v optionValue [].
  - intros m variant Hin Hm v optionValue H.
    apply In_Map_set in H. destruct H as [[_ H]|H]; [|eauto].
    destruct (find (fun opt => String.eqb (so_name opt) optionName)
                   (selectedOptions variant)) as [selected|] eqn:Hfind;
      [|discriminate].
    simpl in H. injection H as H. subst optionValue. eauto.
Qed.

Lemma migrate_step_stable (byVariant : obj (option string))
    (vset : option (list string)) (acc : obj (list string))
    (entry : string * list string) :
  (forall v optionValue, Map_get v byVariant = Some (Some optionValue) ->
     allowed_by vset optionValue = true) ->
  legacy_ok entry ->
  Forall (Props.stable_entry toNumericId vset iset) acc ->
  Forall (Props.stable_entry toNumericId vset iset)
         (Props.merged byVariant acc entry).
Proof.
  intros Hvals [Hne Hids] Hacc. destruct entry as [v lv]. simpl in *.
  unfold Props.merged.
  destruct (Map_get v byVariant) as [[w|]|] eqn:Hv; try assumption.
  destruct (nonempty w) eqn:Hw; simpl; [|assumption].
  apply Forall_obj_set; [|assumption].
  assert (Hnew : forall i, In i (Set_of (get_or_empty w acc ++ lv)) ->
            nonempty i = true /\ allowed_by iset i = true
            /\ toNumericId (VStr i) = i).
  { intros i H. rewrite Set_of_In in H.
    apply in_app_or in H. destruct H as [H|H]; [|now apply Hids].
    unfold get_or_empty in H.
    destruct (obj_get w acc) as [l|] eqn:Hl; [|destruct H].
    apply obj_get_In in Hl. rewrite Forall_forall in Hacc.
    destruct (Hacc _ Hl) as [_ [_ [_ [_ Hl']]]]. now apply Hl'. }
  split; [exact Hw|]. split; [now apply Hvals with v|].
  split; [|split; [apply Set_of_NoDup | exact Hnew]].
  cbn [snd]. intros E. apply Set_of_nil_inv in E.
  apply app_eq_nil in E. tauto.
Qed.

Lemma migrate_step_keys (byVariant : obj (option string))
    (acc : obj (list string)) (entry : string * list string) :
  NoDup (obj_keys acc) /\ Props.ordered (obj_keys acc) ->
  NoDup (obj_keys (Props.merged byVariant acc entry))
  /\ Props.ordered (obj_keys (Props.merged byVariant acc entry)).
Proof.
  intros [Hnd Hord]. destruct entry as [v lv]. unfold Props.merged.
  destruct (Map_get v byVariant) as [[w|]|]; try now split.
  destruct (negb (nonempty w)); [now split|].
  split; [now apply obj_keys_set_NoDup | now apply ordered_set].
Qed.

(** Second pass over a value in the canonical shape. *)
Lemma normalizeProductMapping_canonical (m : ProductMapping) :
  mode m = "option" ->
  normalizeProductMapping (value_of_mapping m) options variants imageIds
  = let optionName :=
      if has_option_named options (VStr (optionName m))
      then optionName m else fallbackOptionName options in
    Ok {| mode := "option";
          optionName := optionName;
          mapping :=
            normalizeOptionMapping (value_of_table (mapping m))
              (optionValuesOf options optionName) imageIds |}.
Proof.
  intros Hmode. unfold Server.normalizeProductMapping, value_of_mapping.
  cbn [Server.safeParseJson]. unfold is_option_mode.
  cbn -[String.eqb has_option_named value_of_table].
  rewrite Hmode. reflexivity.
Qed.

Lemma fallback_is_stable :
  (if has_option_named options (VStr (fallbackOptionName options))
   then fallbackOptionName options else fallbackOptionName options)
  = fallbackOptionName options.
Proof. destruct (has_option_named options _); reflexivity. Qed.

(** Outside the one defect (an entry whose option value is spelled
    [mapping]) a second normalisation changes nothing: for an identifier
    normalisation that is idempotent and a product whose variants carry
    declared values, the output is a fixed point. *)
Lemma normalizeProductMapping_fixed_point (raw : value)
    (once : ProductMapping) :
  normalizeProductMapping raw options variants imageIds = Ok once ->
  obj_has "mapping" (mapping once) = false ->
  Props.consistent_product options variants ->
  normalizeProductMapping (value_of_mapping once) options variants imageIds
  = Ok once.
Proof.
  intros Honce Hno Hcons.
  assert (Hmode : mode once = "option").
  { revert Honce. unfold Server.normalizeProductMapping.
    destruct (is_option_mode (safeParseJson raw (VObj [])));
      [now intros [= <-]|].
    destruct (migrate _ _ _); [now intros [= <-] | discriminate]. }
  rewrite (normalizeProductMapping_canonical once Hmode).
  revert Honce Hno. unfold Server.normalizeProductMapping.
  destruct (is_option_mode (safeParseJson raw (VObj []))) eqn:Hopt.
  - intros [= <-]. cbn [mode optionName mapping]. intros Hno.
    set (name := match prop (safeParseJson raw (VObj [])) "optionName" with
                 | VStr s => if has_option_named options (VStr s) then s
                             else fallbackOptionName options
                 | _ => fallbackOptionName options
                 end).
    assert (Hname : (if has_option_named options (VStr name) then name
                     else fallbackOptionName options) = name).
    { unfold name.
      destruct (prop (safeParseJson raw (VObj [])) "optionName");
        try apply fallback_is_stable.
      destruct (has_option_named options (VStr s)) eqn:Hs.
      - now rewrite Hs.
      - apply fallback_is_stable. }
    cbv zeta. rewrite Hname. do 2 f_equal.
    fold name in Hno.
    destruct (normalizeOptionMapping_stable
                (coalesce (prop (safeParseJson raw (VObj [])) "mapping")
                          (VObj []))
                (optionValuesOf options name)) as [Hst [Hnd Hord]].
    apply normalizeOptionMapping_table; try assumption.
    apply normalizeOptionMapping_no_proto.
  - set (byVariant := optionValueByVariant toNumericId
                        (fallbackOptionName options) variants) in *.
    set (legacy := normalizeMapping (safeParseJson raw (VObj []))
                                    (map id variants) imageIds) in *.
    destruct (migrate byVariant legacy []) as [res|] eqn:Hres;
      [|discriminate].
    cbn [bind]. intros [= <-]. cbn [mode optionName mapping]. intros Hno.
    cbv zeta. rewrite fallback_is_stable. do 2 f_equal.
    assert (Hproto : obj_has "__proto__" res = false)
      by now apply (migrate_no_proto byVariant legacy []).
    apply migrate_Ok in Hres. subst res.
    assert (Hlegacy : Forall legacy_ok legacy)
      by apply normalizeMapping_legacy_ok.
    assert (Hvals : forall v optionValue,
              Map_get v byVariant = Some (Some optionValue) ->
              allowed_by
                (validValueSet
                   (optionValuesOf options (fallbackOptionName options)))
                optionValue = true).
    { intros v optionValue Hv.
      apply optionValueByVariant_from_variant in Hv.
      destruct Hv as [variant [selected [Hin [Hfind <-]]]].
      exact (Hcons variant selected Hin Hfind). }
    apply normalizeOptionMapping_table; [assumption | assumption | | |].
    + apply fold_left_ind; [constructor|].
      intros a b Hb Ha. apply migrate_step_stable; try assumption.
      rewrite Forall_forall in Hlegacy. now apply Hlegacy.
    + apply (fold_left_ind
               (fun a => NoDup (obj_keys a) /\ Props.ordered (obj_keys a))).
      * split; [constructor | exact I].
      * intros a b _. apply migrate_step_keys.
    + apply (fold_left_ind
               (fun a => NoDup (obj_keys a) /\ Props.ordered (obj_keys a))).
      * split; [constructor | exact I].
      * intros a b _. apply migrate_step_keys.
Qed.

End Renormalize.

End Facts.

End ServerFacts.

(* ===================================================================== *)
(** ** The storefront script *)
(* ===================================================================== *)

Module FilenameFacts.

Import Storefront Props.

Local Open Scope string_scope.

Lemma append_assoc (a b c : string) : (a ++ b) ++ c = a ++ (b ++ c).
Proof. induction a as [|x a IH]; simpl; [reflexivity | now rewrite IH]. Qed.

Lemma append_nil_r (a : string) : a ++ "" = a.
Proof. induction a as [|x a IH]; simpl; [reflexivity | now rewrite IH]. Qed.

Lemma no_char_app (c : ascii) (a b : string) :
  no_char c (a ++ b) = no_char c a && no_char c b.
Proof.
  induction a as [|x a IH]; simpl; [reflexivity|].
  rewrite IH. now rewrite andb_assoc.
Qed.

Lemma no_dot_no_char (s : string) : no_dot s = no_char "." s.
Proof. induction s as [|x s IH]; simpl; [reflexivity | now rewrite IH]. Qed.

Lemma all_digits_no_char (c : ascii) (d : string) :
  is_digit c = false -> all_digits d = true -> no_char c d = true.
Proof.
  intros Hc. induction d as [|x d IH]; simpl; [reflexivity|].
  intros H. apply andb_true_iff in H. destruct H as [Hx Hd].
  rewrite (IH Hd), andb_true_r. apply negb_true_iff.
  destruct (Ascii.eqb_spec x c); [congruence | reflexivity].
Qed.

(** *** [split] *)

Lemma split_first_whole (sep : ascii) (a : string) :
  no_char sep a = true -> split_first sep a = a.
Proof.
  induction a as [|x a IH]; simpl; [reflexivity|].
  intros H. apply andb_true_iff in H. destruct H as [Hx Ha].
  apply negb_true_iff in Hx. rewrite Hx. now rewrite IH.
Qed.

Lemma split_first_app (sep : ascii) (a b : string) :
  no_char sep a = true -> split_first sep (a ++ String sep b) = a.
Proof.
  induction a as [|x a IH]; simpl.
  - intros _. now rewrite Ascii.eqb_refl.
  - intros H. apply andb_true_iff in H. destruct H as [Hx Ha].
    apply negb_true_iff in Hx. rewrite Hx. now rewrite IH.
Qed.

Lemma split_pop_from_whole (sep : ascii) (b current : string) :
  no_char sep b = true -> split_pop_from sep b current = current ++ b.
Proof.
  revert current. induction b as [|x b IH]; simpl; intros current H.
  - now rewrite append_nil_r.
  - apply andb_true_iff in H. destruct H as [Hx Hb].
    apply negb_true_iff in Hx. rewrite Hx, IH by assumption.
    now rewrite append_assoc.
Qed.

Lemma split_pop_from_app (sep : ascii) (a b current : string) :
  split_pop_from sep (a ++ String sep b) current = split_pop_from sep b "".
Proof.
  revert current. induction a as [|x a IH]; simpl; intros current.
  - now rewrite Ascii.eqb_refl.
  - destruct (Ascii.eqb x sep); apply IH.
Qed.

Lemma split_pop_app (sep : ascii) (a b : string) :
  no_char sep b = true -> split_pop sep (a ++ String sep b) = b.
Proof.
  intros H. unfold split_pop.
  rewrite split_pop_from_app, split_pop_from_whole by assumption.
  reflexivity.
Qed.

(** *** The size suffix *)

Lemma skip_digits_app (d r : string) :
  all_digits d = true -> skip_digits (d ++ r) = skip_digits r.
Proof.
  induction d as [|x d IH]; simpl; [reflexivity|].
  intros H. apply andb_true_iff in H. destruct H as [Hx Hd].
  rewrite Hx. auto.
Qed.

Lemma skip_digits_split (r : string) :
  exists d, all_digits d = true /\ r = d ++ skip_digits r.
Proof.
  induction r as [|x r [d [Hd Hr]]]; simpl.
  - exists "". auto.
  - destruct (is_digit x) eqn:Hx.
    + exists (String x d). simpl. rewrite Hx, Hd. split; [reflexivity|].
      now rewrite <- Hr.
    + exists "". auto.
Qed.

(** The pattern matches a well-formed suffix and captures its extension. *)
Lemma match_size_suffix_here (w h ext : string) :
  all_digits w = true -> all_digits h = true ->
  ext <> "" -> no_char "." ext = true ->
  match_size_suffix ("_" ++ w ++ "x" ++ h ++ "." ++ ext) = Some ext.
Proof.
  intros Hw Hh Hne Hdot. unfold match_size_suffix. simpl.
  rewrite skip_digits_app by assumption. simpl.
  rewrite skip_digits_app by assumption. simpl.
  rewrite no_dot_no_char, Hdot.
  apply String.eqb_neq in Hne. now rewrite Hne.
Qed.

(** A text that lies before [c] in [u ++ c :: rest] and holds no [c] leaves
    [c :: rest] inside what follows it. *)
Lemma first_occurrence_after (c : ascii) (p u rest e : string) :
  no_char c p = true ->
  u ++ String c rest = p ++ e ->
  exists e1, e = e1 ++ String c rest.
Proof.
  revert u. induction p as [|a p IH]; simpl; intros u Hp Heq.
  - exists u. now symmetry.
  - apply andb_true_iff in Hp. destruct Hp as [Ha Hp].
    apply negb_true_iff in Ha.
    destruct u as [|b u]; simpl in Heq.
    + injection Heq as Hc _. subst a. now rewrite Ascii.eqb_refl in Ha.
    + injection Heq as _ Heq. eauto.
Qed.

(** No earlier position matches: what the pattern would capture there
    contains the dot of the real extension. *)
Lemma match_size_suffix_earlier (c : ascii) (t w h ext : string) :
  match_size_suffix (String c (t ++ "_" ++ w ++ "x" ++ h ++ "." ++ ext)) = None.
Proof.
  unfold match_size_suffix.
  destruct (Ascii.eqb_spec c "_") as [->|Hc].
  2:{ destruct c as [[] [] [] [] [] [] [] []]; try reflexivity.
      now contradiction Hc. }
  set (r := t ++ "_" ++ w ++ "x" ++ h ++ "." ++ ext).
  destruct (skip_digits_split r) as [d1 [Hd1 Hr]].
  destruct (skip_digits r) as [|x r2] eqn:E1; [reflexivity|].
  destruct (Ascii.eqb_spec x "x") as [->|Hx].
  2:{ destruct x as [[] [] [] [] [] [] [] []]; try reflexivity.
      now contradiction Hx. }
  destruct (skip_digits_split r2) as [d2 [Hd2 Hr2]].
  destruct (skip_digits r2) as [|y e] eqn:E2; [reflexivity|].
  destruct (Ascii.eqb_spec y ".") as [->|Hy].
  2:{ destruct y as [[] [] [] [] [] [] [] []]; try reflexivity.
      now contradiction Hy. }
  assert (Hdot : no_dot e = false).
  { assert (Heq : t ++ String "_" (w ++ "x" ++ h ++ "." ++ ext)
                  = (d1 ++ "x" ++ d2 ++ ".") ++ e).
    { unfold r in Hr. simpl in Hr |- *. rewrite Hr, Hr2.
      rewrite append_assoc. simpl. rewrite append_assoc. reflexivity. }
    apply first_occurrence_after in Heq.
    - destruct Heq as [e1 ->].
      rewrite no_dot_no_char.
      repeat (rewrite no_char_app; simpl).
      rewrite !andb_false_r. reflexivity.
    - rewrite !no_char_app. simpl.
      rewrite (all_digits_no_char "_" d1), (all_digits_no_char "_" d2)
        by (assumption || reflexivity).
      reflexivity. }
  rewrite Hdot, andb_false_r. reflexivity.
Qed.

Lemma replace_size_suffix_strips (stem w h ext : string) :
  all_digits w = true -> all_digits h = true ->
  ext <> "" -> no_char "." ext = true ->
  replace_size_suffix (stem ++ "_" ++ w ++ "x" ++ h ++ "." ++ ext)
  = stem ++ "." ++ ext.
Proof.
  intros Hw Hh Hne Hdot. induction stem as [|c stem IH].
  - change ("" ++ "_" ++ w ++ "x" ++ h ++ "." ++ ext)
      with ("_" ++ w ++ "x" ++ h ++ "." ++ ext).
    pose proof (match_size_suffix_here w h ext Hw Hh Hne Hdot) as Hm.
    simpl in Hm |- *. unfold replace_size_suffix. simpl.
    destruct w; simpl in *; rewrite Hm; reflexivity.
  - change (String c stem ++ "_" ++ w ++ "x" ++ h ++ "." ++ ext)
      with (String c (stem ++ "_" ++ w ++ "x" ++ h ++ "." ++ ext)).
    cbn [replace_size_suffix].
    rewrite match_size_suffix_earlier. rewrite IH. reflexivity.
Qed.

Lemma append_cons_nonempty (a b : string) (c : ascii) :
  String.eqb (a ++ String c b) "" = false.
Proof. destruct a; reflexivity. Qed.

(** The query and the directories are dropped before the suffix is. *)
Lemma baseFilename_of_name (dir name tail : string) :
  no_char "?" dir = true -> no_char "?" name = true ->
  no_char "/" name = true ->
  tail = "" \/ (exists q, tail = String "?" q) ->
  baseFilename (dir ++ String "/" (name ++ tail)) = replace_size_suffix name.
Proof.
  intros Hd Hq Hs Htail. unfold baseFilename.
  rewrite append_cons_nonempty.
  assert (Hpath : split_first "?" (dir ++ String "/" (name ++ tail))
                  = dir ++ String "/" name).
  { destruct Htail as [->|[q ->]].
    - rewrite append_nil_r. apply split_first_whole.
      rewrite no_char_app. simpl. now rewrite Hd, Hq.
    - replace (dir ++ String "/" (name ++ String "?" q))
        with ((dir ++ String "/" name) ++ String "?" q)
        by (rewrite append_assoc; reflexivity).
      apply split_first_app.
      rewrite no_char_app. simpl. now rewrite Hd, Hq. }
  rewrite Hpath. now rewrite split_pop_app.
Qed.

(** C8: for a URL made of directories, a file name
    [stem_WxH.ext] (both numbers optional) and possibly a query, the base
    filename is [stem.ext]: the query is stripped, the last path segment is
    taken and the size suffix before the extension is removed.  In
    particular [dir/a_800x.jpg?v=2] and [dir/a_400x600.jpg] both give
    [a.jpg]. *)
Theorem baseFilename_identity (dir stem w h ext query : string) :
  no_char "?" dir = true ->
  no_char "?" stem = true -> no_char "/" stem = true ->
  all_digits w = true -> all_digits h = true ->
  ext <> "" -> no_char "." ext = true ->
  no_char "/" ext = true -> no_char "?" ext = true ->
  baseFilename
    (dir ++ "/" ++ stem ++ "_" ++ w ++ "x" ++ h ++ "." ++ ext ++ "?" ++ query)
  = stem ++ "." ++ ext
  /\ baseFilename (dir ++ "/" ++ stem ++ "_" ++ w ++ "x" ++ h ++ "." ++ ext)
     = stem ++ "." ++ ext
  /\ baseFilename (dir ++ "/a_800x.jpg?v=2") = "a.jpg"
  /\ baseFilename (dir ++ "/a_400x600.jpg") = "a.jpg".
Proof.
  intros Hd Hsq Hss Hw Hh Hne Hdot Hes Heq.
  set (name := stem ++ "_" ++ w ++ "x" ++ h ++ "." ++ ext).
  assert (Hnq : no_char "?" name = true).
  { unfold name. repeat (rewrite no_char_app; simpl).
    rewrite Hsq, Heq, (all_digits_no_char "?" w), (all_digits_no_char "?" h)
      by (assumption || reflexivity).
    reflexivity. }
  assert (Hns : no_char "/" name = true).
  { unfold name. repeat (rewrite no_char_app; simpl).
    rewrite Hss, Hes, (all_digits_no_char "/" w), (all_digits_no_char "/" h)
      by (assumption || reflexivity).
    reflexivity. }
  repeat split.
  - replace (dir ++ "/" ++ stem ++ "_" ++ w ++ "x" ++ h ++ "." ++ ext
               ++ "?" ++ query)
      with (dir ++ String "/" (name ++ String "?" query)).
    + rewrite (baseFilename_of_name dir name (String "?" query) Hd Hnq Hns)
        by (right; now exists query).
      now apply replace_size_suffix_strips.
    + unfold name. simpl. rewrite !append_assoc. simpl.
      rewrite !append_assoc. simpl. rewrite !append_assoc. reflexivity.
  - replace (dir ++ "/" ++ name) with (dir ++ String "/" (name ++ "")).
    + rewrite (baseFilename_of_name dir name "" Hd Hnq Hns) by now left.
      now apply replace_size_suffix_strips.
    + now rewrite append_nil_r.
  - change (dir ++ "/a_800x.jpg?v=2")
      with (dir ++ String "/" ("a_800x.jpg" ++ String "?" "v=2")).
    rewrite (baseFilename_of_name dir "a_800x.jpg" (String "?" "v=2") Hd)
      by (reflexivity || (right; now exists "v=2")).
    reflexivity.
  - change (dir ++ "/a_400x600.jpg")
      with (dir ++ String "/" ("a_400x600.jpg" ++ "")).
    rewrite (baseFilename_of_name dir "a_400x600.jpg" "" Hd)
      by (reflexivity || now left).
    reflexivity.
Qed.

End FilenameFacts.

(* ===================================================================== *)
(** ** The extension's [toNumericId] *)
(* ===================================================================== *)

Module IdsFacts.

Import Props FilenameFacts.

Lemma split_pop_from_no_sep (sep : ascii) (s current : string) :
  no_char sep current = true ->
  no_char sep (split_pop_from sep s current) = true.
Proof.
  revert current. induction s as [|c s IH]; intros current H; simpl;
    [assumption|].
  destruct (Ascii.eqb c sep) eqn:E; apply IH; [reflexivity|].
  rewrite no_char_app, H. simpl. now rewrite E.
Qed.

(** The last segment of a text holds no separator, so taking the last
    segment again changes nothing. *)
Lemma toNumericId_idempotent (v : value) :
  Ids.toNumericId (VStr (Ids.toNumericId v)) = Ids.toNumericId v.
Proof.
  unfold Ids.toNumericId at 1. cbn [truthy ToString]. rewrite negb_involutive.
  destruct (String.eqb_spec (Ids.toNumericId v) "") as [E|_].
  - now rewrite E.
  - unfold split_pop. rewrite split_pop_from_whole; [reflexivity|].
    unfold Ids.toNumericId. destruct (negb (truthy v)); [reflexivity|].
    now apply split_pop_from_no_sep.
Qed.

End IdsFacts.

(* ===================================================================== *)
(** ** The assign-images handlers *)
(* ===================================================================== *)

Module AssignFacts.

Import AssignImages JSFacts Props.

Lemma without_In (imageId x : string) (l : list string) :
  In x (without imageId l) <-> In x l /\ x <> imageId.
Proof.
  unfold without. rewrite filter_In, negb_true_iff, String.eqb_neq. tauto.
Qed.

Lemma get_or_empty_Some (k : string) (m : obj (list string)) (l : list string) :
  obj_get k m = Some l -> get_or_empty k m = l.
Proof. unfold get_or_empty. now intros ->. Qed.

Section Sweep.

(** Both handlers walk over the keys and rewrite every list but the active
    one with a filter [g]. *)
Variable active : string.
Variable g : list string -> list string.
Variable step : obj (list string) -> string -> obj (list string).

Hypothesis g_idempotent : forall l, g (g l) = g l.
Hypothesis step_eq : forall next key,
  step next key =
  if String.eqb key active then next
  else obj_set key (g (get_or_empty key next)) next.

Lemma sweep_get (keys : list string) (m : obj (list string)) (k : string) :
  obj_get k (fold_left step keys m) =
  if includes k keys && negb (String.eqb k active)
  then Some (g (get_or_empty k m))
  else obj_get k m.
Proof.
  revert m. induction keys as [|key keys IH]; intros m; simpl; [reflexivity|].
  rewrite IH, step_eq. unfold get_or_empty.
  destruct (String.eqb key active) eqn:Hkey.
  - apply String.eqb_eq in Hkey.
    destruct (String.eqb k active) eqn:Hk.
    + now rewrite !andb_false_r.
    + rewrite Hkey, Hk. reflexivity.
  - rewrite obj_get_set.
    destruct (String.eqb k key) eqn:Hk; simpl; [|reflexivity].
    apply String.eqb_eq in Hk. rewrite Hk, Hkey. simpl.
    rewrite g_idempotent. destruct (includes key keys); reflexivity.
Qed.

End Sweep.

Lemma without_idempotent (imageId : string) (l : list string) :
  without imageId (without imageId l) = without imageId l.
Proof.
  unfold without. induction l as [|x l IH]; simpl; [reflexivity|].
  destruct (negb (String.eqb x imageId)) eqn:E; simpl; [rewrite E|];
    now rewrite IH.
Qed.

Lemma filter_idempotent {A} (p : A -> bool) (l : list A) :
  filter p (filter p l) = filter p l.
Proof.
  induction l as [|x l IH]; simpl; [reflexivity|].
  destruct (p x) eqn:E; simpl; [rewrite E|]; now rewrite IH.
Qed.

Lemma includes_keys (k : string) (m : obj (list string)) :
  includes k (obj_keys m) = obj_has k m.
Proof.
  destruct (obj_has k m) eqn:E.
  - apply includes_In. now apply obj_has_keys.
  - destruct (includes k (obj_keys m)) eqn:E'; [|reflexivity].
    apply includes_In, obj_has_keys in E'. congruence.
Qed.

(** *** Reads of the state *)

Lemma includes_chars (x s : string) :
  includes x (chars s) = true -> str_includes x s = true.
Proof.
  unfold chars. induction s as [|c s IH]; cbn [list_ascii_of_string map];
    [discriminate|].
  unfold includes. cbn [existsb]. fold (includes x (map char_string
                                                 (list_ascii_of_string s))).
  intros H. apply orb_true_iff in H. cbn [str_includes].
  apply orb_true_iff. destruct H as [H|H].
  - left. apply String.eqb_eq in H. subst x. unfold char_string.
    cbn [String.prefix]. destruct (ascii_dec c c) as [_|Hc]; [|congruence].
    destruct s; reflexivity.
  - right. now apply IH.
Qed.

Lemma read_own (k : string) (mapping : MappingState) (l : list string) :
  obj_get k (entries mapping) = Some l -> read k mapping = Identifiers l.
Proof. unfold read. now intros ->. Qed.

Lemma read_Identifiers (k : string) (mapping : MappingState)
    (l : list string) :
  read k mapping = Identifiers l <->
  obj_get k (entries mapping) = Some l
  \/ (obj_get k (entries mapping) = None
      /\ k = "__proto__" /\ prototype mapping = Some l).
Proof.
  unfold read. destruct (obj_get k (entries mapping)) as [l0|].
  - split; [intros H; left; congruence|].
    intros [H|[H _]]; congruence.
  - destruct (prototype mapping) as [ids|].
    + destruct (String.eqb_spec k "__proto__") as [->|Hk].
      * split; [intros H; right; repeat split; congruence|].
        intros [H|[_ [_ H]]]; congruence.
      * split.
        -- destruct (array_index k) as [i|].
           ++ destruct (nth_error ids (N.to_nat i)); discriminate.
           ++ destruct (String.eqb k "length" || includes k Array_prototype
                        || includes k Object_prototype); discriminate.
        -- intros [H|[_ [H _]]]; [discriminate | contradiction].
    + split.
      * destruct (includes k Object_prototype); discriminate.
      * intros [H|[_ [_ H]]]; discriminate.
Qed.

Lemma read_plain (k : string) (m : obj (list string)) (l : list string) :
  read k (plain m) = Identifiers l <-> obj_get k m = Some l.
Proof.
  rewrite read_Identifiers. cbn [plain entries prototype].
  split; [intros [H|[_ [_ H]]]; [assumption | discriminate] | now left].
Qed.

Lemma exclusive_plain (m : obj (list string)) :
  exclusive (plain m) <-> unshared m.
Proof.
  split; intros H k1 k2 l1 l2 x Hk H1 H2.
  - apply (H k1 k2 l1 l2 x Hk); now apply read_plain.
  - apply read_plain in H1, H2. now apply (H k1 k2 l1 l2 x Hk).
Qed.

Lemma exclusive_entries (mapping : MappingState) :
  exclusive mapping -> unshared (entries mapping).
Proof.
  intros H k1 k2 l1 l2 x Hk H1 H2.
  apply (H k1 k2 l1 l2 x Hk); now apply read_own.
Qed.

(** *** The click *)

(** A click on a tile, for a non-empty active value: it throws when the
    active value stands for no list, and otherwise leaves a plain state
    with the entries [Props.toggled]. *)
Lemma toggleImage_outcome (allowSharedImages : bool)
    (active imageId : string) (prev : MappingState) :
  active <> "" ->
  toggleImage allowSharedImages (Some active) imageId prev
  = match current_list imageId (read active prev) with
    | Some current =>
        Ok (plain (toggled allowSharedImages active imageId current
                           (entries prev)))
    | None => TypeError
    end.
Proof.
  intros Hne. unfold toggleImage, toggled, current_list.
  apply String.eqb_neq in Hne. rewrite Hne.
  destruct (read active prev) as [l|t| |].
  - cbn [bind].
    destruct (negb allowSharedImages && negb (includes imageId l));
      reflexivity.
  - destruct (str_includes imageId t) eqn:Hinc; [reflexivity|].
    assert (Hsel : includes imageId (chars t) = false).
    { destruct (includes imageId (chars t)) eqn:E; [|reflexivity].
      apply includes_chars in E. congruence. }
    rewrite Hsel. cbn [bind].
    destruct (negb allowSharedImages && negb false); reflexivity.
  - reflexivity.
  - cbn [bind].
    change (includes imageId []) with false.
    destruct (negb allowSharedImages && negb false); reflexivity.
Qed.

Lemma toggleImage_throws (allowSharedImages : bool)
    (active imageId : string) (prev : MappingState) :
  active <> "" ->
  toggleImage allowSharedImages (Some active) imageId prev = TypeError
  <-> read active prev = NoArray
      \/ exists t, read active prev = Text t
                   /\ str_includes imageId t = true.
Proof.
  intros Hne. rewrite toggleImage_outcome by assumption.
  unfold current_list. destruct (read active prev) as [l|t| |].
  - split; [discriminate|]. intros [H|[t [H _]]]; discriminate.
  - destruct (str_includes imageId t) eqn:Hinc.
    + split; [|reflexivity]. intros _. right. now exists t.
    + split; [discriminate|].
      intros [H|[t' [H H']]]; [discriminate|]. congruence.
  - split; [now left | reflexivity].
  - split; [discriminate|]. intros [H|[t [H _]]]; discriminate.
Qed.

Lemma toggleImage_returns (allowSharedImages : bool)
    (active imageId : string) (prev next : MappingState) :
  active <> "" ->
  toggleImage allowSharedImages (Some active) imageId prev = Ok next ->
  exists current,
    current_list imageId (read active prev) = Some current
    /\ next = plain (toggled allowSharedImages active imageId current
                             (entries prev)).
Proof.
  intros Hne. rewrite toggleImage_outcome by assumption.
  destruct (current_list imageId (read active prev)) as [current|];
    [|discriminate].
  intros H. exists current. split; congruence.
Qed.

(** The entries after a click that adds [imageId] to [active], sharing
    switched off. *)
Lemma toggleImage_add_get (active imageId : string) (current : list string)
    (prev : obj (list string)) (k : string) :
  includes imageId current = false ->
  obj_get k (toggled false active imageId current prev) =
  if String.eqb k active
  then Some (current ++ [imageId])
  else option_map (without imageId) (obj_get k prev).
Proof.
  intros Hsel. unfold toggled. rewrite Hsel. simpl.
  rewrite (sweep_get active (without imageId)).
  - rewrite includes_keys. unfold obj_has, get_or_empty.
    rewrite !obj_get_set.
    destruct (String.eqb k active); simpl; [reflexivity|].
    destruct (obj_get k prev); reflexivity.
  - apply without_idempotent.
  - reflexivity.
Qed.

Lemma toggleImage_remove_get (active imageId : string)
    (current : list string) (prev : obj (list string)) (k : string) :
  includes imageId current = true ->
  obj_get k (toggled false active imageId current prev) =
  if String.eqb k active
  then Some (without imageId current)
  else obj_get k prev.
Proof.
  intros Hsel. unfold toggled. rewrite Hsel. simpl.
  apply obj_get_set.
Qed.

(** A list read for the active value holds the image, or the click does
    not find the image in what it read. *)
Lemma current_list_absent (active imageId : string) (prev : MappingState)
    (current : list string) :
  current_list imageId (read active prev) = Some current ->
  (forall l, read active prev = Identifiers l -> ~ In imageId l) ->
  includes imageId current = false.
Proof.
  unfold current_list. intros Hcur Hsel.
  destruct (read active prev) as [l|t| |].
  - injection Hcur as <-. destruct (includes imageId l) eqn:E;
      [|reflexivity].
    apply includes_In in E. now destruct (Hsel l eq_refl).
  - destruct (str_includes imageId t) eqn:Hinc; [discriminate|].
    injection Hcur as <-.
    destruct (includes imageId (chars t)) eqn:E; [|reflexivity].
    apply includes_chars in E. congruence.
  - discriminate.
  - now injection Hcur as <-.
Qed.

Lemma toggled_unshared (active imageId : string) (current : list string)
    (prev : obj (list string)) :
  unshared prev ->
  (forall k l x, k <> active -> obj_get k prev = Some l ->
                 In x current -> ~ In x l) ->
  unshared (toggled false active imageId current prev).
Proof.
  intros Hex Hcur k1 k2 l1 l2 x Hk H1 H2 Hx1 Hx2.
  destruct (includes imageId current) eqn:Hsel.
  - rewrite toggleImage_remove_get in H1, H2 by assumption.
    destruct (String.eqb_spec k1 active) as [->|Hk1];
      destruct (String.eqb_spec k2 active) as [->|Hk2]; try congruence.
    + injection H1 as <-. apply without_In in Hx1. destruct Hx1 as [Hx1 _].
      exact (Hcur k2 l2 x Hk2 H2 Hx1 Hx2).
    + injection H2 as <-. apply without_In in Hx2. destruct Hx2 as [Hx2 _].
      exact (Hcur k1 l1 x Hk1 H1 Hx2 Hx1).
    + exact (Hex k1 k2 l1 l2 x Hk H1 H2 Hx1 Hx2).
  - rewrite toggleImage_add_get in H1, H2 by assumption.
    destruct (String.eqb_spec k1 active) as [->|Hk1];
      destruct (String.eqb_spec k2 active) as [->|Hk2]; try congruence.
    + injection H1 as <-.
      destruct (obj_get k2 prev) as [l2'|] eqn:H2'; [|discriminate].
      injection H2 as <-. apply without_In in Hx2.
      destruct Hx2 as [Hx2 Hxne].
      apply in_app_or in Hx1. destruct Hx1 as [Hx1|[Hx1|[]]]; [|congruence].
      exact (Hcur k2 l2' x Hk2 H2' Hx1 Hx2).
    + injection H2 as <-.
      destruct (obj_get k1 prev) as [l1'|] eqn:H1'; [|discriminate].
      injection H1 as <-. apply without_In in Hx1.
      destruct Hx1 as [Hx1 Hxne].
      apply in_app_or in Hx2. destruct Hx2 as [Hx2|[Hx2|[]]]; [|congruence].
      exact (Hcur k1 l1' x Hk1 H1' Hx2 Hx1).
    + destruct (obj_get k1 prev) as [l1'|] eqn:H1'; [|discriminate].
      destruct (obj_get k2 prev) as [l2'|] eqn:H2'; [|discriminate].
      injection H1 as <-. injection H2 as <-.
      apply without_In in Hx1, Hx2.
      exact (Hex k1 k2 l1' l2' x Hk H1' H2' (proj1 Hx1) (proj1 Hx2)).
Qed.

(** *** Select all *)

Lemma selectAll_swept (active : string) (allIds : list string)
    (m : obj (list string)) (k : string) :
  obj_get k
    (fold_left
       (fun next key =>
          if negb (String.eqb key active)
          then obj_set key
                 (filter (fun id => negb (includes id allIds))
                         (get_or_empty key next))
                 next
          else next)
       (obj_keys m) m)
  = if String.eqb k active then obj_get k m
    else option_map (filter (fun id => negb (includes id allIds)))
                    (obj_get k m).
Proof.
  set (g := filter (fun id => negb (includes id allIds))).
  rewrite (sweep_get active g).
  - rewrite includes_keys. unfold obj_has, get_or_empty.
    destruct (String.eqb k active); [now rewrite andb_false_r|].
    rewrite andb_true_r. destruct (obj_get k m); reflexivity.
  - apply filter_idempotent.
  - intros n key. destruct (String.eqb key active); reflexivity.
Qed.

Lemma selectAll_entries (active : string) (allIds : list string)
    (mapping : MappingState) (k : string) :
  active <> "" ->
  obj_get k (entries (selectAll false (Some active) allIds mapping)) =
  if String.eqb k active
  then if String.eqb active "__proto__"
          && negb (obj_has active (entries mapping))
       then None else Some allIds
  else option_map (filter (fun id => negb (includes id allIds)))
                  (obj_get k (entries mapping)).
Proof.
  intros Hne. unfold selectAll.
  apply String.eqb_neq in Hne. rewrite Hne. cbn [negb].
  set (next := fold_left _ (obj_keys (entries mapping)) (entries mapping)).
  assert (Hnext : forall k', obj_get k' next =
            if String.eqb k' active then obj_get k' (entries mapping)
            else option_map (filter (fun id => negb (includes id allIds)))
                            (obj_get k' (entries mapping)))
    by (intros k'; apply selectAll_swept).
  assert (Hactive : obj_has active next = obj_has active (entries mapping))
    by (unfold obj_has; now rewrite Hnext, String.eqb_refl).
  rewrite Hactive.
  destruct (String.eqb active "__proto__"
            && negb (obj_has active (entries mapping))) eqn:Hnoop.
  - cbn [entries]. rewrite Hnext.
    destruct (String.eqb_spec k active) as [->|_]; [|reflexivity].
    apply andb_true_iff in Hnoop. destruct Hnoop as [_ Hnoop].
    apply negb_true_iff in Hnoop. unfold obj_has in Hnoop.
    destruct (obj_get active (entries mapping)); [discriminate | reflexivity].
  - cbn [plain entries]. rewrite obj_get_set.
    destruct (String.eqb k active) eqn:Hk; [reflexivity|].
    now rewrite Hnext, Hk.
Qed.

Lemma selectAll_prototype (active : string) (allIds : list string)
    (mapping : MappingState) :
  active <> "" ->
  prototype (selectAll false (Some active) allIds mapping) =
  if String.eqb active "__proto__"
     && negb (obj_has active (entries mapping))
  then Some allIds else None.
Proof.
  intros Hne. unfold selectAll.
  apply String.eqb_neq in Hne. rewrite Hne. cbn [negb].
  set (next := fold_left _ (obj_keys (entries mapping)) (entries mapping)).
  assert (Hactive : obj_has active next = obj_has active (entries mapping))
    by (unfold obj_has, next; now rewrite selectAll_swept, String.eqb_refl).
  rewrite Hactive.
  destruct (String.eqb active "__proto__"
            && negb (obj_has active (entries mapping))); reflexivity.
Qed.

(** What the state answers after "Select all", sharing switched off. *)
Lemma selectAll_read (active : string) (allIds : list string)
    (mapping : MappingState) (k : string) (l : list string) :
  active <> "" ->
  read k (selectAll false (Some active) allIds mapping) = Identifiers l <->
  (k = active /\ l = allIds)
  \/ (k <> active
      /\ exists l', obj_get k (entries mapping) = Some l'
                    /\ l = filter (fun id => negb (includes id allIds)) l').
Proof.
  intros Hne. rewrite read_Identifiers.
  rewrite selectAll_entries, selectAll_prototype by assumption.
  destruct (String.eqb_spec k active) as [->|Hk].
  - destruct (String.eqb active "__proto__"
              && negb (obj_has active (entries mapping))) eqn:Hnoop.
    + apply andb_true_iff in Hnoop. destruct Hnoop as [Hp _].
      apply String.eqb_eq in Hp. split.
      * intros [H|[_ [_ H]]]; [discriminate|]. left. split; congruence.
      * intros [[_ ->]|[H _]]; [|contradiction]. right. now repeat split.
    + split.
      * intros [H|[H _]]; [|discriminate]. left. split; congruence.
      * intros [[_ ->]|[H _]]; [now left | contradiction].
  - split.
    + intros [H|[_ [Hp H]]].
      * right. split; [assumption|].
        destruct (obj_get k (entries mapping)) as [l'|]; [|discriminate].
        exists l'. split; [reflexivity|]. now injection H as <-.
      * exfalso.
        destruct (String.eqb_spec active "__proto__") as [Ha|_];
          [congruence | discriminate].
    + intros [[H _]|[_ [l' [H ->]]]]; [contradiction|]. left. now rewrite H.
Qed.

Lemma read_Text (k : string) (mapping : MappingState) (t : string) :
  read k mapping = Text t ->
  exists ids, prototype mapping = Some ids /\ In t ids.
Proof.
  unfold read. destruct (obj_get k (entries mapping)); [discriminate|].
  destruct (prototype mapping) as [ids|];
    [|destruct (includes k Object_prototype); discriminate].
  destruct (String.eqb k "__proto__"); [discriminate|].
  destruct (array_index k) as [i|];
    [|destruct (String.eqb k "length" || includes k Array_prototype
                || includes k Object_prototype); discriminate].
  destruct (nth_error ids (N.to_nat i)) as [id|] eqn:E; [|discriminate].
  intros [= <-]. exists ids. split; [reflexivity|].
  now apply nth_error_In with (N.to_nat i).
Qed.

(** A click that returns keeps a mapping without shared images free of
    them, unless the active value reads a text. *)
Lemma toggled_exclusive (active imageId : string) (prev : MappingState)
    (current : list string) :
  current_list imageId (read active prev) = Some current ->
  exclusive prev ->
  (forall t, read active prev <> Text t) ->
  exclusive (plain (toggled false active imageId current (entries prev))).
Proof.
  intros Hcur Hex Htext. apply exclusive_plain.
  apply toggled_unshared; [now apply exclusive_entries|].
  intros k l x Hk Hget Hx.
  unfold current_list in Hcur.
  destruct (read active prev) as [c|t| |] eqn:Hread.
  - injection Hcur as <-.
    apply (Hex active k c l x); [congruence | assumption | | assumption].
    now apply read_own.
  - now destruct (Htext t).
  - discriminate.
  - injection Hcur as <-. destruct Hx.
Qed.

Lemma selectAll_exclusive (active : string) (allIds : list string)
    (prev : MappingState) :
  active <> "" ->
  exclusive prev ->
  exclusive (selectAll false (Some active) allIds prev).
Proof.
  intros Hne Hex k1 k2 l1 l2 x Hk H1 H2 Hx1 Hx2.
  apply selectAll_read in H1, H2; try assumption.
  destruct H1 as [[-> ->]|[Hk1 [l1' [H1 ->]]]];
    destruct H2 as [[-> ->]|[Hk2 [l2' [H2 ->]]]]; try congruence.
  - apply filter_In in Hx2. destruct Hx2 as [_ Hx2].
    apply negb_true_iff in Hx2. apply includes_In in Hx1. congruence.
  - apply filter_In in Hx1. destruct Hx1 as [_ Hx1].
    apply negb_true_iff in Hx1. apply includes_In in Hx2. congruence.
  - apply filter_In in Hx1, Hx2.
    apply (Hex k1 k2 l1' l2' x Hk); try tauto; now apply read_own.
Qed.

(** C9: with [allowSharedImages] false, a click that adds an image to the
    active option value leaves that image under no other value, and
    "Select all" leaves none of the product's images under another value;
    neither handler turns a mapping in which no image is shared into one in
    which an image sits under two distinct values.  The mapping is the
    state object with its prototype, which "Select all" replaces by its
    list when the active value is [__proto__] and the state has no entry
    of that name.  The click throws, and so leaves the mapping alone,
    exactly when the active value reads from the state what is no list
    (a function, [Object.prototype], a number) or a text that contains the
    image identifier; a click that returns leaves a plain state.  That
    a click keeps the mapping free of shared images is stated for every
    read but that of a text, an element of a replaced prototype, whose
    characters the click would list: no page on display reads one
    ([session_exclusive] below). *)
Theorem exclusive_assignment (active imageId : string) (allIds : list string)
    (prev : MappingState) :
  active <> "" ->
  let filled := selectAll false (Some active) allIds prev in
  (toggleImage false (Some active) imageId prev = TypeError
   <-> read active prev = NoArray
       \/ exists t, read active prev = Text t
                    /\ str_includes imageId t = true)
  /\ (forall toggled,
        toggleImage false (Some active) imageId prev = Ok toggled ->
        prototype toggled = None
        /\ ((forall l, read active prev = Identifiers l -> ~ In imageId l) ->
            In imageId (get_or_empty active (entries toggled))
            /\ forall key l,
                 key <> active -> read key toggled = Identifiers l ->
                 ~ In imageId l)
        /\ (exclusive prev ->
            (forall t, read active prev <> Text t) ->
            exclusive toggled))
  /\ read active filled = Identifiers allIds
  /\ (forall key l x,
        key <> active -> read key filled = Identifiers l ->
        In x allIds -> ~ In x l)
  /\ (exclusive prev -> exclusive filled).
Proof.
  intros Hne filled.
  split; [now apply toggleImage_throws|].
  split; [|split; [|split]].
  - intros toggled Htoggled.
    apply toggleImage_returns in Htoggled; [|assumption].
    destruct Htoggled as [current [Hcur ->]].
    split; [reflexivity|]. split.
    + intros Hsel.
      assert (Habsent : includes imageId current = false)
        by now apply (current_list_absent active imageId prev).
      split.
      * unfold get_or_empty. cbn [plain entries].
        rewrite toggleImage_add_get by assumption.
        rewrite String.eqb_refl. apply in_or_app. right. now left.
      * intros key l Hkey Hget. apply read_plain in Hget.
        rewrite toggleImage_add_get in Hget by assumption.
        apply String.eqb_neq in Hkey. rewrite Hkey in Hget.
        destruct (obj_get key (entries prev)) as [l'|]; [|discriminate].
        injection Hget as <-. rewrite without_In. tauto.
    + intros Hex Htext. now apply (toggled_exclusive active imageId prev).
  - apply selectAll_read; [assumption|]. now left.
  - intros key l x Hkey Hread Hx.
    apply selectAll_read in Hread; [|assumption].
    destruct Hread as [[H _]|[_ [l' [_ ->]]]]; [contradiction|].
    rewrite filter_In, negb_true_iff.
    apply includes_In in Hx. intros [_ H]. congruence.
  - now apply selectAll_exclusive.
Qed.

(** *** Sessions *)

(** The keys of the entries a click leaves. *)
Lemma toggled_has (allowSharedImages : bool) (active imageId : string)
    (current : list string) (prev : obj (list string)) (k : string) :
  obj_has k (toggled allowSharedImages active imageId current prev)
  = String.eqb k active || obj_has k prev.
Proof.
  destruct (negb allowSharedImages
            && negb (includes imageId current)) eqn:Hsweep.
  - apply andb_true_iff in Hsweep. destruct Hsweep as [Ha Hsel].
    apply negb_true_iff in Ha, Hsel. subst allowSharedImages.
    unfold obj_has. rewrite toggleImage_add_get by assumption.
    destruct (String.eqb k active); [reflexivity|].
    destruct (obj_get k prev); reflexivity.
  - unfold toggled. rewrite Hsweep. unfold obj_has. rewrite obj_get_set.
    destruct (String.eqb k active); reflexivity.
Qed.

Lemma selectAll_shared (active : string) (allIds : list string)
    (mapping : MappingState) :
  active <> "" ->
  selectAll true (Some active) allIds mapping
  = plain (obj_set active allIds (entries mapping)).
Proof.
  intros Hne. unfold selectAll. apply String.eqb_neq in Hne.
  now rewrite Hne.
Qed.

Lemma selectAll_has (allowSharedImages : bool) (active : string)
    (allIds : list string) (mapping : MappingState) (k : string) :
  active <> "" -> k <> active ->
  obj_has k (entries (selectAll allowSharedImages (Some active) allIds
                                mapping))
  = obj_has k (entries mapping).
Proof.
  intros Hne Hk. apply String.eqb_neq in Hk. destruct allowSharedImages.
  - rewrite selectAll_shared by assumption. cbn [plain entries].
    unfold obj_has. now rewrite obj_get_set, Hk.
  - unfold obj_has. rewrite selectAll_entries, Hk by assumption.
    destruct (obj_get k (entries mapping)); reflexivity.
Qed.

Lemma obj_has_get_None {A} (k : string) (o : obj A) :
  obj_has k o = false <-> obj_get k o = None.
Proof. unfold obj_has. destruct (obj_get k o); split; congruence. Qed.

(** With images, the page does not render for the active value
    [__proto__] while the state has its first prototype and no entry of
    that name. *)
Lemma renders_not_for_proto (allIds : list string) (mapping : MappingState) :
  allIds <> [] ->
  prototype mapping = None ->
  obj_get "__proto__" (entries mapping) = None ->
  renders allIds {| page_mapping := mapping;
                    page_active := Some "__proto__" |} = false.
Proof.
  intros Himages Hproto Hown. destruct allIds as [|imageId rest];
    [contradiction|].
  unfold renders, tileSelected, read. cbn [forallb page_mapping page_active].
  rewrite Hown, Hproto. reflexivity.
Qed.

(** Every action keeps the state of a page on display well kept. *)
Lemma act_well_kept (allowSharedImages : bool) (allIds : list string)
    (page next : Page) (a : Action) :
  (forall m, a = act_reload m -> obj_has "__proto__" m = false) ->
  well_kept allIds page ->
  act allowSharedImages allIds page a = Some next ->
  well_kept allIds next.
Proof.
  intros Hload [Hwith Hwithout] Hact.
  destruct a as [value| |imageId| | | |loaded]; cbn [act] in Hact.
  - destruct (renders allIds _) eqn:Hr; [|discriminate].
    injection Hact as <-. split; cbn [page_mapping page_active].
    + intros Himages. destruct (Hwith Himages) as [Hp [Hown _]].
      repeat split; try assumption.
      intros [= ->].
      now rewrite renders_not_for_proto in Hr.
    + exact Hwithout.
  - injection Hact as <-. split; cbn [page_mapping page_active].
    + intros Himages. destruct (Hwith Himages) as [Hp [Hown _]].
      repeat split; try assumption. discriminate.
    + exact Hwithout.
  - destruct (includes imageId allIds) eqn:Htile; [|discriminate].
    destruct (toggleImage allowSharedImages (page_active page) imageId
                          (page_mapping page)) as [st|] eqn:Hst;
      [|discriminate].
    injection Hact as <-. split; cbn [page_mapping page_active].
    + intros Himages. destruct (Hwith Himages) as [Hp [Hown Hactive]].
      destruct (page_active page) as [active|] eqn:Ha.
      2:{ injection Hst as <-. now repeat split. }
      destruct (String.eqb_spec active "") as [->|Hne].
      { cbn in Hst. injection Hst as <-. now repeat split. }
      apply toggleImage_returns in Hst; [|assumption].
      destruct Hst as [current [_ ->]]. cbn [plain entries prototype].
      repeat split; try assumption.
      apply obj_has_get_None. rewrite toggled_has.
      apply obj_has_get_None in Hown. rewrite Hown, orb_false_r.
      apply String.eqb_neq. congruence.
    + intros ->. discriminate Htile.
  - injection Hact as <-. cbn [page_mapping page_active].
    destruct (page_active page) as [active|] eqn:Ha.
    2:{ split; assumption. }
    destruct (String.eqb_spec active "") as [->|Hne].
    { split; assumption. }
    split; cbn [page_mapping page_active].
    + intros Himages. destruct (Hwith Himages) as [Hp [Hown Hactive]].
      assert (Hk : "__proto__" <> active) by congruence.
      assert (Hnoproto : String.eqb active "__proto__" = false)
        by (apply String.eqb_neq; congruence).
      split; [|split; [|assumption]].
      * destruct allowSharedImages.
        -- now rewrite selectAll_shared.
        -- rewrite selectAll_prototype by assumption.
           now rewrite Hnoproto.
      * apply obj_has_get_None. rewrite selectAll_has by assumption.
        now apply obj_has_get_None.
    + intros ->. destruct allowSharedImages.
      * rewrite selectAll_shared by assumption. now left.
      * rewrite selectAll_prototype by assumption.
        destruct (String.eqb active "__proto__"
                  && negb (obj_has active (entries (page_mapping page))));
          [now right | now left].
  - injection Hact as <-. split; cbn [page_mapping page_active plain
                                      entries prototype obj_get].
    + intros Himages. destruct (Hwith Himages) as [_ [_ Hactive]].
      now repeat split.
    + intros _. now left.
  - injection Hact as <-. split; cbn [page_mapping page_active plain
                                      entries prototype obj_get].
    + intros _. repeat split. discriminate.
    + intros _. now left.
  - injection Hact as <-. split; cbn [page_mapping page_active plain
                                      entries prototype].
    + intros _. repeat split; [|discriminate].
      apply obj_has_get_None. now apply Hload.
    + intros _. now left.
Qed.

(** The state of a well-kept page answers no read with a text. *)
Lemma well_kept_reads_no_text (allIds : list string) (page : Page)
    (k t : string) :
  well_kept allIds page -> read k (page_mapping page) <> Text t.
Proof.
  intros [Hwith Hwithout] Hread. apply read_Text in Hread.
  destruct Hread as [ids [Hp Hin]].
  destruct allIds as [|imageId rest].
  - destruct (Hwithout eq_refl) as [H|H]; rewrite H in Hp;
      [discriminate|]. injection Hp as <-. destruct Hin.
  - assert (Himages : imageId :: rest <> []) by discriminate.
    destruct (Hwith Himages) as [H _]. congruence.
Qed.

(** With sharing switched off, every action keeps the mapping of a
    well-kept page free of shared images. *)
Lemma act_exclusive (allIds : list string) (page next : Page) (a : Action) :
  (forall m, a = act_reload m -> unshared m) ->
  well_kept allIds page ->
  exclusive (page_mapping page) ->
  act false allIds page a = Some next ->
  exclusive (page_mapping next).
Proof.
  intros Hload Hkept Hex Hact.
  destruct a as [value| |imageId| | | |loaded]; cbn [act] in Hact.
  - destruct (renders allIds _); [|discriminate]. now injection Hact as <-.
  - now injection Hact as <-.
  - destruct (includes imageId allIds); [|discriminate].
    destruct (toggleImage false (page_active page) imageId
                          (page_mapping page)) as [st|] eqn:Hst;
      [|discriminate].
    injection Hact as <-. cbn [page_mapping].
    destruct (page_active page) as [active|].
    2:{ now injection Hst as <-. }
    destruct (String.eqb_spec active "") as [->|Hne].
    { cbn in Hst. now injection Hst as <-. }
    apply toggleImage_returns in Hst; [|assumption].
    destruct Hst as [current [Hcur ->]].
    apply (toggled_exclusive active imageId (page_mapping page));
      try assumption.
    intros t. now apply (well_kept_reads_no_text allIds).
  - injection Hact as <-. cbn [page_mapping].
    destruct (page_active page) as [active|]; [|exact Hex].
    destruct (String.eqb_spec active "") as [->|Hne]; [exact Hex|].
    now apply selectAll_exclusive.
  - injection Hact as <-. cbn [page_mapping]. apply exclusive_plain.
    intros k1 k2 l1 l2 x _ H. discriminate H.
  - injection Hact as <-. cbn [page_mapping]. apply exclusive_plain.
    intros k1 k2 l1 l2 x _ H. discriminate H.
  - injection Hact as <-. cbn [page_mapping]. apply exclusive_plain.
    now apply Hload.
Qed.

(** A session: from the mapping the loader hands over, through any actions
    of the merchant and any further answers of the loader (which never
    have an entry [__proto__]), as long as the page is on display.  The
    state answers no read with a text; and with sharing switched off, when
    no mapping the loader hands over has a shared image, none of the
    mappings the page goes through has one. *)
Lemma session_well_kept (allowSharedImages : bool) (allIds : list string)
    (actions : list Action) (page last : Page) :
  (forall m, In (act_reload m) actions -> obj_has "__proto__" m = false) ->
  well_kept allIds page ->
  run allowSharedImages allIds page actions = Some last ->
  well_kept allIds last.
Proof.
  revert page. induction actions as [|a rest IH]; intros page Hload Hkept.
  - now intros [= <-].
  - cbn [run].
    destruct (act allowSharedImages allIds page a) as [next|] eqn:Hact;
      [|discriminate].
    apply IH.
    + intros m Hm. apply Hload. now right.
    + apply (act_well_kept allowSharedImages allIds page next a);
        try assumption.
      intros m ->. apply Hload. now left.
Qed.

Lemma session_exclusive (allIds : list string) (loaded : obj (list string))
    (actions : list Action) (last : Page) :
  obj_has "__proto__" loaded = false ->
  unshared loaded ->
  (forall m, In (act_reload m) actions ->
             obj_has "__proto__" m = false /\ unshared m) ->
  run false allIds
      {| page_mapping := plain loaded; page_active := None |} actions
  = Some last ->
  exclusive (page_mapping last)
  /\ forall k t, read k (page_mapping last) <> Text t.
Proof.
  intros Hown Hun Hload Hrun.
  assert (Hstart : well_kept allIds
                     {| page_mapping := plain loaded; page_active := None |}).
  { split; cbn [page_mapping page_active plain entries prototype].
    - intros _. repeat split; [|discriminate].
      now apply obj_has_get_None.
    - intros _. now left. }
  assert (Hlast : well_kept allIds last).
  { apply (session_well_kept false allIds actions
             {| page_mapping := plain loaded; page_active := None |} last);
      [|exact Hstart | exact Hrun].
    intros m Hm. now apply Hload. }
  split; [|intros k t; now apply (well_kept_reads_no_text allIds)].
  assert (Hinv : forall acts page,
            (forall m, In (act_reload m) acts ->
                       obj_has "__proto__" m = false /\ unshared m) ->
            well_kept allIds page -> exclusive (page_mapping page) ->
            run false allIds page acts = Some last ->
            exclusive (page_mapping last)).
  { induction acts as [|a rest IH]; intros page Hl Hk Hex.
    - now intros [= <-].
    - cbn [run]. destruct (act false allIds page a) as [next|] eqn:Hact;
        [|discriminate].
      apply IH.
      + intros m Hm. apply Hl. now right.
      + apply (act_well_kept false allIds page next a); try assumption.
        intros m ->. apply Hl. now left.
      + apply (act_exclusive allIds page next a); try assumption.
        intros m ->. apply Hl. now left. }
  apply (Hinv actions
                {| page_mapping := plain loaded; page_active := None |}
                Hload Hstart); [|exact Hrun].
  cbn [page_mapping]. now apply exclusive_plain.
Qed.

End AssignFacts.

(* ===================================================================== *)
(** ** The recomputation pass *)
(* ===================================================================== *)

Module GalleryFacts.

Import Storefront Props JSFacts.

Lemma hide_is_hidden (el : Element) : is_hidden (hide el).
Proof.
  unfold is_hidden, hide. simpl. repeat split.
  destruct (includes hidden_class (classList el)) eqn:E.
  - now apply includes_In.
  - apply in_or_app. right. now left.
Qed.

Lemma show_is_shown (el : Element) : is_shown (show el).
Proof.
  unfold is_shown, show. simpl. repeat split.
  rewrite filter_In, negb_true_iff, String.eqb_neq. tauto.
Qed.

Lemma nodes_setVisible (el n : nat) (visible : bool) (doc : Document) :
  nodes (setVisible el visible doc) n =
  if Nat.eqb n el
  then (if visible then show (nodes doc el) else hide (nodes doc el))
  else nodes doc n.
Proof. reflexivity. Qed.

Lemma img_setVisible (el n : nat) (visible : bool) (doc : Document) :
  img (nodes (setVisible el visible doc) n) = img (nodes doc n).
Proof.
  rewrite nodes_setVisible. destruct (Nat.eqb_spec n el) as [->|_];
    [destruct visible|]; reflexivity.
Qed.

(** *** Hiding everything *)

Lemma hide_each (items : list nat) (doc : Document) :
  let doc' := fold_left (fun d el => setVisible el false d) items doc in
  querySelectorAll doc' = querySelectorAll doc
  /\ forall n, In n items \/ is_hidden (nodes doc n) -> is_hidden (nodes doc' n).
Proof.
  revert doc. induction items as [|el items IH]; intros doc; simpl.
  - split; [reflexivity|]. intros n [[]|H]. exact H.
  - destruct (IH (setVisible el false doc)) as [Hq Hn]. split; [exact Hq|].
    intros n H. apply Hn. rewrite nodes_setVisible.
    destruct (Nat.eqb_spec n el) as [->|Hne].
    + right. apply hide_is_hidden.
    + destruct H as [[H|H]|H]; [congruence | now left | now right].
Qed.

Lemma showNone_hides (doc : Document) (n : nat) :
  In n (findGalleryItems doc) \/ In n (findThumbItems doc) ->
  is_hidden (nodes (showNone doc) n).
Proof.
  intros H. unfold showNone.
  set (doc1 := fold_left (fun d el => setVisible el false d)
                         (findGalleryItems doc) doc).
  destruct (hide_each (findGalleryItems doc) doc) as [Hq1 Hn1].
  fold doc1 in Hq1, Hn1.
  assert (Hthumbs : findThumbItems doc1 = findThumbItems doc)
    by (unfold findThumbItems; now rewrite Hq1).
  destruct (hide_each (findThumbItems doc1) doc1) as [_ Hn2].
  apply Hn2. rewrite Hthumbs. destruct H as [H|H]; [right | now left].
  apply Hn1. now left.
Qed.

(** *** Reading a canonical table *)

Lemma has_string_map_VStr (x : string) (ids : list string) :
  has_string x (map VStr ids) = true <-> In x ids.
Proof.
  unfold has_string. rewrite existsb_exists. split.
  - intros [v [Hv He]]. apply in_map_iff in Hv. destruct Hv as [y [<- Hy]].
    simpl in He. apply String.eqb_eq in He. now subst.
  - intros H. exists (VStr x). split; [now apply in_map|].
    simpl. apply String.eqb_refl.
Qed.

Lemma has_string_assigned (x : string) (table : obj (list string)) :
  has_string x (flat (Object_values (Server.value_of_table table))) = true ->
  exists key ids, In (key, ids) table /\ In x ids.
Proof.
  unfold Server.value_of_table, Object_values, Object_entries, flat, has_string.
  rewrite existsb_exists. intros [v [Hv He]].
  apply in_flat_map in Hv. destruct Hv as [a [Ha Hv]].
  apply in_map_iff in Ha. destruct Ha as [[k' a'] [Ha Hin]].
  apply in_map_iff in Hin. destruct Hin as [[key ids] [Heq Hin]].
  simpl in Ha, Heq. injection Heq as <- <-. subst a. simpl in Hv.
  exists key, ids. split; [assumption|].
  apply has_string_map_VStr. unfold has_string. apply existsb_exists. eauto.
Qed.

(** What [mappingTable[key]] finds in a canonical table. *)
Lemma get_computed_table (table : obj (list string)) (key : string) :
  get_computed (Server.value_of_table table) key
  = Ok (match obj_get key table with
        | Some ids => Found (VArr (map VStr ids))
        | None =>
            if includes key Object_prototype then Builtin else Nothing
        end).
Proof.
  unfold Server.value_of_table, get_computed, lookup_value, lookup.
  cbn [nullish].
  rewrite (obj_get_map (fun ids => VArr (map VStr ids))).
  destruct (obj_get key table); reflexivity.
Qed.

(** The fail-closed rule where it holds: for a canonical mapping table and
    a selected variant whose resolved key has no entry in it and names no
    member of [Object.prototype], a pass ends normally and leaves every
    gallery item and every thumbnail hidden. *)
Lemma unmapped_plain_key_hides_everything (env : Env)
    (table : obj (list string)) (variantId : string) (doc : Document) :
  variantId <> "" ->
  mappingTable env = Server.value_of_table table ->
  obj_get (ToString (resolveMappingKey env variantId)) table = None ->
  includes (ToString (resolveMappingKey env variantId)) Object_prototype
  = false ->
  exists doc',
    filterGallery env variantId doc = Ok doc'
    /\ forall el,
         In el (findGalleryItems doc) \/ In el (findThumbItems doc) ->
         is_hidden (nodes doc' el).
Proof.
  intros Hne Htable Hkey Hplain. exists (showNone doc). split.
  - unfold filterGallery. apply String.eqb_neq in Hne. rewrite Hne.
    rewrite Htable, get_computed_table, Hkey, Hplain. reflexivity.
  - intros el. apply showNone_hides.
Qed.

(** C1 at its failing inputs: when the resolved key has no entry in the
    canonical table but names a member of [Object.prototype]
    ([constructor], [toString], ...), [mappingTable[mappingKey]] finds
    that member; it is truthy, so [showNone] is not called, and
    [new Set] throws on it before any element is touched: the pass hides
    nothing, and the handler that ran it leaves the page as it was, where
    every gallery item and thumbnail is promised hidden. *)
Theorem inherited_key_hides_nothing (env : Env)
    (table : obj (list string)) (variantId : string) (st : ScriptState)
    (w : Window) :
  variantId <> "" ->
  mappingTable env = Server.value_of_table table ->
  reads_builtin (ToString (resolveMappingKey env variantId)) table ->
  (forall doc, filterGallery env variantId doc = TypeError)
  /\ (lastVariantId st <> Some variantId ->
      snd (settle (handleVariantChange env variantId st (document w)) w)
      = w).
Proof.
  intros Hne Htable [Hinh Hkey].
  assert (Hv : String.eqb variantId "" = false) by now apply String.eqb_neq.
  assert (Hpass : forall doc, filterGallery env variantId doc = TypeError).
  { intros doc. unfold filterGallery. rewrite Hv.
    rewrite Htable, get_computed_table, Hkey, Hinh. reflexivity. }
  split; [exact Hpass|].
  intros Hlast. unfold handleVariantChange. rewrite Hv.
  destruct (lastVariantId st) as [last|].
  - destruct (String.eqb_spec variantId last) as [->|_]; [congruence|].
    unfold settle. cbn [fst snd]. now rewrite Hpass.
  - unfold settle. cbn [fst snd]. now rewrite Hpass.
Qed.

(** *** Filtering *)

Lemma isVisible_img (env : Env) (allowed assigned : list value)
    (e1 e2 : Element) :
  img e1 = img e2 ->
  isVisible env allowed assigned e1 = isVisible env allowed assigned e2.
Proof.
  intros H. unfold isVisible, getImgSrc. now rewrite H.
Qed.

Lemma filter_items_fst (env : Env) (allowed assigned : list value)
    (items : list nat) (doc : Document) (first : option nat) :
  fst (fold_left (filter_items env allowed assigned) items (doc, first))
  = fold_left (filter_thumbs env allowed assigned) items doc.
Proof.
  revert doc first. induction items as [|el items IH]; intros doc first;
    [reflexivity|].
  cbn [fold_left]. unfold filter_items at 2. cbn [fst]. apply IH.
Qed.

(** A pass over a list of elements does not move images, answers or clicks,
    and leaves shown every listed element it decides to show. *)
Lemma filter_each (env : Env) (allowed assigned : list value)
    (items : list nat) (doc : Document) :
  let doc' := fold_left (filter_thumbs env allowed assigned) items doc in
  querySelectorAll doc' = querySelectorAll doc
  /\ (forall n, img (nodes doc' n) = img (nodes doc n))
  /\ forall n,
       isVisible env allowed assigned (nodes doc n) = true ->
       In n items \/ is_shown (nodes doc n) ->
       is_shown (nodes doc' n).
Proof.
  revert doc. induction items as [|el items IH]; intros doc; cbn [fold_left].
  - split; [reflexivity|]. split; [reflexivity|].
    intros n _ [[]|H]. exact H.
  - unfold filter_thumbs at 2.
    set (doc1 := setVisible el
                   (isVisible env allowed assigned (nodes doc el)) doc).
    destruct (IH doc1) as [Hq [Himg Hn]].
    assert (Himg1 : forall n, img (nodes doc1 n) = img (nodes doc n))
      by (intros n; apply img_setVisible).
    split; [exact Hq|]. split.
    + intros n. now rewrite Himg, Himg1.
    + intros n Hvis H. apply Hn.
      * rewrite <- Hvis. apply isVisible_img, Himg1.
      * unfold doc1. rewrite nodes_setVisible.
        destruct (Nat.eqb_spec n el) as [->|Hne].
        -- right. rewrite Hvis. apply show_is_shown.
        -- destruct H as [[H|H]|H]; [congruence | now left | now right].
Qed.

Lemma nodes_activateFirstVisible (first : nat) (doc : Document) :
  nodes (activateFirstVisible first doc) = nodes doc.
Proof.
  unfold activateFirstVisible.
  destruct (querySelectorAll doc ".product__media-item[aria-current='true']")
    as [|selected rest]; [reflexivity|].
  destruct (includes hidden_class (classList (nodes doc selected)));
    [|reflexivity].
  simpl. destruct (inner_control (nodes doc first)); reflexivity.
Qed.



End GalleryFacts.

(* ===================================================================== *)
(** ** The script's top level *)
(* ===================================================================== *)

Module ScriptFacts.

Import Storefront Props.

Section Facts.

Variable JSON_parse : string -> option value.

Local Abbreviation script := (Storefront.script JSON_parse).

(** Whatever the payload, the top level never writes to the document. *)
Lemma script_document (w : Window) : document (fst (script w)) = document w.
Proof.
  unfold Storefront.script.
  repeat match goal with
         | |- context [if ?b then _ else _] => destruct b
         | |- context [match ?x with _ => _ end] => destruct x
         end;
    try reflexivity;
    unfold boot; cbn [fst readyState_loading set_initialized];
    destruct (readyState_loading w); reflexivity.
Qed.

(** C10: when the embedded settings carry [enabled: false], the script
    returns without scheduling [init] and without registering a listener,
    an observer or a timer; the document, with the display state, the
    [aria-hidden] attribute and the class list of every element, is what it
    was. *)
Theorem disabled_script_is_inert (w : Window) (text : string)
    (config : value) :
  dataEl w = Some text ->
  JSON_parse text = Some config ->
  settings_disabled JSON_parse config ->
  exists w',
    script w = (w', Exited)
    /\ document w' = document w
    /\ registrations w' = registrations w
    /\ forall el, nodes (document w') el = nodes (document w) el.
Proof.
  intros Hdata Hparse [settings [Hs Hen]].
  assert (Hconfig : nullish config = false).
  { destruct config; try reflexivity;
      destruct Hs as [Hs|[t [Hs _]]]; discriminate Hs. }
  unfold Storefront.script. destruct (initialized w) eqn:Hinit.
  - exists w. auto.
  - exists (set_initialized w).
    split; [|split; [reflexivity | split; reflexivity]].
    cbn [dataEl set_initialized]. rewrite Hdata, Hparse, Hconfig.
    destruct (negb (truthy (prop config "mapping"))
              || negb (truthy (prop config "imageUrls"))); [reflexivity|].
    destruct (match prop config "mapping" with
              | VStr t => JSON_parse t
              | _ => Some (prop config "mapping")
              end) as [mapping|]; [|reflexivity].
    assert (Henabled :
      coalesce
        (get_opt
           match prop config "settings" with
           | VStr t => match JSON_parse t with
                       | Some parsed => parsed
                       | None => VNull
                       end
           | _ => prop config "settings"
           end "enabled") (VBool true) = VBool false).
    { destruct Hs as [Hs|[t [Hs Hp]]]; rewrite Hs; [|rewrite Hp];
        unfold get_opt; cbn [nullish prop]; rewrite Hen; reflexivity. }
    rewrite Henabled. reflexivity.
Qed.

End Facts.

End ScriptFacts.

(* ===================================================================== *)
(** ** The statements at the sample inputs *)
(* ===================================================================== *)

Module Instances.

Import Server Storefront Props.

Local Abbreviation parse := Samples.parse_literal.

(** With both domains empty nothing is filtered: the key [Blue] and the
    image [7] come out although neither belongs to a domain.  And against
    a domain of image identifiers in their long form, as the callers pass
    it, the image comes out in its numeric form, which is not literally a
    member. *)
Lemma normalizeOptionMapping_empty_domains_filter_nothing :
  In ("Blue", ["7"])
     (normalizeOptionMapping parse Ids.toNumericId
        (VObj [("Blue", VArr [VStr "7"])]) [] [])
  /\ ~ In "Blue" (@nil string)
  /\ ~ In "7" (@nil string)
  /\ In ("Black", ["7"])
        (normalizeOptionMapping parse Ids.toNumericId
           (VObj [("Black", VArr [VStr "7"])])
           ["Black"] ["gid://shopify/ProductImage/7"])
  /\ ~ In "7" ["gid://shopify/ProductImage/7"].
Proof.
  split; [now left|]. split; [intros []|]. split; [intros []|].
  split; [now left|]. intros [H|[]]. discriminate H.
Qed.

Lemma normalizeOptionMapping_domain_black :
  In ("Black", ["7"])
     (normalizeOptionMapping parse Ids.toNumericId
        (VObj [("Black", VArr [VStr "gid://shopify/ProductImage/7";
                               VStr "7"; VStr "8"]);
               ("Green", VArr [VStr "7"])])
        ["Black"; "Red"] ["gid://shopify/ProductImage/7"])
  /\ "Black" <> ""
  /\ (["Black"; "Red"] <> [] -> In "Black" ["Black"; "Red"])
  /\ ["7"] <> []
  /\ NoDup ["7"]
  /\ forall i, In i ["7"] ->
       i <> ""
       /\ (["gid://shopify/ProductImage/7"] <> [] ->
           exists g, In g ["gid://shopify/ProductImage/7"]
                     /\ Ids.toNumericId (VStr g) = i).
Proof.
  split; [now left|].
  apply (ServerFacts.normalizeOptionMapping_domain parse Ids.toNumericId
           (VObj [("Black", VArr [VStr "gid://shopify/ProductImage/7";
                                  VStr "7"; VStr "8"]);
                  ("Green", VArr [VStr "7"])])
           ["Black"; "Red"] ["gid://shopify/ProductImage/7"]).
  vm_compute. now left.
Defined.

Lemma legacy_migration_throws_for_constructor :
  obj_get "1"
    (normalizeMapping parse Ids.toNumericId
       (safeParseJson parse Samples.two_black_raw (VObj []))
       (map id MoreSamples.two_constructor_variants) Samples.two_images)
  = Some ["10"]
  /\ normalizeProductMapping parse Ids.toNumericId
       Samples.two_black_raw MoreSamples.constructor_options
       MoreSamples.two_constructor_variants Samples.two_images
     = TypeError.
Proof.
  split; [reflexivity|].
  apply (ServerFacts.legacy_migration_throws_on_inherited_name parse
           Ids.toNumericId
           Samples.two_black_raw MoreSamples.constructor_options
           MoreSamples.two_constructor_variants Samples.two_images
           "1" "2" ["10"] ["20"] "constructor");
    reflexivity.
Defined.

(** The union for two variants of the colour Black. *)
Example legacy_migration_union_two_black :
  exists l,
    obj_get "Black" [("Black", ["10"; "20"])] = Some l
    /\ NoDup l
    /\ (forall x, In x ["10"] \/ In x ["20"] -> In x l)
    /\ ((forall v lv,
           obj_get v
             (normalizeMapping parse Ids.toNumericId
                (safeParseJson parse Samples.two_black_raw (VObj []))
                (map id Samples.two_black_variants) Samples.two_images)
           = Some lv ->
           Map_get v
             (optionValueByVariant Ids.toNumericId
                (fallbackOptionName Samples.color_options)
                Samples.two_black_variants)
           = Some (Some "Black") ->
           v = "1" \/ v = "2") ->
        forall x, In x l -> In x ["10"] \/ In x ["20"]).
Proof.
  apply (ServerFacts.legacy_migration_union_when_returned parse
           Ids.toNumericId
           Samples.two_black_raw Samples.color_options
           Samples.two_black_variants Samples.two_images
           "1" "2" ["10"] ["20"] "Black"
           {| mode := "option"; optionName := "Color";
              mapping := [("Black", ["10"; "20"])] |});
    try reflexivity.
  discriminate.
Qed.

(** The union itself, in the order the code produces it. *)
Example two_black_variants_migrate :
  normalizeProductMapping parse Ids.toNumericId
    Samples.two_black_raw Samples.color_options
    Samples.two_black_variants Samples.two_images
  = Ok {| mode := "option"; optionName := "Color";
          mapping := [("Black", ["10"; "20"])] |}.
Proof. reflexivity. Qed.

(** The scenario's output is a fixed point of the normaliser. *)
Example legacy_scenario_renormalizes :
  let once := {| mode := "option"; optionName := "Color";
                 mapping := [("Black", ["2222"])] |} in
  normalizeProductMapping parse Ids.toNumericId (value_of_mapping once)
    Samples.color_options Samples.one_black_variant ["2222"]
  = Ok once.
Proof.
  apply (ServerFacts.normalizeProductMapping_fixed_point parse
           Ids.toNumericId IdsFacts.toNumericId_idempotent
           Samples.color_options Samples.one_black_variant ["2222"]
           Samples.legacy_raw).
  - reflexivity.
  - reflexivity.
  - intros variant selected [<-|[]] Hfind. injection Hfind as <-.
    reflexivity.
Qed.

Lemma legacy_scenario_with_extension_ids :
  Ids.toNumericId (VStr "1111") = "1111"
  /\ Ids.toNumericId (VStr "2222") = "2222"
  /\ normalizeProductMapping parse Ids.toNumericId Samples.legacy_raw
       Samples.color_options Samples.one_black_variant ["2222"]
     = Ok {| mode := "option"; optionName := "Color";
             mapping := [("Black", ["2222"])] |}.
Proof.
  split; [reflexivity | split; [reflexivity|]].
  apply (ServerFacts.legacy_scenario_normalizes parse Ids.toNumericId
           Samples.legacy_raw); reflexivity.
Defined.

Lemma normalizeProductMapping_loses_mapping_value_ids :
  Ids.toNumericId (VStr "1111") = "1111"
  /\ Ids.toNumericId (VStr "2222") = "2222"
  /\ let normalize raw :=
       normalizeProductMapping parse Ids.toNumericId raw Samples.layer_options
         Samples.one_mapping_variant ["2222"] in
     let once := {| mode := "option"; optionName := "Layer";
                    mapping := [("mapping", ["2222"])] |} in
     let twice :=
       {| mode := "option"; optionName := "Layer"; mapping := [] |} in
     normalize Samples.legacy_raw = Ok once
     /\ normalize (value_of_mapping once) = Ok twice
     /\ twice <> once.
Proof.
  split; [reflexivity | split; [reflexivity|]].
  apply (ServerFacts.normalizeProductMapping_loses_mapping_value parse
           Ids.toNumericId); reflexivity.
Defined.

Lemma normalizeSettings_null_text_literal :
  parse "null" = Some VNull
  /\ normalizeSettings parse (VStr "null") = TypeError.
Proof.
  split; [reflexivity|].
  apply (ServerFacts.normalizeSettings_null_text_throws parse). reflexivity.
Defined.

Lemma baseFilename_identity_cdn :
  (baseFilename
     ("https://cdn.shopify.com/s/files/1/products" ++ "/" ++ "red_shirt"
        ++ "_" ++ "800" ++ "x" ++ "600" ++ "." ++ "jpg" ++ "?" ++ "v=17")
   = "red_shirt" ++ "." ++ "jpg"
   /\ baseFilename
        ("https://cdn.shopify.com/s/files/1/products" ++ "/" ++ "red_shirt"
           ++ "_" ++ "800" ++ "x" ++ "600" ++ "." ++ "jpg")
      = "red_shirt" ++ "." ++ "jpg"
   /\ baseFilename
        ("https://cdn.shopify.com/s/files/1/products" ++ "/a_800x.jpg?v=2")
      = "a.jpg"
   /\ baseFilename
        ("https://cdn.shopify.com/s/files/1/products" ++ "/a_400x600.jpg")
      = "a.jpg")%string.
Proof.
  apply (FilenameFacts.baseFilename_identity
           "https://cdn.shopify.com/s/files/1/products" "red_shirt"
           "800" "600" "jpg" "v=17");
    try reflexivity.
  discriminate.
Defined.

Lemma exclusive_assignment_black_red :
  let prev := AssignImages.plain [("Black", ["1"]); ("Red", ["2"])] in
  let filled :=
    AssignImages.selectAll false (Some "Red") ["1"; "2"; "3"] prev in
  AssignImages.toggleImage false (Some "Red") "1" prev
  = Ok (AssignImages.plain [("Black", []); ("Red", ["2"; "1"])])
  /\ filled = AssignImages.plain [("Black", []); ("Red", ["1"; "2"; "3"])]
  /\ (AssignImages.toggleImage false (Some "Red") "1" prev = TypeError
      <-> AssignImages.read "Red" prev = AssignImages.NoArray
          \/ exists t, AssignImages.read "Red" prev = AssignImages.Text t
                       /\ str_includes "1" t = true)
  /\ (forall toggled,
        AssignImages.toggleImage false (Some "Red") "1" prev = Ok toggled ->
        AssignImages.prototype toggled = None
        /\ ((forall l,
               AssignImages.read "Red" prev = AssignImages.Identifiers l ->
               ~ In "1" l) ->
            In "1" (get_or_empty "Red" (AssignImages.entries toggled))
            /\ forall key l,
                 key <> "Red" ->
                 AssignImages.read key toggled = AssignImages.Identifiers l ->
                 ~ In "1" l)
        /\ (exclusive prev ->
            (forall t, AssignImages.read "Red" prev <> AssignImages.Text t) ->
            exclusive toggled))
  /\ AssignImages.read "Red" filled = AssignImages.Identifiers ["1"; "2"; "3"]
  /\ (forall key l x,
        key <> "Red" ->
        AssignImages.read key filled = AssignImages.Identifiers l ->
        In x ["1"; "2"; "3"] -> ~ In x l)
  /\ (exclusive prev -> exclusive filled).
Proof.
  split; [reflexivity | split; [reflexivity|]].
  apply (AssignFacts.exclusive_assignment "Red" "1" ["1"; "2"; "3"]
           (AssignImages.plain [("Black", ["1"]); ("Red", ["2"])])).
  discriminate.
Defined.

(** The handlers on their own.  A click for a value spelled like a member
    of [Object.prototype] throws and changes nothing.  "Select all" for
    [__proto__] gives the state no entry: the list becomes its prototype,
    which the name [__proto__] reads back, and whose elements the state
    then answers with for the names [0], [1], ...: a click for the value
    [0] lists the characters of the first identifier. *)
Example inherited_active_values :
  let prev := AssignImages.plain [("Black", ["1"])] in
  let filled :=
    AssignImages.selectAll false (Some "__proto__") ["17"; "2"] prev in
  AssignImages.toggleImage false (Some "constructor") "1" prev = TypeError
  /\ AssignImages.toggleImage true (Some "constructor") "1" prev = TypeError
  /\ filled
     = {| AssignImages.entries := [("Black", ["1"])];
          AssignImages.prototype := Some ["17"; "2"] |}
  /\ AssignImages.read "__proto__" filled
     = AssignImages.Identifiers ["17"; "2"]
  /\ AssignImages.toggleImage false (Some "__proto__") "2" filled
     = Ok (AssignImages.plain [("Black", ["1"]); ("__proto__", ["17"])])
  /\ AssignImages.toggleImage false (Some "0") "2" filled
     = Ok (AssignImages.plain [("0", ["1"; "7"; "2"]); ("Black", ["1"])])
  /\ AssignImages.toggleImage false (Some "0") "7" filled = TypeError
  /\ AssignImages.toggleImage false (Some "length") "2" filled = TypeError.
Proof. repeat split. Qed.

(** The handlers on the page.  With images, the page does not render for
    the active value [__proto__], and "Select all" is not reached; without
    images it is, and leaves an empty prototype.  A click on a tile moves
    the image. *)
Example sessions :
  let start :=
    {| AssignImages.page_mapping := AssignImages.plain [("Black", ["1"])];
       AssignImages.page_active := None |} in
  AssignImages.run false ["1"; "2"] start
    [AssignImages.act_assign "__proto__"] = None
  /\ AssignImages.run false ["1"; "2"] start
       [AssignImages.act_assign "constructor"] = None
  /\ AssignImages.run false [] start
       [AssignImages.act_assign "__proto__"; AssignImages.act_select_all]
     = Some {| AssignImages.page_mapping :=
                 {| AssignImages.entries := [("Black", ["1"])];
                    AssignImages.prototype := Some [] |};
               AssignImages.page_active := Some "__proto__" |}
  /\ AssignImages.run false ["1"; "2"] start
       [AssignImages.act_assign "Red"; AssignImages.act_click "1";
        AssignImages.act_close]
     = Some {| AssignImages.page_mapping :=
                 AssignImages.plain [("Black", []); ("Red", ["1"])];
               AssignImages.page_active := None |}.
Proof. repeat split. Qed.

Lemma inherited_key_hides_nothing_for_constructor :
  let st := {| lastVariantId := Some "41"; lastUrl := "" |} in
  ToString (resolveMappingKey MoreSamples.constructor_env "43")
  = "constructor"
  /\ (forall doc,
        filterGallery MoreSamples.constructor_env "43" doc = TypeError)
  /\ (lastVariantId st <> Some "43" ->
      snd (settle (handleVariantChange MoreSamples.constructor_env "43" st
                     (document Samples.fresh_window))
                  Samples.fresh_window)
      = Samples.fresh_window).
Proof.
  intros st. split; [reflexivity|].
  apply (GalleryFacts.inherited_key_hides_nothing MoreSamples.constructor_env
           [("Black", ["1"])] "43" st Samples.fresh_window).
  - discriminate.
  - reflexivity.
  - split; reflexivity.
Defined.

(** The fail-closed rule for a colour without entry that names no member
    of [Object.prototype]. *)
Example unmapped_variant_hides_sample_page :
  exists doc',
    filterGallery Samples.color_env "42" Samples.gallery_page = Ok doc'
    /\ forall el,
         In el (findGalleryItems Samples.gallery_page)
         \/ In el (findThumbItems Samples.gallery_page) ->
         is_hidden (nodes doc' el).
Proof.
  apply (GalleryFacts.unmapped_plain_key_hides_everything Samples.color_env
           [("Black", ["1"])] "42" Samples.gallery_page);
    [discriminate | reflexivity | reflexivity | reflexivity].
Qed.


Lemma disabled_script_is_inert_sample :
  exists w',
    script (Samples.parse_payload Samples.disabled_config)
           Samples.fresh_window = (w', Exited)
    /\ document w' = document Samples.fresh_window
    /\ registrations w' = registrations Samples.fresh_window
    /\ forall el,
         nodes (document w') el = nodes (document Samples.fresh_window) el.
Proof.
  apply (ScriptFacts.disabled_script_is_inert
           (Samples.parse_payload Samples.disabled_config)
           Samples.fresh_window "payload" Samples.disabled_config);
    try reflexivity.
  eexists. split; [left; reflexivity | reflexivity].
Defined.

End Instances.

(* ===================================================================== *)
(** ** More on the normalisers *)
(* ===================================================================== *)

Module NormalizerFacts.

Import Server JSFacts.

Section Facts.

Variable JSON_parse : string -> option value.
Variable toNumericId : value -> string.

Local Abbreviation safeParseJson := (Server.safeParseJson JSON_parse).
Local Abbreviation validIdSet := (Server.validIdSet toNumericId).
Local Abbreviation cleanImageIds := (Server.cleanImageIds toNumericId).
Local Abbreviation normalizeMapping :=
  (Server.normalizeMapping JSON_parse toNumericId).
Local Abbreviation normalizeOptionMapping :=
  (Server.normalizeOptionMapping JSON_parse toNumericId).
Local Abbreviation normalizeProductMapping :=
  (Server.normalizeProductMapping JSON_parse toNumericId).
Local Abbreviation clean_list := (Shapes.clean_list toNumericId).
Local Abbreviation legacy_entry := (Shapes.legacy_entry toNumericId).
Local Abbreviation mapping_entry := (Shapes.mapping_entry toNumericId).

Lemma cleanImageIds_clean (imgs : list string) (candidates : list value) :
  cleanImageIds (validIdSet imgs) candidates <> [] ->
  clean_list imgs (cleanImageIds (validIdSet imgs) candidates).
Proof.
  intros Hne. split; [exact Hne|]. split.
  - apply ServerFacts.cleanImageIds_NoDup.
  - intros i Hi. apply ServerFacts.cleanImageIds_In in Hi.
    destruct Hi as [Ha [Hi _]]. split; [exact Hi|].
    now apply ServerFacts.allowed_by_validIdSet.
Qed.

Lemma normalizeMapping_entries (raw : value) (variantIds imgs : list string) :
  Forall (legacy_entry variantIds imgs) (normalizeMapping raw variantIds imgs).
Proof.
  unfold Server.normalizeMapping.
  destruct (unwrap_source (safeParseJson raw (VObj []))); try constructor.
  apply ServerFacts.fold_left_ind; [constructor|].
  intros a [k v] _ Ha. unfold normalizeMapping_step.
  destruct (nonempty (toNumericId (VStr k))) eqn:Hk; simpl; [|assumption].
  destruct (allowed_by (validIdSet variantIds) (toNumericId (VStr k)))
    eqn:Hv; simpl; [|assumption].
  destruct (cleanImageIds (validIdSet imgs) (candidateImages v))
    as [|i ids] eqn:Hc; [assumption|].
  apply Forall_obj_assign; [|assumption].
  split; [|split]; cbn [fst snd].
  - now apply ServerFacts.nonempty_true.
  - now apply ServerFacts.allowed_by_validIdSet.
  - rewrite <- Hc. apply cleanImageIds_clean. rewrite Hc. discriminate.
Qed.

(** X1: in the filtered legacy map every key is the non-empty numeric form
    of a valid variant identifier (when any is given), no key occurs twice,
    and every list is a non-empty, duplicate-free list of numeric forms of
    valid image identifiers (when any is given). *)
Theorem normalizeMapping_domain (raw : value)
    (validVariantIds validImageIds : list string) :
  NoDup (obj_keys (normalizeMapping raw validVariantIds validImageIds))
  /\ forall key ids,
       In (key, ids) (normalizeMapping raw validVariantIds validImageIds) ->
       key <> ""
       /\ (validVariantIds <> [] ->
           exists g, In g validVariantIds /\ toNumericId (VStr g) = key)
       /\ ids <> []
       /\ NoDup ids
       /\ forall i, In i ids ->
            i <> ""
            /\ (validImageIds <> [] ->
                exists g, In g validImageIds /\ toNumericId (VStr g) = i).
Proof.
  split; [apply ServerFacts.normalizeMapping_keys|].
  intros key ids Hin.
  pose proof (normalizeMapping_entries raw validVariantIds validImageIds)
    as Hall.
  rewrite Forall_forall in Hall.
  destruct (Hall _ Hin) as [Hk [Hv [Hne [Hnd Hids]]]]. auto.
Qed.

(** *** The shape of every normalised product mapping *)

Lemma migrate_step_entries (byVariant : obj (option string))
    (imgs : list string) (acc : obj (list string))
    (entry : string * list string) :
  clean_list imgs (snd entry) ->
  Forall (mapping_entry imgs) acc ->
  Forall (mapping_entry imgs) (Props.merged byVariant acc entry).
Proof.
  intros [Hne [_ Hids]] Hacc. destruct entry as [v lv]. cbn [snd] in *.
  unfold Props.merged.
  destruct (Map_get v byVariant) as [[w|]|]; try assumption.
  destruct (nonempty w) eqn:Hw; simpl; [|assumption].
  apply Forall_obj_set; [|assumption].
  split; cbn [fst snd]; [now apply ServerFacts.nonempty_true|].
  split; [|split; [apply Set_of_NoDup|]].
  - intros E. apply Set_of_nil_inv in E. apply app_eq_nil in E. tauto.
  - intros i Hi. rewrite Set_of_In in Hi. apply in_app_or in Hi.
    destruct Hi as [Hi|Hi]; [|now apply Hids].
    unfold get_or_empty in Hi.
    destruct (obj_get w acc) as [l|] eqn:Hl; [|destruct Hi].
    apply obj_get_In in Hl. rewrite Forall_forall in Hacc.
    destruct (Hacc _ Hl) as [_ [_ [_ Hl']]]. now apply Hl'.
Qed.

Lemma has_option_named_In (options : list ProductOption) (s : string) :
  has_option_named options (VStr s) = true ->
  exists option, In option options /\ name option = s.
Proof.
  unfold has_option_named. rewrite existsb_exists.
  intros [o [Hin He]]. simpl in He. apply String.eqb_eq in He. eauto.
Qed.

Lemma migrate_TypeError_inv (byVariant : obj (option string))
    (es acc : obj (list string)) :
  migrate byVariant es acc = TypeError ->
  exists v lv optionValue,
    In (v, lv) es /\ Map_get v byVariant = Some (Some optionValue)
    /\ includes optionValue Object_prototype = true.
Proof.
  revert acc. induction es as [|[v lv] es IH]; intros acc.
  - discriminate.
  - rewrite ServerFacts.migrate_cons.
    destruct (migrate_step byVariant acc (v, lv)) as [o|] eqn:E.
    + intros H. destruct (IH o H) as [v' [lv' [w [Hin Hw]]]].
      exists v', lv', w. split; [now right | assumption].
    + intros _. apply ServerFacts.migrate_step_throws in E.
      destruct E as [w [Hw [Hinh _]]].
      exists v, lv, w. split; [now left | now split].
Qed.

(** X2: whenever [normalizeProductMapping] returns, the mapping it returns
    has mode [option]; its option name is the name of one of the product's
    options, or [Option] when the product has none; no key occurs twice;
    every key is non-empty and every list is a non-empty, duplicate-free
    list of numeric forms of valid image identifiers.  It returns for
    every persisted value in option mode, and for every other one when no
    variant's value of the first option names a member of
    [Object.prototype]. *)
Theorem normalizeProductMapping_shape (raw : value)
    (options : list ProductOption) (variants : list Variant)
    (imageIds : list string) :
  (forall out,
     normalizeProductMapping raw options variants imageIds = Ok out ->
     mode out = "option"
     /\ (options = [] -> optionName out = "Option")
     /\ (options <> [] ->
         exists option, In option options /\ name option = optionName out)
     /\ NoDup (obj_keys (mapping out))
     /\ forall key ids,
          In (key, ids) (mapping out) ->
          key <> ""
          /\ ids <> []
          /\ NoDup ids
          /\ forall i, In i ids ->
               i <> ""
               /\ (imageIds <> [] ->
                   exists g, In g imageIds /\ toNumericId (VStr g) = i))
  /\ (is_option_mode (safeParseJson raw (VObj [])) = true ->
      exists out,
        normalizeProductMapping raw options variants imageIds = Ok out)
  /\ ((forall variant selected,
         In variant variants ->
         find (fun opt =>
                 String.eqb (so_name opt) (fallbackOptionName options))
              (selectedOptions variant) = Some selected ->
         includes (so_value selected) Object_prototype = false) ->
      exists out,
        normalizeProductMapping raw options variants imageIds = Ok out).
Proof.
  assert (Hfallback : options <> [] ->
            exists option, In option options
                           /\ name option = fallbackOptionName options).
  { destruct options as [|o rest]; [congruence|]. intros _.
    exists o. split; [now left | reflexivity]. }
  split; [|split].
  - intros out. unfold Server.normalizeProductMapping.
    destruct (is_option_mode (safeParseJson raw (VObj []))).
    + intros [= <-]. cbn [mode optionName mapping].
      split; [reflexivity|]. split; [|split; [|split]].
      * intros ->.
        destruct (prop (safeParseJson raw (VObj [])) "optionName");
          reflexivity.
      * intros Hne.
        destruct (prop (safeParseJson raw (VObj [])) "optionName");
          try (now apply Hfallback).
        destruct (has_option_named options (VStr s)) eqn:Hs;
          [now apply has_option_named_In | now apply Hfallback].
      * match goal with
        | |- NoDup (obj_keys (Server.normalizeOptionMapping _ _ ?r ?v ?i)) =>
            unfold Server.normalizeOptionMapping;
            destruct (unwrap_source (safeParseJson r (VObj [])));
              try constructor
        end.
        apply (ServerFacts.fold_left_ind
                 (fun a => NoDup (obj_keys a) /\ Props.ordered (obj_keys a))).
        -- split; [constructor | exact I].
        -- intros a b _. apply ServerFacts.normalizeOptionMapping_step_keys.
      * intros key ids Hin.
        match goal with
        | H : In _ (Server.normalizeOptionMapping _ _ ?r ?v ?i) |- _ =>
            pose proof (ServerFacts.normalizeOptionMapping_entries
                          JSON_parse toNumericId r v i) as Hall
        end.
        rewrite Forall_forall in Hall.
        destruct (Hall _ Hin) as [Hk [_ [Hne [Hnd Hids]]]]. auto.
    + destruct (migrate _ _ _) as [res|] eqn:Hres; [|discriminate].
      intros [= <-]. cbn [mode optionName mapping].
      apply ServerFacts.migrate_Ok in Hres. subst res.
      split; [reflexivity|]. split; [now intros ->|].
      split; [exact Hfallback|]. split.
      * apply (ServerFacts.fold_left_ind
                 (fun a => NoDup (obj_keys a) /\ Props.ordered (obj_keys a))).
        -- split; [constructor | exact I].
        -- intros a b _. apply ServerFacts.migrate_step_keys.
      * intros key ids Hin.
        assert (Hall : Forall (mapping_entry imageIds)
                  (fold_left
                     (Props.merged
                        (optionValueByVariant toNumericId
                           (fallbackOptionName options) variants))
                     (normalizeMapping (safeParseJson raw (VObj []))
                        (map id variants) imageIds) [])).
        { apply ServerFacts.fold_left_ind; [constructor|].
          intros a b Hb Ha. apply migrate_step_entries; [|assumption].
          pose proof (normalizeMapping_entries (safeParseJson raw (VObj []))
                        (map id variants) imageIds) as Hl.
          rewrite Forall_forall in Hl. exact (proj2 (proj2 (Hl b Hb))). }
        rewrite Forall_forall in Hall.
        destruct (Hall _ Hin) as [Hk [Hne [Hnd Hids]]]. auto.
  - intros Hmode. unfold Server.normalizeProductMapping. rewrite Hmode.
    eexists. reflexivity.
  - intros Hplain. unfold Server.normalizeProductMapping.
    destruct (is_option_mode (safeParseJson raw (VObj [])));
      [eexists; reflexivity|].
    destruct (ServerFacts.migrate_returns
                (optionValueByVariant toNumericId
                   (fallbackOptionName options) variants)
                (normalizeMapping (safeParseJson raw (VObj []))
                   (map id variants) imageIds) []) as [m Hm].
    + intros v lv w _ Hw.
      apply ServerFacts.optionValueByVariant_from_variant in Hw.
      destruct Hw as [variant [selected [Hin [Hfind <-]]]].
      exact (Hplain variant selected Hin Hfind).
    + rewrite Hm. eexists. reflexivity.
Qed.

(** *** The migrated mapping, exactly *)

Lemma migrate_step_has_inv (byVariant : obj (option string)) (ov : string)
    (acc : obj (list string)) (v : string) (lv : list string) :
  obj_has ov (Props.merged byVariant acc (v, lv)) = true ->
  obj_has ov acc = true \/ Map_get v byVariant = Some (Some ov).
Proof.
  unfold Props.merged.
  destruct (Map_get v byVariant) as [[w|]|]; try tauto.
  destruct (nonempty w); simpl; [|tauto].
  rewrite ServerFacts.obj_has_set.
  destruct (String.eqb_spec ov w) as [->|_]; simpl; [now right | tauto].
Qed.

Lemma migrate_fold_has_inv (byVariant : obj (option string)) (ov : string)
    (es acc : obj (list string)) :
  obj_has ov (fold_left (Props.merged byVariant) es acc) = true ->
  obj_has ov acc = true
  \/ exists v lv, In (v, lv) es /\ Map_get v byVariant = Some (Some ov).
Proof.
  revert acc. induction es as [|[v lv] es IH]; intros acc; cbn [fold_left].
  - tauto.
  - intros H. apply IH in H. destruct H as [H|[v' [lv' [Hin Hv]]]].
    + apply migrate_step_has_inv in H. destruct H as [H|H]; [now left|].
      right. exists v, lv. split; [now left | assumption].
    + right. exists v', lv'. split; [now right | assumption].
Qed.

(** X4: the legacy branch, exactly.  It throws exactly when a variant of
    the filtered legacy map carries, for the target option, the name of a
    member of [Object.prototype].  When it returns, the migrated mapping
    has an entry for a non-empty option value exactly when some variant of
    the filtered legacy map carries that value, and the entry lists exactly
    the images of those variants: variants without a value for the target
    option, and variants the legacy map does not mention, contribute
    nothing. *)
Theorem legacy_migration_exact (raw : value) (options : list ProductOption)
    (variants : list Variant) (imageIds : list string)
    (optionValue : string) :
  let parsed := safeParseJson raw (VObj []) in
  let legacy := normalizeMapping parsed (map id variants) imageIds in
  let byVariant :=
    optionValueByVariant toNumericId (fallbackOptionName options) variants in
  is_option_mode parsed = false ->
  optionValue <> "" ->
  (normalizeProductMapping raw options variants imageIds = TypeError <->
   exists v lv name,
     obj_get v legacy = Some lv
     /\ Map_get v byVariant = Some (Some name)
     /\ includes name Object_prototype = true)
  /\ forall m,
       normalizeProductMapping raw options variants imageIds = Ok m ->
       (obj_has optionValue (mapping m) = true <->
        exists v lv, obj_get v legacy = Some lv
                     /\ Map_get v byVariant = Some (Some optionValue))
       /\ forall x,
            In x (get_or_empty optionValue (mapping m)) <->
            exists v lv, obj_get v legacy = Some lv
                         /\ Map_get v byVariant = Some (Some optionValue)
                         /\ In x lv.
Proof.
  intros parsed legacy byVariant Hmode Hne.
  rewrite (ServerFacts.normalizeProductMapping_legacy JSON_parse toNumericId
             raw options variants imageIds Hmode).
  fold parsed. fold legacy. fold byVariant.
  assert (Hkeys : NoDup (obj_keys legacy))
    by apply ServerFacts.normalizeMapping_keys.
  split.
  - split.
    + destruct (migrate byVariant legacy []) eqn:E; [discriminate|].
      intros _. apply migrate_TypeError_inv in E.
      destruct E as [v [lv [w [Hin Hw]]]].
      exists v, lv, w. split; [now apply In_obj_get | assumption].
    + intros [v [lv [w [Hget Hw]]]].
      rewrite (ServerFacts.migrate_throws byVariant legacy []);
        [reflexivity | intros k [] |].
      exists v, lv, w. split; [now apply obj_get_In | assumption].
  - intros m.
    destruct (migrate byVariant legacy []) as [out|] eqn:Hout;
      [|discriminate].
    intros [= <-]. cbn [mapping].
    apply ServerFacts.migrate_Ok in Hout. rewrite Hout. split.
    + split.
      * intros H. apply migrate_fold_has_inv in H.
        destruct H as [H|[v [lv [Hin Hv]]]]; [discriminate|].
        exists v, lv. split; [now apply In_obj_get | assumption].
      * intros [v [lv [Hget Hv]]].
        apply ServerFacts.migrate_fold_has; [assumption|].
        right. exists v, lv. split; [now apply obj_get_In | assumption].
    + intros x.
      rewrite (ServerFacts.migrate_fold_images JSON_parse byVariant
                 optionValue Hne).
      split.
      * intros [[]|[v [lv [Hin [Hv Hx]]]]].
        exists v, lv. split; [now apply In_obj_get | now split].
      * intros [v [lv [Hget [Hv Hx]]]]. right.
        exists v, lv. split; [now apply obj_get_In | now split].
Qed.

(** *** Saving and loading again *)

Lemma normalizeProductMapping_parsed (raw : value) (o : obj value)
    (options : list ProductOption) (variants : list Variant)
    (imageIds : list string) :
  safeParseJson raw (VObj []) = VObj o ->
  normalizeProductMapping raw options variants imageIds
  = normalizeProductMapping (VObj o) options variants imageIds.
Proof.
  intros H. unfold Server.normalizeProductMapping. rewrite H. reflexivity.
Qed.

(** X3: when the identifier normalisation is idempotent, the variants carry
    declared values of the first option and no entry of the output is
    spelled [mapping], the normalised product mapping that a normalisation
    returns is a fixed point: normalising it again, as the object or as any
    persisted text that parses to it, returns it unchanged, entries and
    order included. *)
Theorem normalizeProductMapping_round_trip (raw stored : value)
    (options : list ProductOption) (variants : list Variant)
    (imageIds : list string) :
  (forall v, toNumericId (VStr (toNumericId v)) = toNumericId v) ->
  Props.consistent_product options variants ->
  forall once,
    normalizeProductMapping raw options variants imageIds = Ok once ->
    obj_has "mapping" (mapping once) = false ->
    safeParseJson stored (VObj []) = value_of_mapping once ->
    normalizeProductMapping stored options variants imageIds = Ok once.
Proof.
  intros Hidem Hcons once Honce Hno Hstored.
  unfold value_of_mapping in Hstored.
  rewrite (normalizeProductMapping_parsed stored _ options variants imageIds
             Hstored).
  now apply (ServerFacts.normalizeProductMapping_fixed_point JSON_parse
               toNumericId Hidem options variants imageIds raw).
Qed.

End Facts.

End NormalizerFacts.

(* ===================================================================== *)
(** ** The routes *)
(* ===================================================================== *)

Module RoutesFacts.

Import Server Routes JSFacts.

Section Facts.

Variable JSON_parse : string -> option value.
Variable toNumericId : value -> string.

Local Abbreviation safeParseJson := (Server.safeParseJson JSON_parse).
Local Abbreviation normalizeSettings := (Server.normalizeSettings JSON_parse).
Local Abbreviation normalizeOptionMapping :=
  (Server.normalizeOptionMapping JSON_parse toNumericId).
Local Abbreviation assign_action :=
  (Routes.assign_action JSON_parse toNumericId).
Local Abbreviation getProductForAssignment :=
  (Routes.getProductForAssignment JSON_parse toNumericId).
Local Abbreviation settings_action := (Routes.settings_action JSON_parse).
Local Abbreviation summarizeProduct := (Routes.summarizeProduct JSON_parse).

Lemma saveShopSettings_flags
    (metafieldsSet : Settings -> option (list string)) (e a h : bool) :
  Routes.saveShopSettings JSON_parse metafieldsSet
    (VObj [("enabled", VBool e); ("allowSharedImages", VBool a);
           ("hideUnassignedImages", VBool h)])
  = match metafieldsSet
            {| Server.enabled := e; Server.allowSharedImages := a;
               Server.hideUnassignedImages := h |} with
    | Some [] =>
        Done {| Server.enabled := e; Server.allowSharedImages := a;
                Server.hideUnassignedImages := h |}
    | _ => Throws
    end.
Proof.
  unfold Routes.saveShopSettings.
  rewrite ServerFacts.normalizeSettings_object.
  cbn [prop obj_get String.eqb Ascii.eqb Bool.eqb boolean_or].
  destruct (metafieldsSet _) as [[|u us]|]; reflexivity.
Qed.

(** X5: the settings action returns exactly when the request is
    authenticated, the shop query answers and the mutation, handed the
    three submitted flags (a flag being on only for the text [true]),
    reports no user error; it then returns those flags, and otherwise it
    throws.  Settings stored by it read back as themselves: normalising a
    persisted value that parses to a settings record returns that
    record. *)
Theorem settings_round_trip (s : Settings) (stored : value)
    (authenticated : bool) (shop : option value)
    (metafieldsSet : value -> Settings -> option (list string))
    (enabled allowShared hideUnassigned : option string) :
  safeParseJson stored (VObj []) = value_of_settings s ->
  let submitted :=
    {| Server.enabled := is_true_field enabled;
       Server.allowSharedImages := is_true_field allowShared;
       Server.hideUnassignedImages := is_true_field hideUnassigned |} in
  let outcome :=
    settings_action authenticated shop metafieldsSet
      enabled allowShared hideUnassigned in
  normalizeSettings stored = Ok s
  /\ (forall saved,
        outcome = Done saved <->
        authenticated = true
        /\ saved = submitted
        /\ exists shopId,
             shop = Some shopId /\ metafieldsSet shopId submitted = Some [])
  /\ (outcome = Throws <->
      authenticated = false
      \/ shop = None
      \/ exists shopId,
           shop = Some shopId /\ metafieldsSet shopId submitted <> Some []).
Proof.
  intros H submitted outcome. split.
  { unfold Server.normalizeSettings. rewrite H. destruct s. reflexivity. }
  unfold outcome, Routes.settings_action.
  destruct authenticated; cbn [negb].
  2:{ split.
      - intros saved. split; [discriminate | intros [E _]; discriminate].
      - split; [now left | reflexivity]. }
  destruct shop as [shopId|].
  2:{ split.
      - intros saved. split; [discriminate|].
        intros [_ [_ [x [E _]]]]. discriminate.
      - split; [right; now left | reflexivity]. }
  rewrite saveShopSettings_flags. fold submitted.
  destruct (metafieldsSet shopId submitted) as [[|u us]|] eqn:E; split.
  - intros saved. split.
    + intros [= <-]. split; [reflexivity|]. split; [reflexivity|].
      now exists shopId.
    + intros [_ [-> _]]. reflexivity.
  - split; [discriminate|].
    intros [E'|[E'|[x [[= <-] Hx]]]]; try discriminate. congruence.
  - intros saved. split; [discriminate|].
    intros [_ [_ [x [[= <-] Hx]]]]. congruence.
  - split; [|reflexivity]. intros _. right. right. exists shopId.
    split; [reflexivity | congruence].
  - intros saved. split; [discriminate|].
    intros [_ [_ [x [[= <-] Hx]]]]. congruence.
  - split; [|reflexivity]. intros _. right. right. exists shopId.
    split; [reflexivity | congruence].
Qed.

(** *** The assign-images action *)

Lemma resolveOptionName_In (optionName : option string)
    (options : list ProductOption) (resolved : string) :
  resolveOptionName optionName options = Some resolved ->
  exists option, In option options /\ name option = resolved.
Proof.
  assert (Hfirst : option_map name (hd_error options) = Some resolved ->
                   exists option, In option options /\ name option = resolved).
  { destruct options as [|o rest]; [discriminate|]. simpl.
    intros [= <-]. exists o. split; [now left | reflexivity]. }
  unfold resolveOptionName. destruct optionName as [n|]; [|exact Hfirst].
  destruct (existsb (fun opt => String.eqb (name opt) n) options) eqn:E;
    [|exact Hfirst].
  intros [= <-]. apply existsb_exists in E. destruct E as [o [Hin He]].
  apply String.eqb_eq in He. eauto.
Qed.

Lemma assign_action_Saved (fetch : string -> option Product)
    (intent productId optionName rawMapping : option string)
    (saved : ProductMapping) :
  assign_action fetch intent productId optionName rawMapping = Saved saved ->
  exists pid product,
    productId = Some pid /\ pid <> "" /\ fetch pid = Some product
    /\ resolveOptionName optionName (product_options product)
       = Some (Server.optionName saved)
    /\ Server.optionName saved <> ""
    /\ mode saved = "option"
    /\ mapping saved =
       if match intent with
          | Some i => String.eqb i "reset"
          | None => false
          end
       then []
       else normalizeOptionMapping
              (match rawMapping with
               | Some text => VStr text
               | None => VNull
               end)
              (optionValuesOf (product_options product)
                              (Server.optionName saved))
              (map image_id (product_images product)).
Proof.
  unfold Routes.assign_action.
  destruct productId as [pid|]; [|discriminate].
  destruct (String.eqb_spec pid "") as [|Hpid]; [discriminate|].
  destruct (fetch pid) as [product|] eqn:Hfetch; [|discriminate].
  destruct (Routes.getProductForAssignment JSON_parse toNumericId product);
    [|discriminate].
  destruct (resolveOptionName optionName (product_options product))
    as [resolved|] eqn:Hres; [|discriminate].
  destruct (String.eqb_spec resolved "") as [|Hne]; [discriminate|].
  intros [= <-]. exists pid, product. cbn [Server.optionName mode mapping].
  repeat split; assumption.
Qed.

(** X6: the assign-images action saves only for a product the catalog knows
    and that has an option with a non-empty name; what it saves has mode
    [option], the name of one of the product's options, no entry at all
    for a reset, and otherwise only entries whose key is non-empty and one
    of that option's declared values (when it declares any) and whose list
    is a non-empty, duplicate-free list of numeric forms of the product's
    image identifiers (when it has images). *)
Theorem assign_action_saves_canonical (fetch : string -> option Product)
    (intent productId optionName rawMapping : option string)
    (saved : ProductMapping) :
  assign_action fetch intent productId optionName rawMapping = Saved saved ->
  exists pid product,
    productId = Some pid /\ pid <> "" /\ fetch pid = Some product
    /\ mode saved = "option"
    /\ Server.optionName saved <> ""
    /\ (exists option,
          In option (product_options product)
          /\ name option = Server.optionName saved)
    /\ (intent = Some "reset" -> mapping saved = [])
    /\ forall key ids,
         In (key, ids) (mapping saved) ->
         key <> ""
         /\ (optionValuesOf (product_options product)
                            (Server.optionName saved) <> [] ->
             In key (optionValuesOf (product_options product)
                                    (Server.optionName saved)))
         /\ Shapes.clean_list toNumericId
              (map image_id (product_images product)) ids.
Proof.
  intros H. apply assign_action_Saved in H.
  destruct H as [pid [product [Hp [Hpid [Hf [Hres [Hne [Hmode Hmap]]]]]]]].
  exists pid, product. repeat (split; [assumption|]).
  split; [now apply resolveOptionName_In in Hres|]. split.
  - intros ->. now rewrite Hmap.
  - intros key ids Hin. rewrite Hmap in Hin.
    destruct (match intent with
              | Some i => String.eqb i "reset"
              | None => false
              end); [destruct Hin|].
    match type of Hin with
    | In _ (Server.normalizeOptionMapping _ _ ?r ?v ?i) =>
        pose proof (ServerFacts.normalizeOptionMapping_entries
                      JSON_parse toNumericId r v i) as Hall
    end.
    rewrite Forall_forall in Hall.
    destruct (Hall _ Hin) as [Hk [Hv [Hn [Hnd Hids]]]].
    cbn [fst snd] in *.
    split; [assumption|]. split; [assumption|].
    split; [assumption|]. split; assumption.
Qed.

(** X7: what the action saves is what the loader shows.  For an idempotent
    identifier normalisation and a saved mapping without an entry spelled
    [mapping], loading the product again, with the same options and images
    and a metafield that parses to the saved value, returns the saved
    value, entries and order included. *)
Theorem saved_mapping_loads_back (fetch : string -> option Product)
    (intent optionName rawMapping : option string) (pid : string)
    (product reloaded : Product) (saved : ProductMapping) :
  (forall v, toNumericId (VStr (toNumericId v)) = toNumericId v) ->
  fetch pid = Some product ->
  assign_action fetch intent (Some pid) optionName rawMapping = Saved saved ->
  obj_has "mapping" (mapping saved) = false ->
  product_options reloaded = product_options product ->
  product_images reloaded = product_images product ->
  safeParseJson (metafield_value reloaded) (VObj []) = value_of_mapping saved ->
  getProductForAssignment reloaded = Ok saved.
Proof.
  intros Hidem Hfetch Hact Hno Hopts Himgs Hmeta.
  apply assign_action_Saved in Hact.
  destruct Hact as [pid' [product' [Hp [_ [Hf [Hres [_ [Hmode Hmap]]]]]]]].
  injection Hp as <-. rewrite Hfetch in Hf. injection Hf as <-.
  unfold Routes.getProductForAssignment. rewrite Hopts, Himgs.
  unfold value_of_mapping in Hmeta.
  rewrite (NormalizerFacts.normalizeProductMapping_parsed JSON_parse
             toNumericId _ _ _ _ _ Hmeta).
  fold (value_of_mapping saved).
  rewrite (ServerFacts.normalizeProductMapping_canonical JSON_parse
             toNumericId _ _ _ saved Hmode).
  assert (Hname : has_option_named (product_options product)
                    (VStr (Server.optionName saved)) = true).
  { apply resolveOptionName_In in Hres. destruct Hres as [o [Hin Ho]].
    unfold has_option_named. apply existsb_exists. exists o.
    split; [assumption|]. simpl. rewrite Ho. apply String.eqb_refl. }
  cbv zeta. rewrite Hname.
  assert (Htable :
    Server.normalizeOptionMapping JSON_parse toNumericId
      (value_of_table (mapping saved))
      (optionValuesOf (product_options product) (Server.optionName saved))
      (map image_id (product_images product)) = mapping saved).
  { assert (Hshape :
      obj_has "__proto__" (mapping saved) = false
      /\ Forall (Props.stable_entry toNumericId
                   (validValueSet
                      (optionValuesOf (product_options product)
                                      (Server.optionName saved)))
                   (Server.validIdSet toNumericId
                      (map image_id (product_images product))))
                (mapping saved)
      /\ NoDup (obj_keys (mapping saved))
      /\ Props.ordered (obj_keys (mapping saved))).
    { rewrite Hmap.
      destruct (match intent with
                | Some i => String.eqb i "reset"
                | None => false
                end).
      - split; [reflexivity|]. split; [constructor|].
        split; [constructor | exact I].
      - split; [apply ServerFacts.normalizeOptionMapping_no_proto|].
        apply (ServerFacts.normalizeOptionMapping_stable JSON_parse
                 toNumericId Hidem). }
    destruct Hshape as [Hproto [Hst [Hnd Hord]]].
    now apply ServerFacts.normalizeOptionMapping_table. }
  rewrite Htable. destruct saved. cbn in Hmode |- *. now rewrite Hmode.
Qed.

(** *** The dashboard summary *)

Lemma Set_add_value_string (acc : list string) (x : string) :
  Set_add_value (map VStr acc) (VStr x) = map VStr (Set_add acc x).
Proof.
  unfold Set_add_value, Set_add, Set_has.
  assert (H : existsb (fun y => strict_eq y (VStr x)) (map VStr acc)
              = existsb (String.eqb x) acc).
  { induction acc as [|a acc IH]; simpl; [reflexivity|].
    now rewrite IH, String.eqb_sym. }
  rewrite H. destruct (existsb (String.eqb x) acc); [reflexivity|].
  now rewrite map_app.
Qed.

Lemma Set_of_values_strings (l : list string) :
  Set_of_values (map VStr l) = map VStr (Set_of l).
Proof.
  unfold Set_of_values, Set_of.
  change (@nil value) with (map VStr []).
  generalize (@nil string).
  induction l as [|x l IH]; intros acc; simpl; [reflexivity|].
  now rewrite Set_add_value_string, IH.
Qed.

Lemma flat_values_of_table (table : obj (list string)) :
  Storefront.flat (Storefront.Object_values (value_of_table table))
  = map VStr (List.concat (map snd table)).
Proof.
  unfold value_of_table, Storefront.Object_values, Storefront.Object_entries,
    Storefront.flat.
  induction table as [|[k ids] table IH]; simpl; [reflexivity|].
  now rewrite IH, map_app.
Qed.

(** X8: for a product whose metafield parses to a saved mapping, the
    dashboard counts one configured value per entry and every assigned
    image once, however many values share it, and reports the product
    configured exactly when the mapping has an entry; after a reset it is
    not configured. *)
Theorem summarizeProduct_of_saved_mapping (metafield : value)
    (saved : ProductMapping) (images : list Image) (variants : list Variant) :
  safeParseJson metafield (VObj []) = value_of_mapping saved ->
  mode saved = "option" ->
  let summary := summarizeProduct metafield images variants in
  configuredVariants summary = List.length (mapping saved)
  /\ assignedImagesCount summary
     = List.length (Set_of (List.concat (map snd (mapping saved))))
  /\ (isConfigured summary = true <-> mapping saved <> [])
  /\ mediaCount summary = List.length images
  /\ variantsCount summary = List.length variants.
Proof.
  intros Hmeta Hmode summary.
  assert (Hsum : summary =
            {| mediaCount := List.length images;
               variantsCount := List.length variants;
               configuredVariants := List.length (mapping saved);
               assignedImagesCount :=
                 List.length (Set_of (List.concat (map snd (mapping saved))));
               isConfigured := (0 <? List.length (mapping saved))%nat |}).
  { unfold summary, Routes.summarizeProduct. rewrite Hmeta.
    unfold is_option_mode, value_of_mapping.
    cbn -[String.eqb value_of_table Storefront.flat Storefront.Object_values].
    rewrite Hmode.
    cbn -[value_of_table Storefront.flat Storefront.Object_values].
    change (safeParseJson (value_of_table (mapping saved)) (VObj []))
      with (value_of_table (mapping saved)).
    change (truthy (value_of_table (mapping saved))
            && typeof_object (value_of_table (mapping saved))) with true.
    cbv iota.
    rewrite flat_values_of_table, Set_of_values_strings.
    unfold value_of_table. cbn. now rewrite !length_map. }
  rewrite Hsum. cbn.
  repeat (split; [reflexivity|]). split; [|split; reflexivity].
  destruct (mapping saved); simpl; split; congruence.
Qed.

End Facts.

End RoutesFacts.

(* ===================================================================== *)
(** ** More on the recomputation pass *)
(* ===================================================================== *)

Module PassFacts.

Import Storefront Props Decisions JSFacts.

Lemma show_show (el : Element) : show (show el) = show el.
Proof.
  unfold show. cbn. f_equal. apply AssignFacts.filter_idempotent.
Qed.

Lemma hide_hide (el : Element) : hide (hide el) = hide el.
Proof.
  assert (H : includes hidden_class (classList (hide el)) = true)
    by (apply includes_In, GalleryFacts.hide_is_hidden).
  unfold hide at 1. rewrite H. reflexivity.
Qed.

Lemma settled_twice (env : Env) (a s : list value) (el : Element) :
  settled env a s (settled env a s el) = settled env a s el.
Proof.
  unfold settled. destruct (isVisible env a s el) eqn:E.
  - rewrite (GalleryFacts.isVisible_img env a s (show el) el), E
      by reflexivity.
    apply show_show.
  - rewrite (GalleryFacts.isVisible_img env a s (hide el) el), E
      by reflexivity.
    apply hide_hide.
Qed.

Lemma mem_In (n : nat) (l : list nat) :
  existsb (Nat.eqb n) l = true <-> In n l.
Proof.
  rewrite existsb_exists. split.
  - intros [m [Hin He]]. apply Nat.eqb_eq in He. now subst.
  - intros H. exists n. split; [assumption | apply Nat.eqb_refl].
Qed.

(** The store after a run of [setVisible] calls over [items]. *)
Lemma filter_each_nodes (env : Env) (a s : list value) (items : list nat)
    (doc : Document) (n : nat) :
  nodes (fold_left (filter_thumbs env a s) items doc) n =
  if existsb (Nat.eqb n) items then settled env a s (nodes doc n)
  else nodes doc n.
Proof.
  revert doc. induction items as [|el items IH]; intros doc;
    cbn [fold_left existsb]; [reflexivity|].
  rewrite IH. unfold filter_thumbs.
  rewrite !GalleryFacts.nodes_setVisible.
  destruct (Nat.eqb_spec n el) as [->|Hne]; cbn [orb].
  - fold (settled env a s (nodes doc el)).
    destruct (existsb (Nat.eqb el) items); [apply settled_twice | reflexivity].
  - reflexivity.
Qed.

Lemma hide_each_nodes (items : list nat) (doc : Document) (n : nat) :
  nodes (fold_left (fun d el => setVisible el false d) items doc) n =
  if existsb (Nat.eqb n) items then hide (nodes doc n) else nodes doc n.
Proof.
  revert doc. induction items as [|el items IH]; intros doc;
    cbn [fold_left existsb]; [reflexivity|].
  rewrite IH, GalleryFacts.nodes_setVisible.
  destruct (Nat.eqb_spec n el) as [->|Hne]; cbn [orb]; [|reflexivity].
  destruct (existsb (Nat.eqb el) items); [apply hide_hide | reflexivity].
Qed.

Lemma existsb_app_nat (n : nat) (l1 l2 : list nat) :
  existsb (Nat.eqb n) (l1 ++ l2)
  = existsb (Nat.eqb n) l1 || existsb (Nat.eqb n) l2.
Proof. apply existsb_app. Qed.

Lemma query_activateFirstVisible (first : nat) (doc : Document) :
  querySelectorAll (activateFirstVisible first doc) = querySelectorAll doc.
Proof.
  unfold activateFirstVisible.
  destruct (querySelectorAll doc ".product__media-item[aria-current='true']")
    as [|selected rest]; [reflexivity|].
  destruct (includes hidden_class (classList (nodes doc selected)));
    [|reflexivity].
  simpl. destruct (inner_control (nodes doc first)); reflexivity.
Qed.

(** The fail-closed branch, element by element. *)
Lemma showNone_nodes (doc : Document) (n : nat) :
  nodes (showNone doc) n =
  if existsb (Nat.eqb n) (touched doc) then hide (nodes doc n)
  else nodes doc n.
Proof.
  unfold showNone, touched.
  destruct (GalleryFacts.hide_each (findGalleryItems doc) doc) as [Hq _].
  set (doc1 := fold_left (fun d el => setVisible el false d)
                         (findGalleryItems doc) doc) in *.
  assert (Hthumbs : findThumbItems doc1 = findThumbItems doc)
    by (unfold findThumbItems; now rewrite Hq).
  rewrite hide_each_nodes, Hthumbs. unfold doc1.
  rewrite hide_each_nodes, existsb_app_nat.
  destruct (existsb (Nat.eqb n) (findGalleryItems doc));
    destruct (existsb (Nat.eqb n) (findThumbItems doc)); cbn [orb];
    try reflexivity.
  apply hide_hide.
Qed.

Lemma showNone_query (doc : Document) :
  querySelectorAll (showNone doc) = querySelectorAll doc.
Proof.
  unfold showNone.
  destruct (GalleryFacts.hide_each (findGalleryItems doc) doc) as [Hq _].
  set (doc1 := fold_left (fun d el => setVisible el false d)
                         (findGalleryItems doc) doc) in *.
  destruct (GalleryFacts.hide_each (findThumbItems doc1) doc1) as [Hq2 _].
  now rewrite Hq2.
Qed.

(** The filtering branch, element by element. *)
Lemma filtered_nodes (env : Env) (a s : list value) (doc : Document) :
  querySelectorAll (filtered env a s doc) = querySelectorAll doc
  /\ forall n,
       nodes (filtered env a s doc) n =
       if existsb (Nat.eqb n) (touched doc) then settled env a s (nodes doc n)
       else nodes doc n.
Proof.
  unfold filtered.
  pose proof (GalleryFacts.filter_items_fst env a s (findGalleryItems doc)
                doc None) as Hfst.
  destruct (fold_left (filter_items env a s) (findGalleryItems doc)
                      (doc, None)) as [doc1 firstVisible].
  cbn [fst] in Hfst. subst doc1.
  set (doc1 := fold_left (filter_thumbs env a s) (findGalleryItems doc) doc).
  destruct (GalleryFacts.filter_each env a s (findGalleryItems doc) doc)
    as [Hq1 _]. fold doc1 in Hq1.
  assert (Hthumbs : findThumbItems doc1 = findThumbItems doc)
    by (unfold findThumbItems; now rewrite Hq1).
  destruct (GalleryFacts.filter_each env a s (findThumbItems doc1) doc1)
    as [Hq2 _].
  set (doc2 := fold_left (filter_thumbs env a s) (findThumbItems doc1) doc1)
    in *.
  assert (Hnodes : forall n,
            nodes doc2 n =
            if existsb (Nat.eqb n) (touched doc)
            then settled env a s (nodes doc n) else nodes doc n).
  { intros n. unfold doc2. rewrite filter_each_nodes, Hthumbs. unfold doc1.
    rewrite filter_each_nodes. unfold touched. rewrite existsb_app_nat.
    destruct (existsb (Nat.eqb n) (findGalleryItems doc));
      destruct (existsb (Nat.eqb n) (findThumbItems doc)); cbn [orb];
      try reflexivity.
    apply settled_twice. }
  destruct firstVisible as [first|].
  - split.
    + now rewrite query_activateFirstVisible, Hq2.
    + intros n. rewrite GalleryFacts.nodes_activateFirstVisible. apply Hnodes.
  - split; [now rewrite Hq2 | exact Hnodes].
Qed.

(** [filterGallery], branch by branch. *)
Lemma filterGallery_branches (env : Env) (variantId : string)
    (doc : Document) :
  filterGallery env variantId doc =
  if String.eqb variantId "" then Ok doc
  else
    match get_computed (mappingTable env)
              (ToString (resolveMappingKey env variantId)) with
    | TypeError => TypeError
    | Ok allowedIds =>
        if negb (found_truthy allowedIds) then Ok (showNone doc)
        else
          match iterate_found allowedIds with
          | TypeError => TypeError
          | Ok allowedSet =>
              match findGalleryItems doc with
              | [] => Ok doc
              | _ :: _ =>
                  Ok (filtered env allowedSet
                        (flat (Object_values (mappingTable env))) doc)
              end
          end
    end.
Proof.
  unfold filterGallery, filtered.
  destruct (String.eqb variantId ""); [reflexivity|].
  destruct (get_computed (mappingTable env)
                (ToString (resolveMappingKey env variantId)))
    as [allowedIds|]; [|reflexivity].
  cbn [bind]. destruct (negb (found_truthy allowedIds)); [reflexivity|].
  destruct (iterate_found allowedIds) as [allowedSet|]; [|reflexivity].
  cbn [bind]. destruct (findGalleryItems doc) as [|item items];
    [reflexivity|].
  destruct (fold_left
              (filter_items env allowedSet
                 (flat (Object_values (mappingTable env))))
              (item :: items) (doc, None)) as [doc1 firstVisible].
  destruct firstVisible; reflexivity.
Qed.

Lemma touched_query (doc doc' : Document) :
  querySelectorAll doc' = querySelectorAll doc ->
  touched doc' = touched doc /\ findGalleryItems doc' = findGalleryItems doc.
Proof.
  intros H. unfold touched, findGalleryItems, findThumbItems.
  assert (Hf : forall sels, first_nonempty doc' sels = first_nonempty doc sels).
  { induction sels as [|sel sels IH]; simpl; [reflexivity|].
    now rewrite H, IH. }
  now rewrite Hf, H.
Qed.

(** X16: a pass is idempotent.  Running it again for the same variant, as
    the section-load handler does, ends normally whenever the first run
    did and leaves every element exactly as the first run left it. *)
Theorem filterGallery_idempotent (env : Env) (variantId : string)
    (doc doc1 : Document) :
  filterGallery env variantId doc = Ok doc1 ->
  exists doc2,
    filterGallery env variantId doc1 = Ok doc2
    /\ querySelectorAll doc2 = querySelectorAll doc
    /\ forall n, nodes doc2 n = nodes doc1 n.
Proof.
  rewrite !filterGallery_branches.
  destruct (String.eqb variantId "").
  { intros [= <-]. exists doc. repeat split. }
  destruct (get_computed (mappingTable env)
                (ToString (resolveMappingKey env variantId)))
    as [allowedIds|]; [|discriminate].
  destruct (negb (found_truthy allowedIds)).
  { intros [= <-]. exists (showNone (showNone doc)).
    split; [reflexivity|]. split; [now rewrite !showNone_query|].
    intros n. rewrite (showNone_nodes (showNone doc)).
    destruct (touched_query doc (showNone doc) (showNone_query doc))
      as [-> _].
    rewrite showNone_nodes.
    destruct (existsb (Nat.eqb n) (touched doc));
      [apply hide_hide | reflexivity]. }
  destruct (iterate_found allowedIds) as [allowedSet|]; [|discriminate].
  destruct (findGalleryItems doc) as [|item items] eqn:Hitems.
  { intros [= <-]. rewrite Hitems. exists doc. repeat split. }
  intros [= <-].
  set (assigned := flat (Object_values (mappingTable env))).
  destruct (filtered_nodes env allowedSet assigned doc) as [Hq Hn].
  destruct (touched_query doc _ Hq) as [Ht Hg].
  rewrite Hg, Hitems.
  exists (filtered env allowedSet assigned
            (filtered env allowedSet assigned doc)).
  split; [reflexivity|].
  destruct (filtered_nodes env allowedSet assigned
              (filtered env allowedSet assigned doc)) as [Hq2 Hn2].
  split; [now rewrite Hq2|].
  intros n. rewrite Hn2, Ht, Hn.
  destruct (existsb (Nat.eqb n) (touched doc));
    [apply settled_twice | reflexivity].
Qed.

(** X15: a pass that ends normally touches nothing but the display state,
    the [aria-hidden] attribute and the class list of the gallery items and
    thumbnails it found: every other element is what it was, no element
    changes its image or its inner control, and the answers of
    [querySelectorAll] stay the same. *)
Theorem filterGallery_frame (env : Env) (variantId : string)
    (doc doc' : Document) :
  filterGallery env variantId doc = Ok doc' ->
  querySelectorAll doc' = querySelectorAll doc
  /\ (forall n, ~ In n (touched doc) -> nodes doc' n = nodes doc n)
  /\ forall n,
       img (nodes doc' n) = img (nodes doc n)
       /\ inner_control (nodes doc' n) = inner_control (nodes doc n).
Proof.
  rewrite filterGallery_branches.
  assert (Hsame : querySelectorAll doc = querySelectorAll doc
            /\ (forall n, ~ In n (touched doc) -> nodes doc n = nodes doc n)
            /\ forall n,
                 img (nodes doc n) = img (nodes doc n)
                 /\ inner_control (nodes doc n) = inner_control (nodes doc n))
    by (repeat split).
  destruct (String.eqb variantId ""); [now intros [= <-]|].
  destruct (get_computed (mappingTable env)
                (ToString (resolveMappingKey env variantId)))
    as [allowedIds|]; [|discriminate].
  destruct (negb (found_truthy allowedIds)).
  { intros [= <-]. split; [apply showNone_query|]. split.
    - intros n Hn. rewrite showNone_nodes.
      destruct (existsb (Nat.eqb n) (touched doc)) eqn:E; [|reflexivity].
      apply mem_In in E. contradiction.
    - intros n. rewrite showNone_nodes.
      destruct (existsb (Nat.eqb n) (touched doc)); split; reflexivity. }
  destruct (iterate_found allowedIds) as [allowedSet|]; [|discriminate].
  destruct (findGalleryItems doc) as [|item items]; [now intros [= <-]|].
  intros [= <-].
  destruct (filtered_nodes env allowedSet
              (flat (Object_values (mappingTable env))) doc) as [Hq Hn].
  split; [exact Hq|]. split.
  - intros n Hnot. rewrite Hn.
    destruct (existsb (Nat.eqb n) (touched doc)) eqn:E; [|reflexivity].
    apply mem_In in E. contradiction.
  - intros n. rewrite Hn.
    destruct (existsb (Nat.eqb n) (touched doc)); [|split; reflexivity].
    unfold settled.
    destruct (isVisible env allowedSet
                (flat (Object_values (mappingTable env))) (nodes doc n));
      split; reflexivity.
Qed.

(** *** The decision table *)

Lemma has_string_assigned_intro (x key : string) (ids : list string)
    (table : obj (list string)) :
  In (key, ids) table -> In x ids ->
  has_string x (flat (Object_values (Server.value_of_table table))) = true.
Proof.
  intros Hin Hx. rewrite RoutesFacts.flat_values_of_table.
  apply GalleryFacts.has_string_map_VStr. apply in_concat.
  exists ids. split; [|assumption].
  apply in_map_iff. exists (key, ids). split; [reflexivity | assumption].
Qed.

Lemma isVisible_spec (env : Env) (table : obj (list string))
    (allowed : list string) (el : Element) :
  isVisible env (map VStr allowed)
            (flat (Object_values (Server.value_of_table table))) el = true
  <-> to_be_shown env table allowed el.
Proof.
  unfold isVisible, to_be_shown, imgId_of. cbv zeta.
  set (filename := baseFilename (getImgSrc el)).
  destruct (String.eqb_spec filename "__proto__") as [Hp|Hp].
  { split.
    - intros H. apply negb_true_iff in H. right.
      split; [assumption|]. split; [now rewrite Hp | now left].
    - intros [[i [H _]]|[Hh _]]; [contradiction|]. now rewrite Hh. }
  unfold lookup.
  destruct (obj_get filename (filenameToId env)) as [imgId|] eqn:Hget.
  2:{ destruct (includes filename Object_prototype) eqn:Hinh.
      - split.
        + intros H. apply negb_true_iff in H. right. auto.
        + intros [[i [_ [H _]]]|[Hh _]]; [discriminate|]. now rewrite Hh.
      - split; [discriminate|].
        intros [[i [_ [H _]]]|[_ [H _]]]; discriminate. }
  destruct (String.eqb_spec imgId "") as [->|Hne]; cbn [negb andb].
  { split; [discriminate|].
    intros [[i [_ [[= <-] [H _]]]]|[_ [_ [H|H]]]]; congruence. }
  destruct (has_string imgId (map VStr allowed)) eqn:Ha.
  { apply GalleryFacts.has_string_map_VStr in Ha. split; [|reflexivity].
    intros _. left. exists imgId. auto. }
  assert (Hna : ~ In imgId allowed).
  { intros H. apply GalleryFacts.has_string_map_VStr in H. congruence. }
  split.
  - intros H. apply andb_true_iff in H. destruct H as [Hh Hs].
    apply negb_true_iff in Hh, Hs. left.
    exists imgId. split; [assumption|]. split; [reflexivity|].
    split; [assumption|]. right.
    split; [assumption|]. intros key ids Hin Hx.
    rewrite (has_string_assigned_intro imgId key ids table Hin Hx) in Hs.
    discriminate.
  - intros [[i [_ [[= <-] [_ [H|[Hh Hfree]]]]]]|[_ [_ [H|H]]]];
      [contradiction | | congruence | congruence].
    rewrite Hh. cbn [negb andb]. apply negb_true_iff.
    destruct (has_string imgId
                (flat (Object_values (Server.value_of_table table))))
      eqn:Hs; [|reflexivity].
    apply GalleryFacts.has_string_assigned in Hs.
    destruct Hs as [key [ids [Hin Hx]]]. now apply Hfree in Hin.
Qed.


End PassFacts.

(* ===================================================================== *)
(** ** More on the script: booting and variant changes *)
(* ===================================================================== *)

Module BootFacts.

Import Storefront Props Decisions JSFacts.

(** *** The filename table *)

Lemma build_filenameToId_step (imgNumId : string) (src : value)
    (rest : list (string * value)) (acc table : obj string) :
  build_filenameToId ((imgNumId, src) :: rest) acc = Ok table ->
  baseFilename_of src = Ok (key_of src)
  /\ build_filenameToId rest (obj_set (key_of src) imgNumId acc) = Ok table.
Proof.
  cbn [build_filenameToId]. unfold key_of.
  destruct (baseFilename_of src) as [filename|]; [|discriminate].
  cbn [bind]. auto.
Qed.

Lemma build_filenameToId_other (entries : list (string * value))
    (acc table : obj string) (filename : string) :
  build_filenameToId entries acc = Ok table ->
  (forall e, In e entries -> key_of (snd e) <> filename) ->
  obj_get filename table = obj_get filename acc.
Proof.
  revert acc. induction entries as [|[i src] rest IH]; intros acc H Hother.
  - now injection H as <-.
  - apply build_filenameToId_step in H. destruct H as [_ H].
    rewrite (IH _ H) by (intros e He; apply Hother; now right).
    rewrite obj_get_set.
    destruct (String.eqb_spec filename (key_of src)) as [E|_]; [|reflexivity].
    exfalso. apply (Hother (i, src)); [now left | now symmetry].
Qed.


Lemma build_filenameToId_strings (entries : list (string * value))
    (acc : obj string) :
  (forall i src, In (i, src) entries -> exists u, src = VStr u) ->
  exists table, build_filenameToId entries acc = Ok table.
Proof.
  revert acc. induction entries as [|[i src] rest IH]; intros acc H.
  - now exists acc.
  - destruct (H i src (or_introl eq_refl)) as [u ->].
    cbn [build_filenameToId]. unfold baseFilename_of.
    destruct (negb (truthy (VStr u))); cbn [bind];
      apply IH; intros j s Hj; apply (H j s); now right.
Qed.

(** *** The top level *)

Section Script.

Variable JSON_parse : string -> option value.

Local Abbreviation script := (Storefront.script JSON_parse).

Lemma script_cases (w : Window) :
  (initialized w = true /\ script w = (w, Exited))
  \/ (initialized w = false
      /\ ((exists b, script w = (set_initialized w, b)
                     /\ forall env, b <> Booted env)
          \/ exists env, script w = (boot (set_initialized w), Booted env))).
Proof.
  unfold Storefront.script. destruct (initialized w) eqn:Hinit;
    [left; now split|].
  right. split; [reflexivity|].
  repeat match goal with
         | |- context [if ?b then _ else _] => destruct b
         | |- context [match ?x with _ => _ end] => destruct x
         end;
    first [ left; eexists; split; [reflexivity | intros env; discriminate]
          | right; eexists; reflexivity ].
Qed.

(** X18: the script's top level runs at most once per page and never
    writes to the document: after any run the window flag is set, a second
    run exits at once and changes nothing, and a run registers nothing
    unless it boots, in which case it registers exactly one trigger for
    [init]: the [DOMContentLoaded] listener while the page is loading, the
    50 ms timer otherwise. *)
Theorem script_runs_once (w : Window) :
  let w1 := fst (script w) in
  initialized w1 = true
  /\ script w1 = (w1, Exited)
  /\ document w1 = document w
  /\ (registrations w1 = registrations w
      /\ (forall env, snd (script w) <> Booted env)
      \/ (exists env, snd (script w) = Booted env)
         /\ registrations w1 =
            registrations w
            ++ [if readyState_loading w
                then Listener "DOMContentLoaded" h_init
                else Timeout h_init 50]).
Proof.
  intros w1.
  assert (Hflag : initialized w1 = true).
  { unfold w1.
    destruct (script_cases w) as [[Hi ->]|[_ [[b [-> _]]|[env ->]]]];
      [exact Hi | reflexivity |].
    unfold boot. cbn [fst]. cbn [readyState_loading set_initialized].
    destruct (readyState_loading w); reflexivity. }
  split; [exact Hflag|]. split.
  - unfold Storefront.script at 1. now rewrite Hflag.
  - split; [apply ScriptFacts.script_document|].
    unfold w1.
    destruct (script_cases w) as [[Hi ->]|[_ [[b [-> Hb]]|[env ->]]]].
    + left. split; [reflexivity | intros env; discriminate].
    + left. split; [reflexivity | exact Hb].
    + right. split; [now exists env|].
      unfold boot. cbn [fst readyState_loading set_initialized].
      destruct (readyState_loading w); reflexivity.
Qed.

(** X19: on a fresh page whose payload carries a canonical mapping, an
    image table with text URLs and settings with [enabled] on, the
    script boots: it schedules [init] and the functions it leaves behind
    work in option mode on the payload's table, with the payload's
    [hideUnassignedImages] and a filename table built from all the URLs. *)
Theorem script_boots_on_canonical_payload (w : Window) (text : string)
    (config : value) (m : Server.ProductMapping) (s : Server.Settings)
    (urls : list (string * value)) :
  initialized w = false ->
  dataEl w = Some text ->
  JSON_parse text = Some config ->
  prop config "mapping" = Server.value_of_mapping m ->
  Server.mode m = "option" ->
  prop config "imageUrls" = VObj urls ->
  (forall i src, In (i, src) urls -> exists u, src = VStr u) ->
  prop config "settings" = Routes.value_of_settings s ->
  Server.enabled s = true ->
  exists env,
    script w = (boot (set_initialized w), Booted env)
    /\ mappingMode env = "option"
    /\ mappingTable env = Server.value_of_table (Server.mapping m)
    /\ hideUnassignedImages env = VBool (Server.hideUnassignedImages s)
    /\ build_filenameToId urls [] = Ok (filenameToId env)
    /\ optionNames env = prop config "optionNames"
    /\ variantOptions env = prop config "variantOptions"
    /\ initialVariantId env = prop config "initialVariantId".
Proof.
  intros Hinit Hdata Hparse Hmapping Hmode Hurls Hstrings Hsettings Hen.
  assert (Hconfig : nullish config = false)
    by (destruct config; try reflexivity; discriminate Hurls).
  destruct (build_filenameToId_strings urls [] Hstrings) as [table Htable].
  unfold Storefront.script. rewrite Hinit.
  cbn [dataEl set_initialized]. rewrite Hdata, Hparse, Hconfig.
  rewrite Hmapping, Hurls, Hsettings.
  unfold Server.value_of_mapping, Routes.value_of_settings.
  cbn -[String.eqb build_filenameToId boot Server.value_of_table].
  rewrite Hen, Hmode.
  cbn -[build_filenameToId boot Server.value_of_table].
  change (truthy (Server.value_of_table (Server.mapping m))) with true.
  cbn -[build_filenameToId boot Server.value_of_table].
  rewrite Htable.
  eexists. split; [reflexivity|]. cbn. repeat split.
Qed.

End Script.

(** *** Variant changes *)

(** X17: a variant reported twice in a row is handled once.  After
    [handleVariantChange] has seen a non-empty variant identifier it
    remembers it, and a repeated report of the same variant, directly or
    through a [variant:changed] event whose identifier is truthy and, as a
    text, that variant (a text, or a number, of which [String] prints the
    digits), changes neither the state nor the page; a variant other than
    the remembered one gets a pass. *)
Theorem duplicate_variant_is_ignored (env : Env) (variantId : string)
    (st : ScriptState) (doc : Document) (w : Window) (detail : value) :
  variantId <> "" ->
  truthy (get_opt (get_opt detail "variant") "id") = true ->
  printable (get_opt (get_opt detail "variant") "id") = true ->
  ToString (get_opt (get_opt detail "variant") "id") = variantId ->
  let st1 := fst (handleVariantChange env variantId st doc) in
  lastVariantId st1 = Some variantId
  /\ lastUrl st1 = lastUrl st
  /\ (lastVariantId st <> Some variantId ->
      snd (handleVariantChange env variantId st doc)
      = filterGallery env variantId doc)
  /\ (forall doc2,
        handleVariantChange env variantId st1 doc2 = (st1, Ok doc2))
  /\ handle env (ev_variant_changed detail) st1 w = (st1, w).
Proof.
  intros Hne Htruthy _ Hdetail st1.
  assert (Hv : String.eqb variantId "" = false) by now apply String.eqb_neq.
  assert (Hlast : lastVariantId st1 = Some variantId).
  { unfold st1, handleVariantChange. rewrite Hv.
    destruct (lastVariantId st) as [last|] eqn:Hl; [|reflexivity].
    destruct (String.eqb_spec variantId last) as [->|_]; [exact Hl|].
    reflexivity. }
  assert (Hagain : forall doc2,
            handleVariantChange env variantId st1 doc2 = (st1, Ok doc2)).
  { intros doc2. unfold handleVariantChange at 1.
    now rewrite Hv, Hlast, String.eqb_refl. }
  split; [exact Hlast|]. split.
  - unfold st1, handleVariantChange. rewrite Hv.
    destruct (lastVariantId st) as [last|]; [|reflexivity].
    destruct (String.eqb variantId last); reflexivity.
  - split.
    + intros Hnew. unfold handleVariantChange. rewrite Hv.
      destruct (lastVariantId st) as [last|]; [|reflexivity].
      destruct (String.eqb_spec variantId last) as [->|_];
        [congruence | reflexivity].
    + split; [exact Hagain|].
      unfold handle. cbv zeta. rewrite Htruthy, Hdetail.
      rewrite Hagain. unfold Storefront.settle. cbn [fst snd].
      destruct w. reflexivity.
Qed.

End BootFacts.

(* ===================================================================== *)
(** ** More on file names and identifiers *)
(* ===================================================================== *)

Module NameFacts.

Import Storefront Props FilenameFacts.

Local Open Scope string_scope.

Lemma split_first_no_sep (sep : ascii) (s : string) :
  no_char sep (split_first sep s) = true.
Proof.
  induction s as [|c s IH]; simpl; [reflexivity|].
  destruct (Ascii.eqb c sep) eqn:E; [reflexivity|].
  simpl. now rewrite E, IH.
Qed.

Lemma split_first_keeps (c sep : ascii) (s : string) :
  no_char c s = true -> no_char c (split_first sep s) = true.
Proof.
  induction s as [|a s IH]; simpl; [reflexivity|].
  intros H. apply andb_true_iff in H. destruct H as [Ha Hs].
  destruct (Ascii.eqb a sep); [reflexivity|].
  simpl. now rewrite Ha, IH.
Qed.

Lemma split_pop_from_keeps (c sep : ascii) (s current : string) :
  no_char c s = true -> no_char c current = true ->
  no_char c (split_pop_from sep s current) = true.
Proof.
  revert current. induction s as [|a s IH]; intros current Hs Hc; simpl;
    [assumption|].
  simpl in Hs. apply andb_true_iff in Hs. destruct Hs as [Ha Hs].
  destruct (Ascii.eqb a sep); apply IH; try assumption; try reflexivity.
  rewrite no_char_app, Hc. simpl. now rewrite Ha.
Qed.

(** What the pattern captures is the end of the text it matches. *)
Lemma match_size_suffix_end (s ext : string) :
  match_size_suffix s = Some ext -> exists p, s = p ++ ext.
Proof.
  unfold match_size_suffix.
  destruct s as [|c r]; [discriminate|].
  destruct (Ascii.eqb_spec c "_") as [->|Hc].
  2:{ destruct c as [[] [] [] [] [] [] [] []]; try discriminate.
      now contradiction Hc. }
  destruct (skip_digits_split r) as [d1 [_ Hr]].
  destruct (skip_digits r) as [|x r2]; [discriminate|].
  destruct (Ascii.eqb_spec x "x") as [->|Hx].
  2:{ destruct x as [[] [] [] [] [] [] [] []]; try discriminate.
      now contradiction Hx. }
  destruct (skip_digits_split r2) as [d2 [_ Hr2]].
  destruct (skip_digits r2) as [|y e]; [discriminate|].
  destruct (Ascii.eqb_spec y ".") as [->|Hy].
  2:{ destruct y as [[] [] [] [] [] [] [] []]; try discriminate.
      now contradiction Hy. }
  destruct (negb (String.eqb e "") && no_dot e); [|discriminate].
  intros [= <-]. exists ("_" ++ d1 ++ "x" ++ d2 ++ ".").
  rewrite Hr, Hr2. simpl. rewrite !append_assoc. simpl.
  rewrite !append_assoc. reflexivity.
Qed.

Lemma replace_size_suffix_keeps (c : ascii) (name : string) :
  c <> "."%char -> no_char c name = true ->
  no_char c (replace_size_suffix name) = true.
Proof.
  intros Hc. induction name as [|a name IH]; intros H.
  - reflexivity.
  - cbn [replace_size_suffix].
    destruct (match_size_suffix (String a name)) as [ext|] eqn:E.
    + apply match_size_suffix_end in E. destruct E as [p E].
      rewrite E, no_char_app in H. apply andb_true_iff in H.
      cbn [no_char]. rewrite (proj2 H), andb_true_r. apply negb_true_iff.
      apply Ascii.eqb_neq. congruence.
    + simpl in H |- *. apply andb_true_iff in H. destruct H as [Ha Hn].
      now rewrite Ha, IH.
Qed.

Lemma replace_size_suffix_plain (name : string) :
  no_char "_" name = true -> replace_size_suffix name = name.
Proof.
  induction name as [|a name IH]; intros H; [reflexivity|].
  simpl in H. apply andb_true_iff in H. destruct H as [Ha Hn].
  cbn [replace_size_suffix].
  assert (E : match_size_suffix (String a name) = None).
  { unfold match_size_suffix.
    destruct (Ascii.eqb_spec a "_") as [->|Hne]; [discriminate Ha|].
    destruct a as [[] [] [] [] [] [] [] []]; try reflexivity.
    now contradiction Hne. }
  rewrite E. now rewrite IH.
Qed.

(** X13: the base filename is a plain file name: it never holds a slash
    or a question mark, whatever the URL; and a URL without query whose
    last segment has no underscore keeps that segment as it is. *)
Theorem baseFilename_is_a_file_name (url dir name : string) :
  no_char "?" dir = true ->
  no_char "?" name = true ->
  no_char "/" name = true ->
  no_char "_" name = true ->
  no_char "/" (baseFilename url) = true
  /\ no_char "?" (baseFilename url) = true
  /\ baseFilename (dir ++ "/" ++ name) = name.
Proof.
  intros Hd Hq Hs Hu.
  assert (Hgen : no_char "/" (baseFilename url) = true
                 /\ no_char "?" (baseFilename url) = true).
  { unfold baseFilename. destruct (String.eqb url ""); [now split|].
    split; apply replace_size_suffix_keeps; try discriminate.
    - now apply IdsFacts.split_pop_from_no_sep.
    - apply split_pop_from_keeps; [apply split_first_no_sep | reflexivity]. }
  split; [exact (proj1 Hgen)|]. split; [exact (proj2 Hgen)|].
  replace (dir ++ "/" ++ name) with (dir ++ String "/" (name ++ ""))
    by (now rewrite append_nil_r).
  rewrite (baseFilename_of_name dir name "" Hd Hq Hs) by now left.
  now apply replace_size_suffix_plain.
Qed.

(** X9: the extension's [toNumericId] returns the text after the last
    slash: the numeric part of a global identifier, a bare identifier as it
    is; its result never holds a slash, so applying it again changes
    nothing. *)
Theorem toNumericId_last_segment (v : value) (prefix n : string) :
  n <> "" ->
  no_char "/" n = true ->
  Ids.toNumericId (VStr (prefix ++ "/" ++ n)) = n
  /\ Ids.toNumericId (VStr n) = n
  /\ no_char "/" (Ids.toNumericId v) = true
  /\ Ids.toNumericId (VStr (Ids.toNumericId v)) = Ids.toNumericId v.
Proof.
  intros Hne Hn. split; [|split; [|split]].
  - unfold Ids.toNumericId. cbn [truthy ToString].
    change (prefix ++ "/" ++ n) with (prefix ++ String "/" n).
    rewrite append_cons_nonempty. cbn [negb].
    now apply split_pop_app.
  - unfold Ids.toNumericId. cbn [truthy ToString].
    apply String.eqb_neq in Hne. rewrite Hne. cbn [negb].
    unfold split_pop. now rewrite split_pop_from_whole.
  - unfold Ids.toNumericId. destruct (negb (truthy v)); [reflexivity|].
    now apply IdsFacts.split_pop_from_no_sep.
  - apply IdsFacts.toNumericId_idempotent.
Qed.

(** X10: [thumbUrl] replaces whatever query a URL has by the thumbnail
    parameters: the result is the text before the first question mark
    followed by the parameters, a URL with and without a query get the
    same thumbnail URL, and applying it twice is applying it once. *)
Theorem thumbUrl_idempotent (url base query : string) :
  base <> "" ->
  no_char "?" base = true ->
  AdminBlock.thumbUrl (AdminBlock.thumbUrl url) = AdminBlock.thumbUrl url
  /\ AdminBlock.thumbUrl (base ++ "?" ++ query)
     = base ++ "?width=80&height=80&crop=center"
  /\ AdminBlock.thumbUrl base = base ++ "?width=80&height=80&crop=center"
  /\ AdminBlock.thumbUrl "" = "".
Proof.
  intros Hne Hb. split; [|split; [|split]]; [| | |reflexivity].
  - unfold AdminBlock.thumbUrl at 2 3.
    destruct (String.eqb url "") eqn:E;
      [apply String.eqb_eq in E; now subst url|].
    unfold AdminBlock.thumbUrl.
    change (split_first "?" url ++ "?width=80&height=80&crop=center")
      with (split_first "?" url
            ++ String "?" "width=80&height=80&crop=center").
    rewrite append_cons_nonempty, split_first_app; [reflexivity|].
    apply split_first_no_sep.
  - unfold AdminBlock.thumbUrl.
    change (base ++ "?" ++ query) with (base ++ String "?" query).
    now rewrite append_cons_nonempty, split_first_app.
  - unfold AdminBlock.thumbUrl. apply String.eqb_neq in Hne. rewrite Hne.
    now rewrite split_first_whole.
Qed.

End NameFacts.

(* ===================================================================== *)
(** ** More on the handlers that edit a mapping *)
(* ===================================================================== *)

Module ToggleFacts.

Import JSFacts AdminBlock.

Section Delete.

Context {A : Type}.

Lemma obj_keys_delete_In (k k' : string) (o : obj A) :
  In k' (obj_keys (obj_delete k o)) -> In k' (obj_keys o).
Proof.
  induction o as [|[k0 v0] o IH]; simpl; [tauto|].
  destruct (String.eqb k k0); simpl; [tauto|].
  intros [H|H]; [now left | right; auto].
Qed.

Lemma obj_keys_delete_NoDup (k : string) (o : obj A) :
  NoDup (obj_keys o) -> NoDup (obj_keys (obj_delete k o)).
Proof.
  induction o as [|[k0 v0] o IH]; simpl; [tauto|].
  intros H. inversion H as [|? ? Hfresh Hnd]; subst.
  destruct (String.eqb k k0); simpl; [assumption|].
  constructor; [|auto]. intros Hin. apply Hfresh.
  now apply obj_keys_delete_In in Hin.
Qed.

Lemma obj_get_delete (k k' : string) (o : obj A) :
  NoDup (obj_keys o) ->
  obj_get k' (obj_delete k o) = if String.eqb k' k then None else obj_get k' o.
Proof.
  induction o as [|[k0 v0] o IH]; simpl; intros H.
  - destruct (String.eqb k' k); reflexivity.
  - inversion H as [|? ? Hfresh Hnd]; subst.
    destruct (String.eqb_spec k k0) as [->|Hk].
    + destruct (String.eqb_spec k' k0) as [->|_]; [|reflexivity].
      now apply obj_get_None.
    + simpl. destruct (String.eqb_spec k' k0) as [->|_].
      * apply String.eqb_neq in Hk. rewrite String.eqb_sym in Hk.
        now rewrite Hk.
      * now apply IH.
Qed.

End Delete.

Lemma toggled_membership (x : string) (current : list string) :
  let updated :=
    if includes x current
    then filter (fun id => negb (String.eqb id x)) current
    else current ++ [x] in
  In x updated <-> ~ In x current.
Proof.
  cbv zeta. destruct (includes x current) eqn:E.
  - apply includes_In in E. rewrite filter_In, negb_true_iff, String.eqb_neq.
    tauto.
  - assert (Hn : ~ In x current)
      by (intros H; apply includes_In in H; congruence).
    rewrite in_app_iff. simpl. tauto.
Qed.

(** X11: the extension's toggle, on a mapping with distinct keys and a
    selected variant, flips the membership of the image in the selected
    variant's list, leaves every other variant's entry alone, keeps the
    keys distinct and never leaves an empty list behind: a list that
    becomes empty is removed with its key. *)
Theorem extension_toggle_keeps_lists_nonempty (selected imgNumId : string)
    (prev : obj (list string)) :
  selected <> "" ->
  NoDup (obj_keys prev) ->
  let next := toggleImage (Some selected) imgNumId prev in
  (In imgNumId (get_or_empty selected next)
   <-> ~ In imgNumId (get_or_empty selected prev))
  /\ obj_get selected next <> Some []
  /\ (forall k, k <> selected -> obj_get k next = obj_get k prev)
  /\ NoDup (obj_keys next)
  /\ ((forall k l, obj_get k prev = Some l -> l <> []) ->
      forall k l, obj_get k next = Some l -> l <> []).
Proof.
  intros Hne Hnd next.
  set (current := get_or_empty selected prev).
  set (updated := if includes imgNumId current
                  then filter (fun id => negb (String.eqb id imgNumId)) current
                  else current ++ [imgNumId]).
  set (next0 := obj_set selected updated prev).
  assert (Hnd0 : NoDup (obj_keys next0)) by now apply obj_keys_set_NoDup.
  assert (Hget0 : forall k, obj_get k next0 =
                    if String.eqb k selected then Some updated
                    else obj_get k prev)
    by (intros k; apply obj_get_set).
  assert (Hnext : forall k, obj_get k next =
            if String.eqb k selected
            then match updated with [] => None | _ => Some updated end
            else obj_get k prev).
  { intros k. unfold next, toggleImage.
    apply String.eqb_neq in Hne. rewrite Hne.
    fold current. fold updated. fold next0.
    rewrite (Hget0 selected), String.eqb_refl.
    destruct updated as [|u us] eqn:Hu.
    - rewrite obj_get_delete by assumption.
      destruct (String.eqb k selected) eqn:Hk; [reflexivity|].
      now rewrite Hget0, Hk.
    - rewrite Hget0. destruct (String.eqb k selected); reflexivity. }
  assert (Hlist : get_or_empty selected next = updated).
  { unfold get_or_empty. rewrite Hnext, String.eqb_refl.
    destruct updated; reflexivity. }
  split; [rewrite Hlist; apply toggled_membership|]. split.
  - rewrite Hnext, String.eqb_refl. destruct updated; discriminate.
  - split.
    + intros k Hk. rewrite Hnext. apply String.eqb_neq in Hk.
      now rewrite Hk.
    + split.
      * unfold next, toggleImage.
        apply String.eqb_neq in Hne. rewrite Hne.
        fold current. fold updated. fold next0.
        destruct (obj_get selected next0) as [[|u us]|];
          [now apply obj_keys_delete_NoDup | assumption | assumption].
      * intros Hprev k l Hk. rewrite Hnext in Hk.
        destruct (String.eqb k selected).
        -- destruct updated; [discriminate|]. injection Hk as <-.
           discriminate.
        -- now apply Hprev with k.
Qed.

(** X12: with sharing allowed, a click on an image tile of the assign page
    throws exactly when the active value reads from the state what is no
    list (a function, [Object.prototype], a number) or a text that
    contains the image identifier; otherwise it leaves a plain state in
    which the membership of the image in the active value's list is
    flipped and no other value's list has changed, so an image shared with
    other values stays shared.  The list is the one the state answers
    with for the active value: its entry, the empty list when it has
    none, the prototype "Select all" may have put in place for
    [__proto__], the characters of a text. *)
Theorem shared_toggle_touches_active_only (active imageId : string)
    (prev : AssignImages.MappingState) :
  active <> "" ->
  (AssignImages.toggleImage true (Some active) imageId prev = TypeError
   <-> AssignImages.read active prev = AssignImages.NoArray
       \/ exists t, AssignImages.read active prev = AssignImages.Text t
                    /\ str_includes imageId t = true)
  /\ forall next,
       AssignImages.toggleImage true (Some active) imageId prev = Ok next ->
       exists current,
         Props.current_list imageId (AssignImages.read active prev)
         = Some current
         /\ AssignImages.prototype next = None
         /\ (In imageId (get_or_empty active (AssignImages.entries next))
             <-> ~ In imageId current)
         /\ (forall k, k <> active ->
               obj_get k (AssignImages.entries next)
               = obj_get k (AssignImages.entries prev))
         /\ (forall x, x <> imageId ->
               (In x (get_or_empty active (AssignImages.entries next))
                <-> In x current)).
Proof.
  intros Hne. split; [now apply AssignFacts.toggleImage_throws|].
  intros next Hnext.
  apply AssignFacts.toggleImage_returns in Hnext; [|assumption].
  destruct Hnext as [current [Hcur ->]].
  exists current. split; [exact Hcur|]. split; [reflexivity|].
  cbn [AssignImages.plain AssignImages.entries].
  assert (Hget : forall k,
            obj_get k (Props.toggled true active imageId current
                                     (AssignImages.entries prev)) =
            if String.eqb k active
            then Some (if includes imageId current
                       then AssignImages.without imageId current
                       else current ++ [imageId])
            else obj_get k (AssignImages.entries prev)).
  { intros k. unfold Props.toggled. cbn [negb andb]. apply obj_get_set. }
  split; [|split].
  - unfold get_or_empty at 1. rewrite Hget, String.eqb_refl.
    apply toggled_membership.
  - intros k Hk. rewrite Hget. apply String.eqb_neq in Hk. now rewrite Hk.
  - intros x Hx. unfold get_or_empty at 1. rewrite Hget, String.eqb_refl.
    destruct (includes imageId current).
    + rewrite AssignFacts.without_In. tauto.
    + rewrite in_app_iff. simpl. split; [|tauto].
      intros [H|[H|[]]]; [assumption | congruence].
Qed.

Lemma without_absent (x : string) (l : list string) :
  ~ In x l -> AssignImages.without x l = l.
Proof.
  unfold AssignImages.without. induction l as [|y l IH]; simpl;
    [reflexivity|].
  intros H. destruct (String.eqb_spec y x) as [->|_]; [tauto|].
  simpl. rewrite IH; tauto.
Qed.

Lemma without_added (x : string) (l : list string) :
  ~ In x l -> AssignImages.without x (l ++ [x]) = l.
Proof.
  intros H. unfold AssignImages.without. rewrite filter_app. simpl.
  rewrite String.eqb_refl. simpl. rewrite app_nil_r.
  now apply without_absent.
Qed.

(** X23: with sharing switched off, a click that adds an image to the list
    the state answers with for the active value takes it from every other
    value, and the click that takes it back does not return it: both
    clicks end normally, and after them the active value has as its entry
    the list it stood for, the image sits under no value at all, and every
    other image is where it was. *)
Theorem exclusive_toggle_undo_loses_image (active imageId : string)
    (prev : AssignImages.MappingState) (current : list string) :
  active <> "" ->
  Props.current_list imageId (AssignImages.read active prev) = Some current ->
  ~ In imageId current ->
  exists once twice,
    AssignImages.toggleImage false (Some active) imageId prev = Ok once
    /\ AssignImages.toggleImage false (Some active) imageId once = Ok twice
    /\ AssignImages.prototype twice = None
    /\ obj_get active (AssignImages.entries twice) = Some current
    /\ (forall key l,
          obj_get key (AssignImages.entries twice) = Some l ->
          ~ In imageId l)
    /\ (forall key,
          key <> active ->
          obj_get key (AssignImages.entries twice)
          = option_map (AssignImages.without imageId)
                       (obj_get key (AssignImages.entries prev)))
    /\ (forall key x,
          key <> active -> x <> imageId ->
          (In x (get_or_empty key (AssignImages.entries twice))
           <-> In x (get_or_empty key (AssignImages.entries prev)))).
Proof.
  intros Hne Hcur Habsent.
  set (m1 := Props.toggled false active imageId current
                           (AssignImages.entries prev)).
  set (m2 := Props.toggled false active imageId (current ++ [imageId]) m1).
  assert (Hsel : includes imageId current = false).
  { destruct (includes imageId current) eqn:E; [|reflexivity].
    apply includes_In in E. contradiction. }
  assert (Honce : forall k, obj_get k m1 =
            if String.eqb k active
            then Some (current ++ [imageId])
            else option_map (AssignImages.without imageId)
                            (obj_get k (AssignImages.entries prev)))
    by (intros k; now apply AssignFacts.toggleImage_add_get).
  assert (Hsel1 : includes imageId (current ++ [imageId]) = true).
  { apply includes_In. apply in_or_app. right. now left. }
  assert (Htwice : forall k, obj_get k m2 =
            if String.eqb k active
            then Some current
            else option_map (AssignImages.without imageId)
                            (obj_get k (AssignImages.entries prev))).
  { intros k. unfold m2.
    rewrite AssignFacts.toggleImage_remove_get by assumption.
    rewrite without_added by assumption.
    rewrite Honce. destruct (String.eqb k active); reflexivity. }
  exists (AssignImages.plain m1), (AssignImages.plain m2).
  split; [|split].
  - rewrite AssignFacts.toggleImage_outcome by assumption.
    now rewrite Hcur.
  - rewrite AssignFacts.toggleImage_outcome by assumption.
    rewrite (AssignFacts.read_own active (AssignImages.plain m1)
               (current ++ [imageId]))
      by (cbn [AssignImages.plain AssignImages.entries];
          now rewrite Honce, String.eqb_refl).
    reflexivity.
  - cbn [AssignImages.plain AssignImages.entries AssignImages.prototype].
    split; [reflexivity|]. split; [|split; [|split]].
    + now rewrite Htwice, String.eqb_refl.
    + intros key l Hget. rewrite Htwice in Hget.
      destruct (String.eqb key active).
      * injection Hget as <-. exact Habsent.
      * destruct (obj_get key (AssignImages.entries prev)) as [l0|];
          [|discriminate].
        injection Hget as <-. rewrite AssignFacts.without_In. tauto.
    + intros key Hkey. rewrite Htwice. apply String.eqb_neq in Hkey.
      now rewrite Hkey.
    + intros key x Hkey Hx. unfold get_or_empty at 1. rewrite Htwice.
      apply String.eqb_neq in Hkey. rewrite Hkey.
      unfold get_or_empty.
      destruct (obj_get key (AssignImages.entries prev)) as [l0|]; simpl;
        [|reflexivity].
      rewrite AssignFacts.without_In. tauto.
Qed.

End ToggleFacts.

(* ===================================================================== *)
(** ** The first pass and the listeners *)
(* ===================================================================== *)

Module InitFacts.

Import Storefront.

Local Open Scope string_scope.


(** X22: a table entry that is truthy but cannot be iterated (a number, a
    boolean, an object) makes every pass for its key throw before the page
    is touched; the variant is remembered all the same, and when that pass
    is the first one [init] throws with it, so no listener is installed. *)
Theorem bad_entry_stops_init (env : Env) (w : Window) (v : string)
    (st : ScriptState) :
  (if truthy (initialVariantId env)
   then Some (ToString (initialVariantId env))
   else getCurrentVariantId w) = Some v ->
  v <> "" ->
  nullish (mappingTable env) = false ->
  truthy (prop (mappingTable env) (ToString (resolveMappingKey env v)))
  = true ->
  iterate (prop (mappingTable env) (ToString (resolveMappingKey env v)))
  = TypeError ->
  (forall doc, filterGallery env v doc = TypeError)
  /\ init env w = TypeError
  /\ (lastVariantId st = None ->
      forall doc,
        handleVariantChange env v st doc
        = ({| lastVariantId := Some v; lastUrl := lastUrl st |}, TypeError)).
Proof.
  intros Hinit Hne Htable Htruthy Hiter.
  assert (Hv : String.eqb v "" = false) by now apply String.eqb_neq.
  assert (Hpass : forall doc, filterGallery env v doc = TypeError).
  { intros doc. unfold filterGallery, get_computed. rewrite Hv, Htable.
    cbn [bind].
    destruct (JSFacts.lookup_value_cases (mappingTable env)
                (ToString (resolveMappingKey env v)))
      as [E|[E|[E _]]].
    - rewrite E. reflexivity.
    - rewrite E. cbn [found_truthy iterate_found].
      rewrite Htruthy. cbn [negb]. now rewrite Hiter.
    - rewrite E in Htruthy. discriminate. }
  split; [exact Hpass|]. split.
  - unfold init. rewrite Hinit. unfold handleVariantChange.
    rewrite Hv. cbn [lastVariantId]. now rewrite Hpass.
  - intros Hlast doc. unfold handleVariantChange.
    now rewrite Hv, Hlast, Hpass.
Qed.

End InitFacts.

(* ===================================================================== *)
(** ** Facts about the embed status and the dashboard *)
(* ===================================================================== *)

Module EmbedFacts.

Import Server Embed.

Local Open Scope string_scope.

Lemma prefix_split (n s : string) :
  String.prefix n s = true <-> exists b, s = n ++ b.
Proof.
  revert s. induction n as [|c n IH]; intros s.
  - split; [intros _; now exists s | intros _; now destruct s].
  - destruct s as [|d s]; simpl.
    + split; [discriminate | intros [b Hb]; discriminate].
    + destruct (Ascii.ascii_dec c d) as [->|Hcd].
      * rewrite IH. split; intros [b Hb]; exists b; congruence.
      * split; [discriminate | intros [b Hb]; congruence].
Qed.

Lemma str_includes_unfold (n s : string) :
  str_includes n s
  = String.prefix n s
    || match s with
       | EmptyString => false
       | String _ r => str_includes n r
       end.
Proof. destruct s; reflexivity. Qed.

Lemma str_includes_spec (n s : string) :
  str_includes n s = true <-> exists a b, s = a ++ n ++ b.
Proof.
  split.
  - induction s as [|c s IH]; rewrite str_includes_unfold; intros H;
      apply orb_true_iff in H; destruct H as [H|H].
    + apply prefix_split in H. destruct H as [b Hb]. now exists "", b.
    + discriminate.
    + apply prefix_split in H. destruct H as [b Hb]. now exists "", b.
    + destruct (IH H) as [a [b Hab]]. exists (String c a), b.
      simpl. now rewrite Hab.
  - intros [a [b Hab]]. subst s. induction a as [|c a IH].
    + rewrite str_includes_unfold. apply orb_true_iff. left.
      apply prefix_split. now exists b.
    + rewrite str_includes_unfold. apply orb_true_iff. right. exact IH.
Qed.

Lemma strict_eq_true (x : value) :
  strict_eq x (VBool true) = true <-> x = VBool true.
Proof.
  destruct x as [| |[]| | | |]; simpl; split; congruence.
Qed.

Lemma falsy_type_is_no_embed (t : value) :
  truthy t = false ->
  str_includes "/variant-images-embed/" (ToString t) = false.
Proof.
  destruct t as [| |[]|n|s| |]; simpl; try discriminate; try reflexivity.
  - intros H. apply negb_false_iff, Z.eqb_eq in H. now subst n.
  - intros H. apply negb_false_iff, String.eqb_eq in H. now subst s.
Qed.

Lemma is_embed_block_spec (block : value) :
  is_embed_block block = true <->
  prop block "disabled" <> VBool true
  /\ exists a b,
       ToString (prop block "type") = a ++ "/variant-images-embed/" ++ b.
Proof.
  unfold is_embed_block. split.
  - destruct (negb (truthy block) || negb (typeof_object block));
      [discriminate|].
    destruct (strict_eq (prop block "disabled") (VBool true)) eqn:Hd;
      [discriminate|].
    intros H. split.
    + intros Heq. apply strict_eq_true in Heq. congruence.
    + destruct (truthy (prop block "type")) eqn:Ht.
      * now apply str_includes_spec.
      * discriminate.
  - intros [Hd [a [b Hab]]].
    assert (Hinc : str_includes "/variant-images-embed/"
                     (ToString (prop block "type")) = true)
      by (apply str_includes_spec; now exists a, b).
    assert (Ht : truthy (prop block "type") = true).
    { destruct (truthy (prop block "type")) eqn:Ht; [reflexivity|].
      apply falsy_type_is_no_embed in Ht. congruence. }
    assert (Hobj : negb (truthy block) || negb (typeof_object block) = false).
    { destruct block; try reflexivity; simpl in Ht; discriminate. }
    rewrite Hobj, Ht, Hinc.
    destruct (strict_eq (prop block "disabled") (VBool true)) eqn:Hs;
      [|reflexivity].
    apply strict_eq_true in Hs. contradiction.
Qed.

Section Facts.

Variable JSON_parse : string -> option value.
Variable replace_leading_comment : string -> string.

Local Abbreviation getThemeEmbedStatus :=
  (Embed.getThemeEmbedStatus JSON_parse replace_leading_comment).


End Facts.

Import Routes Dashboard.

Lemma firstn_incl {A} (n : nat) (l : list A) (x : A) :
  In x (firstn n l) -> In x l.
Proof.
  revert l. induction n as [|n IH]; intros [|y l]; simpl; try tauto.
  intros [H|H]; [now left | right; auto].
Qed.

Lemma nonempty_length {A} (l : list A) :
  (0 <? List.length l)%nat = true <-> exists x, In x l.
Proof.
  destruct l as [|x l]; simpl.
  - split; [discriminate | intros [x []]].
  - split; [intros _; exists x; now left | reflexivity].
Qed.

(** X25: the dashboard counts three setup steps of which between one and
    three are complete; all three are complete exactly when the embed is
    enabled and some product with more than one variant is configured.
    The two product lists hold only products with more than one variant,
    the configured ones in one and the others in the other, cut to eight
    and twelve entries. *)
Theorem dashboard_overview (embedStatus : EmbedStatus)
    (products : list Summary) :
  let overview := loader embedStatus products in
  totalSteps overview = 3
  /\ 1 <= completedSteps overview <= 3
  /\ (completedSteps overview = 3 <->
      enabled embedStatus = true
      /\ exists product,
           In product products
           /\ 1 < variantsCount product
           /\ isConfigured product = true)
  /\ (forall product,
        In product (configuredProducts overview) ->
        In product products
        /\ 1 < variantsCount product
        /\ isConfigured product = true)
  /\ (forall product,
        In product (unconfiguredProducts overview) ->
        In product products
        /\ 1 < variantsCount product
        /\ isConfigured product = false)
  /\ List.length (configuredProducts overview) <= 8
  /\ List.length (unconfiguredProducts overview) <= 12.
Proof.
  intros overview. unfold overview, loader.
  cbn [totalSteps completedSteps configuredProducts unconfiguredProducts
       List.length].
  set (multi := filter (fun product => (1 <? variantsCount product)%nat)
                       products).
  assert (Hmulti : forall p, In p multi <->
                     In p products /\ 1 < variantsCount p).
  { intros p. unfold multi. rewrite filter_In, Nat.ltb_lt. tauto. }
  assert (Hsome : (0 <? List.length (filter isConfigured multi))%nat = true
                  <-> exists p, In p products /\ 1 < variantsCount p
                                /\ isConfigured p = true).
  { rewrite nonempty_length. split; intros [p Hp]; exists p.
    - apply filter_In in Hp. destruct Hp as [Hin Hc].
      apply Hmulti in Hin. tauto.
    - apply filter_In. split; [apply Hmulti|]; tauto. }
  split; [reflexivity|]. split; [|split; [|split; [|split; [|split]]]].
  - cbn [filter complete].
    destruct (enabled embedStatus),
             (0 <? List.length (filter isConfigured multi))%nat;
      cbn [List.length]; lia.
  - cbn [filter complete]. rewrite <- Hsome.
    destruct (enabled embedStatus);
      destruct (0 <? List.length (filter isConfigured multi))%nat;
      cbn [List.length];
      (split;
       [intros H; first [lia | split; reflexivity]
       |intros [H1 H2]; first [reflexivity | discriminate]]).
  - intros p Hp. apply firstn_incl, filter_In in Hp.
    destruct Hp as [Hin Hc]. apply Hmulti in Hin. tauto.
  - intros p Hp. apply firstn_incl, filter_In in Hp.
    destruct Hp as [Hin Hc]. apply Hmulti in Hin.
    apply negb_true_iff in Hc. tauto.
  - apply firstn_le_length.
  - apply firstn_le_length.
Qed.

End EmbedFacts.

(* ===================================================================== *)
(** ** Further instances *)
(* ===================================================================== *)

Module MoreInstances.

Import Server Storefront.

Local Open Scope string_scope.

Local Abbreviation stored_as v := (MoreSamples.parse_one "stored" v).

Lemma normalizeProductMapping_round_trip_stored :
  let once := {| mode := "option"; optionName := "Color";
                 mapping := [("Black", ["2222"])] |} in
  let parse := stored_as (value_of_mapping once) in
  normalizeProductMapping parse Ids.toNumericId Samples.legacy_raw
    Samples.color_options Samples.one_black_variant ["2222"]
  = Ok once
  /\ normalizeProductMapping parse Ids.toNumericId (VStr "stored")
       Samples.color_options Samples.one_black_variant ["2222"]
     = Ok once.
Proof.
  intros once parse. split; [reflexivity|].
  apply (NormalizerFacts.normalizeProductMapping_round_trip parse
           Ids.toNumericId Samples.legacy_raw (VStr "stored")
           Samples.color_options Samples.one_black_variant ["2222"]
           IdsFacts.toNumericId_idempotent).
  - intros variant selected [<-|[]] Hfind. injection Hfind as <-.
    reflexivity.
  - reflexivity.
  - reflexivity.
  - reflexivity.
Defined.

Lemma legacy_migration_exact_two_black :
  let parse := Samples.parse_literal in
  let parsed := safeParseJson parse Samples.two_black_raw (VObj []) in
  let legacy :=
    normalizeMapping parse Ids.toNumericId parsed
      (map Server.id Samples.two_black_variants) Samples.two_images in
  let byVariant :=
    optionValueByVariant Ids.toNumericId
      (fallbackOptionName Samples.color_options) Samples.two_black_variants in
  let normalized :=
    normalizeProductMapping parse Ids.toNumericId
      Samples.two_black_raw Samples.color_options
      Samples.two_black_variants Samples.two_images in
  (normalized = TypeError <->
   exists v lv name,
     obj_get v legacy = Some lv
     /\ Map_get v byVariant = Some (Some name)
     /\ includes name Object_prototype = true)
  /\ forall m,
       normalized = Ok m ->
       (obj_has "Black" (mapping m) = true <->
        exists v lv,
          obj_get v legacy = Some lv
          /\ Map_get v byVariant = Some (Some "Black"))
       /\ (forall x,
             In x (get_or_empty "Black" (mapping m)) <->
             exists v lv,
               obj_get v legacy = Some lv
               /\ Map_get v byVariant = Some (Some "Black") /\ In x lv).
Proof.
  apply (NormalizerFacts.legacy_migration_exact Samples.parse_literal
           Ids.toNumericId Samples.two_black_raw Samples.color_options
           Samples.two_black_variants Samples.two_images "Black");
    [reflexivity | discriminate].
Defined.

Lemma settings_round_trip_stored :
  let s := {| Server.enabled := false; Server.allowSharedImages := true;
              Server.hideUnassignedImages := true |} in
  let parse := stored_as (Routes.value_of_settings s) in
  let submitted :=
    {| Server.enabled := true; Server.allowSharedImages := false;
       Server.hideUnassignedImages := false |} in
  let accepts (owner : value) (settings : Settings) : option (list string) :=
    Some [] in
  let outcome :=
    Routes.settings_action parse true (Some (VStr "gid://shopify/Shop/1"))
      accepts (Some "true") None (Some "on") in
  outcome = Routes.Done submitted
  /\ normalizeSettings parse (VStr "stored") = Ok s
  /\ (forall saved,
        outcome = Routes.Done saved <->
        true = true
        /\ saved = submitted
        /\ exists shopId,
             Some (VStr "gid://shopify/Shop/1") = Some shopId
             /\ accepts shopId submitted = Some [])
  /\ (outcome = Routes.Throws <->
      true = false
      \/ Some (VStr "gid://shopify/Shop/1") = None
      \/ exists shopId,
           Some (VStr "gid://shopify/Shop/1") = Some shopId
           /\ accepts shopId submitted <> Some []).
Proof.
  intros s parse submitted accepts outcome. split; [reflexivity|].
  apply (RoutesFacts.settings_round_trip parse s (VStr "stored") true
           (Some (VStr "gid://shopify/Shop/1")) accepts
           (Some "true") None (Some "on")).
  reflexivity.
Defined.

Lemma assign_action_saves_shirt :
  let parse := stored_as MoreSamples.submitted_mapping in
  let saved := MoreSamples.shirt_mapping in
  Routes.assign_action parse Ids.toNumericId MoreSamples.shirt_catalog
    (Some "save") (Some "gid://shopify/Product/7") (Some "Color")
    (Some "stored")
  = Routes.Saved saved
  /\ exists pid product,
       Some "gid://shopify/Product/7" = Some pid
       /\ pid <> ""
       /\ MoreSamples.shirt_catalog pid = Some product
       /\ mode saved = "option"
       /\ optionName saved <> ""
       /\ (exists option,
             In option (Routes.product_options product)
             /\ name option = optionName saved)
       /\ (Some "save" = Some "reset" -> mapping saved = [])
       /\ (forall key ids,
             In (key, ids) (mapping saved) ->
             key <> ""
             /\ (optionValuesOf (Routes.product_options product)
                                (optionName saved) <> [] ->
                 In key (optionValuesOf (Routes.product_options product)
                                        (optionName saved)))
             /\ Shapes.clean_list Ids.toNumericId
                  (map Routes.image_id (Routes.product_images product)) ids).
Proof.
  intros parse saved. split; [reflexivity|].
  apply (RoutesFacts.assign_action_saves_canonical parse Ids.toNumericId
           MoreSamples.shirt_catalog (Some "save")
           (Some "gid://shopify/Product/7") (Some "Color") (Some "stored")
           saved).
  reflexivity.
Defined.

Lemma saved_mapping_loads_back_shirt :
  let parse := stored_as (value_of_mapping MoreSamples.shirt_mapping) in
  Routes.assign_action parse Ids.toNumericId MoreSamples.shirt_catalog
    (Some "save") (Some "gid://shopify/Product/7") (Some "Color")
    (Some "stored")
  = Routes.Saved MoreSamples.shirt_mapping
  /\ Routes.getProductForAssignment parse Ids.toNumericId
       (MoreSamples.shirt (VStr "stored"))
     = Ok MoreSamples.shirt_mapping.
Proof.
  intros parse. split; [reflexivity|].
  apply (RoutesFacts.saved_mapping_loads_back parse Ids.toNumericId
           MoreSamples.shirt_catalog (Some "save") (Some "Color")
           (Some "stored") "gid://shopify/Product/7"
           (MoreSamples.shirt VNull) (MoreSamples.shirt (VStr "stored"))
           MoreSamples.shirt_mapping IdsFacts.toNumericId_idempotent);
    reflexivity.
Defined.

Lemma summarizeProduct_of_shirt :
  let parse := stored_as (value_of_mapping MoreSamples.shirt_mapping) in
  let summary :=
    Routes.summarizeProduct parse (VStr "stored") MoreSamples.shirt_images
      MoreSamples.shirt_variants in
  Routes.configuredVariants summary
  = List.length (mapping MoreSamples.shirt_mapping)
  /\ Routes.assignedImagesCount summary
     = List.length
         (Set_of (List.concat (map snd (mapping MoreSamples.shirt_mapping))))
  /\ (Routes.isConfigured summary = true <->
      mapping MoreSamples.shirt_mapping <> [])
  /\ Routes.mediaCount summary = List.length MoreSamples.shirt_images
  /\ Routes.variantsCount summary = List.length MoreSamples.shirt_variants.
Proof.
  intros parse.
  apply (RoutesFacts.summarizeProduct_of_saved_mapping parse (VStr "stored")
           MoreSamples.shirt_mapping MoreSamples.shirt_images
           MoreSamples.shirt_variants);
    reflexivity.
Defined.


Lemma filterGallery_frame_black :
  exists doc',
    filterGallery Samples.color_env "41" Samples.gallery_page = Ok doc'
    /\ querySelectorAll doc' = querySelectorAll Samples.gallery_page
    /\ (forall n,
          ~ In n (Decisions.touched Samples.gallery_page) ->
          nodes doc' n = nodes Samples.gallery_page n)
    /\ (forall n,
          img (nodes doc' n) = img (nodes Samples.gallery_page n)
          /\ inner_control (nodes doc' n)
             = inner_control (nodes Samples.gallery_page n)).
Proof.
  eexists. split; [reflexivity|].
  apply (PassFacts.filterGallery_frame Samples.color_env "41"
           Samples.gallery_page).
  reflexivity.
Defined.

Lemma filterGallery_idempotent_black :
  exists doc1,
    filterGallery Samples.color_env "41" Samples.gallery_page = Ok doc1
    /\ exists doc2,
         filterGallery Samples.color_env "41" doc1 = Ok doc2
         /\ querySelectorAll doc2 = querySelectorAll Samples.gallery_page
         /\ forall n, nodes doc2 n = nodes doc1 n.
Proof.
  eexists. split; [reflexivity|].
  apply (PassFacts.filterGallery_idempotent Samples.color_env "41"
           Samples.gallery_page).
  reflexivity.
Defined.

Lemma duplicate_variant_is_ignored_red :
  let st := {| lastVariantId := Some "41"; lastUrl := "" |} in
  let detail := VObj [("variant", VObj [("id", VNum 42)])] in
  let st1 :=
    fst (handleVariantChange Samples.color_env "42" st Samples.gallery_page) in
  lastVariantId st1 = Some "42"
  /\ lastUrl st1 = lastUrl st
  /\ (lastVariantId st <> Some "42" ->
      snd (handleVariantChange Samples.color_env "42" st Samples.gallery_page)
      = filterGallery Samples.color_env "42" Samples.gallery_page)
  /\ (forall doc2,
        handleVariantChange Samples.color_env "42" st1 doc2 = (st1, Ok doc2))
  /\ handle Samples.color_env (ev_variant_changed detail) st1
       Samples.fresh_window
     = (st1, Samples.fresh_window).
Proof.
  intros st detail.
  apply (BootFacts.duplicate_variant_is_ignored Samples.color_env "42" st
           Samples.gallery_page Samples.fresh_window detail);
    [discriminate | reflexivity | reflexivity | reflexivity].
Defined.

Lemma script_boots_on_enabled_payload :
  let parse := Samples.parse_payload MoreSamples.enabled_config in
  exists env,
    script parse Samples.fresh_window
    = (boot (set_initialized Samples.fresh_window), Booted env)
    /\ mappingMode env = "option"
    /\ mappingTable env
       = value_of_table (mapping MoreSamples.shirt_mapping)
    /\ Storefront.hideUnassignedImages env = VBool false
    /\ build_filenameToId
         [("1", VStr "https://cdn.example/files/shirt.jpg")] []
       = Ok (filenameToId env)
    /\ optionNames env = prop MoreSamples.enabled_config "optionNames"
    /\ variantOptions env = prop MoreSamples.enabled_config "variantOptions"
    /\ initialVariantId env
       = prop MoreSamples.enabled_config "initialVariantId".
Proof.
  intros parse.
  apply (BootFacts.script_boots_on_canonical_payload parse
           Samples.fresh_window "payload" MoreSamples.enabled_config
           MoreSamples.shirt_mapping
           {| Server.enabled := true; Server.allowSharedImages := true;
              Server.hideUnassignedImages := false |}
           [("1", VStr "https://cdn.example/files/shirt.jpg")]);
    try reflexivity.
  intros i src [H|[]]. injection H as _ <-. eexists. reflexivity.
Defined.


Lemma baseFilename_is_a_file_name_shirt :
  Props.no_char "/"
    (baseFilename "https://cdn.example/a/b_1x_2x.jpg?next=/y") = true
  /\ Props.no_char "?"
       (baseFilename "https://cdn.example/a/b_1x_2x.jpg?next=/y") = true
  /\ baseFilename ("https://cdn.example/files" ++ "/" ++ "shirt.jpg")
     = "shirt.jpg".
Proof.
  apply (NameFacts.baseFilename_is_a_file_name
           "https://cdn.example/a/b_1x_2x.jpg?next=/y"
           "https://cdn.example/files" "shirt.jpg");
    reflexivity.
Defined.

Lemma toNumericId_last_segment_image :
  Ids.toNumericId (VStr ("gid://shopify/ProductImage" ++ "/" ++ "10")) = "10"
  /\ Ids.toNumericId (VStr "10") = "10"
  /\ Props.no_char "/" (Ids.toNumericId (VNum 42)) = true
  /\ Ids.toNumericId (VStr (Ids.toNumericId (VNum 42)))
     = Ids.toNumericId (VNum 42).
Proof.
  apply (NameFacts.toNumericId_last_segment (VNum 42)
           "gid://shopify/ProductImage" "10");
    [discriminate | reflexivity].
Defined.

Lemma thumbUrl_idempotent_shirt :
  AdminBlock.thumbUrl
    (AdminBlock.thumbUrl "https://cdn.example/files/shirt.jpg?v=1&width=900")
  = AdminBlock.thumbUrl "https://cdn.example/files/shirt.jpg?v=1&width=900"
  /\ AdminBlock.thumbUrl
       ("https://cdn.example/files/shirt.jpg" ++ "?" ++ "v=1")
     = "https://cdn.example/files/shirt.jpg"
       ++ "?width=80&height=80&crop=center"
  /\ AdminBlock.thumbUrl "https://cdn.example/files/shirt.jpg"
     = "https://cdn.example/files/shirt.jpg"
       ++ "?width=80&height=80&crop=center"
  /\ AdminBlock.thumbUrl "" = "".
Proof.
  apply (NameFacts.thumbUrl_idempotent
           "https://cdn.example/files/shirt.jpg?v=1&width=900"
           "https://cdn.example/files/shirt.jpg" "v=1");
    [discriminate | reflexivity].
Defined.

Lemma extension_toggle_last_image :
  let prev := [("41", ["1"]); ("42", ["9"])] in
  let next := AdminBlock.toggleImage (Some "41") "1" prev in
  next = [("42", ["9"])]
  /\ (In "1" (get_or_empty "41" next) <-> ~ In "1" (get_or_empty "41" prev))
  /\ obj_get "41" next <> Some []
  /\ (forall k, k <> "41" -> obj_get k next = obj_get k prev)
  /\ NoDup (obj_keys next)
  /\ ((forall k l, obj_get k prev = Some l -> l <> []) ->
      forall k l, obj_get k next = Some l -> l <> []).
Proof.
  intros prev next. split; [reflexivity|].
  apply (ToggleFacts.extension_toggle_keeps_lists_nonempty "41" "1" prev).
  - discriminate.
  - repeat constructor; simpl; intuition discriminate.
Defined.

Lemma shared_toggle_red :
  let prev := AssignImages.plain [("Black", ["1"]); ("Red", ["2"])] in
  AssignImages.toggleImage true (Some "Red") "1" prev
  = Ok (AssignImages.plain [("Black", ["1"]); ("Red", ["2"; "1"])])
  /\ (AssignImages.toggleImage true (Some "Red") "1" prev = TypeError
      <-> AssignImages.read "Red" prev = AssignImages.NoArray
          \/ exists t, AssignImages.read "Red" prev = AssignImages.Text t
                       /\ str_includes "1" t = true)
  /\ forall next,
       AssignImages.toggleImage true (Some "Red") "1" prev = Ok next ->
       exists current,
         Props.current_list "1" (AssignImages.read "Red" prev) = Some current
         /\ AssignImages.prototype next = None
         /\ (In "1" (get_or_empty "Red" (AssignImages.entries next))
             <-> ~ In "1" current)
         /\ (forall k, k <> "Red" ->
               obj_get k (AssignImages.entries next)
               = obj_get k (AssignImages.entries prev))
         /\ (forall x, x <> "1" ->
               (In x (get_or_empty "Red" (AssignImages.entries next))
                <-> In x current)).
Proof.
  intros prev. split; [reflexivity|].
  apply (ToggleFacts.shared_toggle_touches_active_only "Red" "1" prev).
  discriminate.
Defined.

Lemma exclusive_toggle_undo_red :
  let prev := AssignImages.plain [("Black", ["1"; "3"]); ("Red", ["2"])] in
  AssignImages.toggleImage false (Some "Red") "1" prev
  = Ok (AssignImages.plain [("Black", ["3"]); ("Red", ["2"; "1"])])
  /\ AssignImages.toggleImage false (Some "Red") "1"
       (AssignImages.plain [("Black", ["3"]); ("Red", ["2"; "1"])])
     = Ok (AssignImages.plain [("Black", ["3"]); ("Red", ["2"])])
  /\ exists once twice,
       AssignImages.toggleImage false (Some "Red") "1" prev = Ok once
       /\ AssignImages.toggleImage false (Some "Red") "1" once = Ok twice
       /\ AssignImages.prototype twice = None
       /\ obj_get "Red" (AssignImages.entries twice) = Some ["2"]
       /\ (forall key l,
             obj_get key (AssignImages.entries twice) = Some l ->
             ~ In "1" l)
       /\ (forall key,
             key <> "Red" ->
             obj_get key (AssignImages.entries twice)
             = option_map (AssignImages.without "1")
                          (obj_get key (AssignImages.entries prev)))
       /\ (forall key x,
             key <> "Red" -> x <> "1" ->
             (In x (get_or_empty key (AssignImages.entries twice))
              <-> In x (get_or_empty key (AssignImages.entries prev)))).
Proof.
  intros prev. split; [reflexivity | split; [reflexivity|]].
  apply (ToggleFacts.exclusive_toggle_undo_loses_image "Red" "1" prev ["2"]);
    [discriminate | reflexivity |].
  intros [H|[]]. discriminate.
Defined.


Lemma bad_entry_stops_init_number :
  let st := {| lastVariantId := None; lastUrl := "" |} in
  (forall doc, filterGallery MoreSamples.broken_env "41" doc = TypeError)
  /\ init MoreSamples.broken_env Samples.fresh_window = TypeError
  /\ (lastVariantId st = None ->
      forall doc,
        handleVariantChange MoreSamples.broken_env "41" st doc
        = ({| lastVariantId := Some "41"; lastUrl := lastUrl st |},
           TypeError)).
Proof.
  intros st.
  apply (InitFacts.bad_entry_stops_init MoreSamples.broken_env
           Samples.fresh_window "41" st);
    try reflexivity.
  discriminate.
Defined.


End MoreInstances.
